(** * Pac-Man simulation core (pacman4k_claudv0.py): shallow embedding

    The embedding follows the Python source function by function.

    Numbers.  Python integers are [Z].  The source keeps positions and
    speeds as floats (speeds 1.5, 1.2, 0.8 and 2.0 pixels per frame on
    integer start coordinates).  They are embedded in fixed point, one unit
    being a tenth of a pixel ([SUB] units per pixel), so that every speed is
    an integer and [x // TILE_SIZE] is a floor division of integers.  The
    player's coordinates are multiples of one half and are exact in binary
    floating point as well; the adversaries' coordinates are the exact
    decimal sums the source approximates.

    Distances.  [math.hypot] is only ever compared with [<] on integer
    tile differences; the embedding compares the squared distances, which
    orders them the same way.

    Exceptions.  List indexing and the arithmetic of [Ghost.update_target]
    can raise; functions that may raise return in the [result] monad.

    Left out: drawing, sound playback and the mouth animation, which do not
    feed back into the simulation state. *)

From Stdlib Require Import ZArith List Bool Ascii String Lia.
Import ListNotations.
Open Scope Z_scope.

(** ** Exceptions *)

Inductive exn : Type := IndexError | TypeError.

Inductive result (A : Type) : Type :=
| Ok (a : A)
| Raise (e : exn).
Arguments Ok {A} a.
Arguments Raise {A} e.

Definition bind {A B : Type} (m : result A) (f : A -> result B) : result B :=
  match m with
  | Ok a => f a
  | Raise e => Raise e
  end.

Notation "x <- m ;; k" := (bind m (fun x => k))
  (at level 61, m at next level, right associativity).

(** ** Game constants *)

Definition TILE_SIZE : Z := 20.
Definition MAZE_COLS : Z := 28.
Definition MAZE_ROWS : Z := 31.
Definition SCREEN_WIDTH : Z := TILE_SIZE * MAZE_COLS.
Definition FPS : Z := 60.

Definition START_LIVES : Z := 3.
Definition DOT_SCORE : Z := 10.
Definition POWER_DOT_SCORE : Z := 50.
Definition GHOST_EAT_SCORES : list Z := [200; 400; 800; 1600].
Definition POWER_PELLET_TIME : Z := 6 * FPS.
Definition READY_TIME : Z := 2 * FPS.

(** Fixed-point resolution: position units per pixel. *)
Definition SUB : Z := 10.

Definition maze_layout : list string :=
  [ "############################";
    "#............##............#";
    "#.####.#####.##.#####.####.#";
    "#o####.#####.##.#####.####o#";
    "#.####.#####.##.#####.####.#";
    "#..........................#";
    "#.####.##.########.##.####.#";
    "#.####.##.########.##.####.#";
    "#......##....##....##......#";
    "######.##### ## #####.######";
    "######.##### ## #####.######";
    "######.##          ##.######";
    "######.## ###--### ##.######";
    "######.## #      # ##.######";
    "       ## #      # ##       ";
    "######.## #      # ##.######";
    "######.## ######## ##.######";
    "######.##          ##.######";
    "######.## ######## ##.######";
    "######.## ######## ##.######";
    "#............##............#";
    "#.####.#####.##.#####.####.#";
    "#.####.#####.##.#####.####.#";
    "#o..##................##..o#";
    "###.##.##.########.##.##.###";
    "###.##.##.########.##.##.###";
    "#......##....##....##......#";
    "#.##########.##.##########.#";
    "#.##########.##.##########.#";
    "#..........................#";
    "############################" ]%string.

(** ** Python lists: indexing with negative wrap-around and IndexError *)

Definition py_norm (len i : Z) : option nat :=
  if (0 <=? i) && (i <? len) then Some (Z.to_nat i)
  else if (- len <=? i) && (i <? 0) then Some (Z.to_nat (len + i))
  else None.

Definition py_get {A : Type} (l : list A) (i : Z) : result A :=
  match py_norm (Z.of_nat (List.length l)) i with
  | Some n =>
      match nth_error l n with
      | Some a => Ok a
      | None => Raise IndexError
      end
  | None => Raise IndexError
  end.

Fixpoint replace_nth {A : Type} (l : list A) (n : nat) (v : A) : list A :=
  match l, n with
  | [], _ => []
  | _ :: t, O => v :: t
  | h :: t, S n' => h :: replace_nth t n' v
  end.

Definition py_set {A : Type} (l : list A) (i : Z) (v : A) : result (list A) :=
  match py_norm (Z.of_nat (List.length l)) i with
  | Some n => Ok (replace_nth l n v)
  | None => Raise IndexError
  end.

(** The mutable maze: [[list(row) for row in maze_layout]]. *)
Definition Maze : Type := list (list ascii).

Definition maze_get (m : Maze) (row col : Z) : result ascii :=
  r <- py_get m row ;; py_get r col.

Definition maze_set (m : Maze) (row col : Z) (c : ascii) : result Maze :=
  r <- py_get m row ;;
  r' <- py_set r col c ;;
  py_set m row r'.

Definition is_wall_or_gate (c : ascii) : bool :=
  Ascii.eqb c "#" || Ascii.eqb c "-".

Definition is_pellet (c : ascii) : bool :=
  Ascii.eqb c "." || Ascii.eqb c "o".

(** [row.count('.') + row.count('o')] *)
Definition count_row (r : list ascii) : Z :=
  Z.of_nat (count_occ ascii_dec r "."%char)
  + Z.of_nat (count_occ ascii_dec r "o"%char).

Fixpoint count_maze (m : Maze) : Z :=
  match m with
  | [] => 0
  | r :: rest => count_row r + count_maze rest
  end.

(** ** Directions and tiles *)

Definition Dir : Type := (Z * Z)%type.

Definition dir_eqb (a b : Dir) : bool :=
  (fst a =? fst b) && (snd a =? snd b).

Definition neg_dir (d : Dir) : Dir := (- fst d, - snd d).

Definition UP : Dir := (0, -1).
Definition DOWN : Dir := (0, 1).
Definition LEFT : Dir := (-1, 0).
Definition RIGHT : Dir := (1, 0).
Definition NODIR : Dir := (0, 0).

(** [int(x // TILE_SIZE)] *)
Definition tile_of (x : Z) : Z := x / (TILE_SIZE * SUB).

(** [col * TILE_SIZE + TILE_SIZE//2], in position units *)
Definition tile_center (col : Z) : Z := (col * TILE_SIZE + TILE_SIZE / 2) * SUB.

(** [abs(x - centre(col)) < 2 and abs(y - centre(row)) < 2] *)
Definition centered (x y col row : Z) : bool :=
  (Z.abs (x - tile_center col) <? 2 * SUB)
  && (Z.abs (y - tile_center row) <? 2 * SUB).

Definition in_bounds (col row : Z) : bool :=
  (0 <=? col) && (col <? MAZE_COLS) && (0 <=? row) && (row <? MAZE_ROWS).

(** The tunnel rule both movers share: on row 14 a horizontal position left
    of the screen becomes [SCREEN_WIDTH - TILE_SIZE//2], one at or beyond the
    right bound becomes [TILE_SIZE//2]; any other position is kept. *)
Definition tunnel_wrap (row x keep : Z) : Z :=
  if row =? 14 then
    if x <? 0 then (SCREEN_WIDTH - TILE_SIZE / 2) * SUB
    else if x >=? SCREEN_WIDTH * SUB then (TILE_SIZE / 2) * SUB
    else keep
  else keep.

(** ** class Pacman *)

Module Pacman.

Record t : Type := mk {
  start_tile : Z * Z;
  x : Z;
  y : Z;
  dir : Dir;
  next_dir : Dir;
  speed : Z
}.

Definition with_pos (p : t) (nx ny : Z) : t :=
  mk (start_tile p) nx ny (dir p) (next_dir p) (speed p).
Definition with_x (p : t) (nx : Z) : t := with_pos p nx (y p).
Definition with_dir (p : t) (d : Dir) : t :=
  mk (start_tile p) (x p) (y p) d (next_dir p) (speed p).
Definition with_next_dir (p : t) (d : Dir) : t :=
  mk (start_tile p) (x p) (y p) (dir p) d (speed p).

(** [Pacman.__init__] followed by [reset]; speed 1.5 *)
Definition init (start : Z * Z) : t :=
  mk start (tile_center (fst start)) (tile_center (snd start)) NODIR NODIR 15.

Definition reset (p : t) : t := init (start_tile p).

Definition set_direction (p : t) (dx dy : Z) : t := with_next_dir p (dx, dy).

Definition get_tile (p : t) : Z * Z := (tile_of (x p), tile_of (y p)).

(** First half of [update]: commit the buffered turn when centred. *)
Definition turn (maze : Maze) (p : t) : result t :=
  let '(col, row) := get_tile p in
  if centered (x p) (y p) col row then
    if negb (dir_eqb (next_dir p) NODIR) then
      let next_col := col + fst (next_dir p) in
      let next_row := row + snd (next_dir p) in
      if in_bounds next_col next_row then
        c <- maze_get maze next_row next_col ;;
        if negb (is_wall_or_gate c)
        then Ok (with_next_dir (with_dir p (next_dir p)) NODIR)
        else Ok p
      else Ok p
    else Ok p
  else Ok p.

(** Second half of [update]: the wall-aware step and the tunnel. *)
Definition step (maze : Maze) (p : t) : result t :=
  if negb (dir_eqb (dir p) NODIR) then
    let next_x := x p + fst (dir p) * speed p in
    let next_y := y p + snd (dir p) * speed p in
    let next_col := tile_of next_x in
    let next_row := tile_of next_y in
    p1 <- (if in_bounds next_col next_row then
             c <- maze_get maze next_row next_col ;;
             if negb (is_wall_or_gate c)
             then Ok (with_pos p next_x next_y)
             else Ok (with_dir p NODIR)
           else Ok p) ;;
    Ok (with_x p1 (tunnel_wrap next_row next_x (x p1)))
  else Ok p.

Definition update (maze : Maze) (p : t) : result t :=
  p1 <- turn maze p ;; step maze p1.

End Pacman.

(** ** class Ghost *)

Inductive Name : Type := Blinky | Pinky | Inky | Clyde.

Definition name_eqb (a b : Name) : bool :=
  match a, b with
  | Blinky, Blinky | Pinky, Pinky | Inky, Inky | Clyde, Clyde => true
  | _, _ => false
  end.

(** The mode strings of the source.  ["chase"] is never assigned by the
    program; [update_target] treats every mode other than ["scatter"] as
    chase. *)
Inductive Mode : Type := Pen | Leaving | Scatter | Chase | Dead | Entering.

Definition mode_eqb (a b : Mode) : bool :=
  match a, b with
  | Pen, Pen | Leaving, Leaving | Scatter, Scatter
  | Chase, Chase | Dead, Dead | Entering, Entering => true
  | _, _ => false
  end.

(** Squared Euclidean length, standing for [math.hypot dx dy] in
    comparisons. *)
Definition dist2 (dx dy : Z) : Z := dx * dx + dy * dy.

(** [random.choice]: the index drawn is supplied from outside. *)
Definition choice (rnd : nat) (l : list Dir) (default : Dir) : Dir :=
  nth (Nat.modulo rnd (List.length l)) l default.

Module Ghost.

Record t : Type := mk {
  name : Name;
  scatter_target : Z * Z;
  start_tile : Z * Z;
  x : Z;
  y : Z;
  dir : Dir;
  speed : Z;
  mode : Mode;
  frightened : bool;
  frightened_timer : Z;
  target : Z * Z;
  pen_timer : Z
}.

Definition with_pos (g : t) (nx ny : Z) : t :=
  mk (name g) (scatter_target g) (start_tile g) nx ny (dir g) (speed g)
     (mode g) (frightened g) (frightened_timer g) (target g) (pen_timer g).
Definition with_dir (g : t) (d : Dir) : t :=
  mk (name g) (scatter_target g) (start_tile g) (x g) (y g) d (speed g)
     (mode g) (frightened g) (frightened_timer g) (target g) (pen_timer g).
Definition with_speed (g : t) (s : Z) : t :=
  mk (name g) (scatter_target g) (start_tile g) (x g) (y g) (dir g) s
     (mode g) (frightened g) (frightened_timer g) (target g) (pen_timer g).
Definition with_mode (g : t) (m : Mode) : t :=
  mk (name g) (scatter_target g) (start_tile g) (x g) (y g) (dir g) (speed g)
     m (frightened g) (frightened_timer g) (target g) (pen_timer g).
Definition with_frightened (g : t) (b : bool) : t :=
  mk (name g) (scatter_target g) (start_tile g) (x g) (y g) (dir g) (speed g)
     (mode g) b (frightened_timer g) (target g) (pen_timer g).
Definition with_frightened_timer (g : t) (n : Z) : t :=
  mk (name g) (scatter_target g) (start_tile g) (x g) (y g) (dir g) (speed g)
     (mode g) (frightened g) n (target g) (pen_timer g).
Definition with_target (g : t) (tg : Z * Z) : t :=
  mk (name g) (scatter_target g) (start_tile g) (x g) (y g) (dir g) (speed g)
     (mode g) (frightened g) (frightened_timer g) tg (pen_timer g).
Definition with_pen_timer (g : t) (n : Z) : t :=
  mk (name g) (scatter_target g) (start_tile g) (x g) (y g) (dir g) (speed g)
     (mode g) (frightened g) (frightened_timer g) (target g) n.

(** [reset]; speed 1.2 *)
Definition reset (g : t) : t :=
  mk (name g) (scatter_target g) (start_tile g)
     (tile_center (fst (start_tile g))) (tile_center (snd (start_tile g)))
     (if name_eqb (name g) Blinky then UP else DOWN)
     12
     (if name_eqb (name g) Blinky then Scatter else Pen)
     false 0 (scatter_target g) 0.

(** [Ghost.__init__]: store the identity, then [reset]. *)
Definition init (n : Name) (start scatter : Z * Z) : t :=
  reset (mk n scatter start 0 0 NODIR 0 Pen false 0 scatter 0).

Definition release (g : t) : t :=
  if mode_eqb (mode g) Pen then with_dir (with_mode g Leaving) UP else g.

(** [frighten]; speed 0.8 *)
Definition frighten (g : t) : t :=
  match mode g with
  | Dead | Entering | Pen | Leaving => g
  | _ =>
      with_speed
        (with_dir
           (with_frightened_timer (with_frightened g true) POWER_PELLET_TIME)
           (neg_dir (dir g)))
        8
  end.

Definition unfrighten (g : t) : t := with_speed (with_frightened g false) 12.

(** [die]; speed 2.0, target the ghost house entrance *)
Definition die (g : t) : t :=
  with_target (with_speed (with_frightened (with_mode g Dead) false) 20) (13, 11).

Definition get_tile (g : t) : Z * Z := (tile_of (x g), tile_of (y g)).

Definition move_in_direction (g : t) : t :=
  let nx := x g + fst (dir g) * speed g in
  let ny := y g + snd (dir g) * speed g in
  let row := tile_of ny in
  with_pos g (tunnel_wrap row nx nx) ny.

(** [update_target].  In the chase branch of "clyde" the source evaluates
    [pac_col - math.cos]: an integer minus a built-in function object, which
    raises TypeError before any distance is computed. *)
Definition update_target (pac : Pacman.t) (blinky : t) (g : t) : result t :=
  let '(pac_col, pac_row) := Pacman.get_tile pac in
  let pac_dir := Pacman.dir pac in
  match mode g with
  | Scatter => Ok (with_target g (scatter_target g))
  | _ =>
      match name g with
      | Blinky => Ok (with_target g (pac_col, pac_row))
      | Pinky =>
          let target_col := pac_col + fst pac_dir * 4 in
          let target_row := pac_row + snd pac_dir * 4 in
          Ok (with_target g (target_col, target_row))
      | Inky =>
          let '(blinky_col, blinky_row) := get_tile blinky in
          let ahead_col := pac_col + fst pac_dir * 2 in
          let ahead_row := pac_row + snd pac_dir * 2 in
          let target_col := ahead_col + (ahead_col - blinky_col) in
          let target_row := ahead_row + (ahead_row - blinky_row) in
          Ok (with_target g (target_col, target_row))
      | Clyde => Raise TypeError
      end
  end.

(** The loop body of [seek_target]: [acc] is [(best_dir, best_dist)], with
    [None] for the initial [float('inf')]. *)
Definition consider (g : t) (col row : Z) (acc : Dir * option Z)
    (direction : Dir) : Dir * option Z :=
  if dir_eqb direction (neg_dir (dir g)) then acc
  else
    let next_col := col + fst direction in
    let next_row := row + snd direction in
    if in_bounds next_col next_row then
      let dist := dist2 (fst (target g) - next_col) (snd (target g) - next_row) in
      match snd acc with
      | None => (direction, Some dist)
      | Some best_dist =>
          if dist <? best_dist then (direction, Some dist) else acc
      end
    else acc.

Definition choose_dir (g : t) (col row : Z) : Dir :=
  fst (fold_left (consider g col row) [UP; DOWN; LEFT; RIGHT] (dir g, None)).

Definition seek_target (g : t) : t :=
  let '(col, row) := get_tile g in
  let g1 := if centered (x g) (y g) col row
            then with_dir g (choose_dir g col row)
            else g in
  move_in_direction g1.

Definition possible_dirs (g : t) : list Dir :=
  filter (fun direction => negb (dir_eqb direction (neg_dir (dir g))))
         [UP; DOWN; LEFT; RIGHT].

Definition move_randomly (rnd : nat) (g : t) : t :=
  let '(col, row) := get_tile g in
  let g1 := if centered (x g) (y g) col row
            then match possible_dirs g with
                 | [] => g
                 | ds => with_dir g (choice rnd ds (dir g))
                 end
            else g in
  move_in_direction g1.

Definition update (pac : Pacman.t) (blinky : t) (rnd : nat) (g : t) : result t :=
  let '(col, row) := get_tile g in
  let g :=
    if frightened g then
      let g1 := with_frightened_timer g (frightened_timer g - 1) in
      if frightened_timer g1 <=? 0 then unfrighten g1 else g1
    else g in
  match mode g with
  | Pen =>
      let g1 := with_pen_timer g (pen_timer g + 1) in
      let g2 := if pen_timer g1 mod 60 =? 0
                then with_dir g1 (0, - snd (dir g1)) else g1 in
      Ok (move_in_direction g2)
  | Leaving =>
      if row >? 11 then Ok (move_in_direction (with_dir g UP))
      else Ok (with_dir (with_mode g Scatter) LEFT)
  | Dead =>
      if (col =? 13) && (row =? 11)
      then Ok (with_dir (with_mode g Entering) DOWN)
      else Ok (seek_target g)
  | Entering =>
      if row >=? 14 then Ok (reset (with_mode g Leaving))
      else Ok (move_in_direction (with_dir g DOWN))
  | _ =>
      if frightened g then Ok (move_randomly rnd g)
      else g1 <- update_target pac blinky g ;; Ok (seek_target g1)
  end.

End Ghost.

(** ** pygame.Rect and colliderect

    [pygame.Rect(x, y, w, h)] stores integer coordinates and truncates float
    arguments toward zero; [colliderect] is true when the two rectangles
    overlap on both axes (rectangles that only share an edge do not). *)

Record Rect : Type := mkRect { left : Z; top : Z; width : Z; height : Z }.

Definition colliderect (a b : Rect) : bool :=
  negb ((width a =? 0) || (height a =? 0) || (width b =? 0) || (height b =? 0))
  && (Z.min (left a) (left a + width a) <? Z.max (left b) (left b + width b))
  && (Z.min (top a) (top a + height a) <? Z.max (top b) (top b + height b))
  && (Z.max (left a) (left a + width a) >? Z.min (left b) (left b + width b))
  && (Z.max (top a) (top a + height a) >? Z.min (top b) (top b + height b)).

(** [pygame.Rect(x - 8, y - 8, 16, 16)] for a position in position units *)
Definition body_rect (x y : Z) : Rect :=
  mkRect (Z.quot (x - 8 * SUB) SUB) (Z.quot (y - 8 * SUB) SUB) 16 16.

(** ** class Game *)

Inductive Phase : Type := READY | PLAYING | DYING | GAME_OVER.

Definition phase_eqb (a b : Phase) : bool :=
  match a, b with
  | READY, READY | PLAYING, PLAYING | DYING, DYING | GAME_OVER, GAME_OVER => true
  | _, _ => false
  end.

(** [pygame.key.get_pressed()], restricted to the four arrow keys *)
Record Keys : Type := mkKeys { K_UP : bool; K_DOWN : bool; K_LEFT : bool; K_RIGHT : bool }.

Module Game.

Record t : Type := mk {
  state : Phase;
  state_timer : Z;
  score : Z;
  high_score : Z;
  lives : Z;
  level : Z;
  pellets_eaten : Z;
  total_pellets : Z;
  ghost_eat_count : Z;
  power_mode : bool;
  power_timer : Z;
  power_pellet_blink : Z;
  waka_timer : Z;
  maze : Maze;
  original_maze : Maze;
  pacman : Pacman.t;
  blinky : Ghost.t;
  pinky : Ghost.t;
  inky : Ghost.t;
  clyde : Ghost.t;
  ghost_release_timer : Z;
  ghosts_released : list Name
}.

Definition with_state (g : t) (v : Phase) : t :=
  mk v (state_timer g) (score g) (high_score g) (lives g) (level g)
    (pellets_eaten g) (total_pellets g) (ghost_eat_count g) (power_mode g)
    (power_timer g) (power_pellet_blink g) (waka_timer g) (maze g)
    (original_maze g) (pacman g) (blinky g) (pinky g) (inky g) (clyde g)
    (ghost_release_timer g) (ghosts_released g).
Definition with_state_timer (g : t) (v : Z) : t :=
  mk (state g) v (score g) (high_score g) (lives g) (level g)
    (pellets_eaten g) (total_pellets g) (ghost_eat_count g) (power_mode g)
    (power_timer g) (power_pellet_blink g) (waka_timer g) (maze g)
    (original_maze g) (pacman g) (blinky g) (pinky g) (inky g) (clyde g)
    (ghost_release_timer g) (ghosts_released g).
Definition with_score (g : t) (v : Z) : t :=
  mk (state g) (state_timer g) v (high_score g) (lives g) (level g)
    (pellets_eaten g) (total_pellets g) (ghost_eat_count g) (power_mode g)
    (power_timer g) (power_pellet_blink g) (waka_timer g) (maze g)
    (original_maze g) (pacman g) (blinky g) (pinky g) (inky g) (clyde g)
    (ghost_release_timer g) (ghosts_released g).
Definition with_high_score (g : t) (v : Z) : t :=
  mk (state g) (state_timer g) (score g) v (lives g) (level g)
    (pellets_eaten g) (total_pellets g) (ghost_eat_count g) (power_mode g)
    (power_timer g) (power_pellet_blink g) (waka_timer g) (maze g)
    (original_maze g) (pacman g) (blinky g) (pinky g) (inky g) (clyde g)
    (ghost_release_timer g) (ghosts_released g).
Definition with_lives (g : t) (v : Z) : t :=
  mk (state g) (state_timer g) (score g) (high_score g) v (level g)
    (pellets_eaten g) (total_pellets g) (ghost_eat_count g) (power_mode g)
    (power_timer g) (power_pellet_blink g) (waka_timer g) (maze g)
    (original_maze g) (pacman g) (blinky g) (pinky g) (inky g) (clyde g)
    (ghost_release_timer g) (ghosts_released g).
Definition with_level (g : t) (v : Z) : t :=
  mk (state g) (state_timer g) (score g) (high_score g) (lives g) v
    (pellets_eaten g) (total_pellets g) (ghost_eat_count g) (power_mode g)
    (power_timer g) (power_pellet_blink g) (waka_timer g) (maze g)
    (original_maze g) (pacman g) (blinky g) (pinky g) (inky g) (clyde g)
    (ghost_release_timer g) (ghosts_released g).
Definition with_pellets_eaten (g : t) (v : Z) : t :=
  mk (state g) (state_timer g) (score g) (high_score g) (lives g) (level g)
    v (total_pellets g) (ghost_eat_count g) (power_mode g) (power_timer g)
    (power_pellet_blink g) (waka_timer g) (maze g) (original_maze g)
    (pacman g) (blinky g) (pinky g) (inky g) (clyde g)
    (ghost_release_timer g) (ghosts_released g).
Definition with_ghost_eat_count (g : t) (v : Z) : t :=
  mk (state g) (state_timer g) (score g) (high_score g) (lives g) (level g)
    (pellets_eaten g) (total_pellets g) v (power_mode g) (power_timer g)
    (power_pellet_blink g) (waka_timer g) (maze g) (original_maze g)
    (pacman g) (blinky g) (pinky g) (inky g) (clyde g)
    (ghost_release_timer g) (ghosts_released g).
Definition with_power_mode (g : t) (v : bool) : t :=
  mk (state g) (state_timer g) (score g) (high_score g) (lives g) (level g)
    (pellets_eaten g) (total_pellets g) (ghost_eat_count g) v
    (power_timer g) (power_pellet_blink g) (waka_timer g) (maze g)
    (original_maze g) (pacman g) (blinky g) (pinky g) (inky g) (clyde g)
    (ghost_release_timer g) (ghosts_released g).
Definition with_power_timer (g : t) (v : Z) : t :=
  mk (state g) (state_timer g) (score g) (high_score g) (lives g) (level g)
    (pellets_eaten g) (total_pellets g) (ghost_eat_count g) (power_mode g) v
    (power_pellet_blink g) (waka_timer g) (maze g) (original_maze g)
    (pacman g) (blinky g) (pinky g) (inky g) (clyde g)
    (ghost_release_timer g) (ghosts_released g).
Definition with_power_pellet_blink (g : t) (v : Z) : t :=
  mk (state g) (state_timer g) (score g) (high_score g) (lives g) (level g)
    (pellets_eaten g) (total_pellets g) (ghost_eat_count g) (power_mode g)
    (power_timer g) v (waka_timer g) (maze g) (original_maze g) (pacman g)
    (blinky g) (pinky g) (inky g) (clyde g) (ghost_release_timer g)
    (ghosts_released g).
Definition with_waka_timer (g : t) (v : Z) : t :=
  mk (state g) (state_timer g) (score g) (high_score g) (lives g) (level g)
    (pellets_eaten g) (total_pellets g) (ghost_eat_count g) (power_mode g)
    (power_timer g) (power_pellet_blink g) v (maze g) (original_maze g)
    (pacman g) (blinky g) (pinky g) (inky g) (clyde g)
    (ghost_release_timer g) (ghosts_released g).
Definition with_maze (g : t) (v : Maze) : t :=
  mk (state g) (state_timer g) (score g) (high_score g) (lives g) (level g)
    (pellets_eaten g) (total_pellets g) (ghost_eat_count g) (power_mode g)
    (power_timer g) (power_pellet_blink g) (waka_timer g) v
    (original_maze g) (pacman g) (blinky g) (pinky g) (inky g) (clyde g)
    (ghost_release_timer g) (ghosts_released g).
Definition with_pacman (g : t) (v : Pacman.t) : t :=
  mk (state g) (state_timer g) (score g) (high_score g) (lives g) (level g)
    (pellets_eaten g) (total_pellets g) (ghost_eat_count g) (power_mode g)
    (power_timer g) (power_pellet_blink g) (waka_timer g) (maze g)
    (original_maze g) v (blinky g) (pinky g) (inky g) (clyde g)
    (ghost_release_timer g) (ghosts_released g).
Definition with_blinky (g : t) (v : Ghost.t) : t :=
  mk (state g) (state_timer g) (score g) (high_score g) (lives g) (level g)
    (pellets_eaten g) (total_pellets g) (ghost_eat_count g) (power_mode g)
    (power_timer g) (power_pellet_blink g) (waka_timer g) (maze g)
    (original_maze g) (pacman g) v (pinky g) (inky g) (clyde g)
    (ghost_release_timer g) (ghosts_released g).
Definition with_pinky (g : t) (v : Ghost.t) : t :=
  mk (state g) (state_timer g) (score g) (high_score g) (lives g) (level g)
    (pellets_eaten g) (total_pellets g) (ghost_eat_count g) (power_mode g)
    (power_timer g) (power_pellet_blink g) (waka_timer g) (maze g)
    (original_maze g) (pacman g) (blinky g) v (inky g) (clyde g)
    (ghost_release_timer g) (ghosts_released g).
Definition with_inky (g : t) (v : Ghost.t) : t :=
  mk (state g) (state_timer g) (score g) (high_score g) (lives g) (level g)
    (pellets_eaten g) (total_pellets g) (ghost_eat_count g) (power_mode g)
    (power_timer g) (power_pellet_blink g) (waka_timer g) (maze g)
    (original_maze g) (pacman g) (blinky g) (pinky g) v (clyde g)
    (ghost_release_timer g) (ghosts_released g).
Definition with_clyde (g : t) (v : Ghost.t) : t :=
  mk (state g) (state_timer g) (score g) (high_score g) (lives g) (level g)
    (pellets_eaten g) (total_pellets g) (ghost_eat_count g) (power_mode g)
    (power_timer g) (power_pellet_blink g) (waka_timer g) (maze g)
    (original_maze g) (pacman g) (blinky g) (pinky g) (inky g) v
    (ghost_release_timer g) (ghosts_released g).
Definition with_ghost_release_timer (g : t) (v : Z) : t :=
  mk (state g) (state_timer g) (score g) (high_score g) (lives g) (level g)
    (pellets_eaten g) (total_pellets g) (ghost_eat_count g) (power_mode g)
    (power_timer g) (power_pellet_blink g) (waka_timer g) (maze g)
    (original_maze g) (pacman g) (blinky g) (pinky g) (inky g) (clyde g) v
    (ghosts_released g).
Definition with_ghosts_released (g : t) (v : list Name) : t :=
  mk (state g) (state_timer g) (score g) (high_score g) (lives g) (level g)
    (pellets_eaten g) (total_pellets g) (ghost_eat_count g) (power_mode g)
    (power_timer g) (power_pellet_blink g) (waka_timer g) (maze g)
    (original_maze g) (pacman g) (blinky g) (pinky g) (inky g) (clyde g)
    (ghost_release_timer g) v.

(** [self.ghosts = [self.blinky, self.pinky, self.inky, self.clyde]]: the
    list holds the same four objects as the fields, so it is kept as the
    list of their names and read and written through the fields. *)
Definition ghosts : list Name := [Blinky; Pinky; Inky; Clyde].

Definition get_ghost (g : t) (n : Name) : Ghost.t :=
  match n with
  | Blinky => blinky g | Pinky => pinky g | Inky => inky g | Clyde => clyde g
  end.

Definition set_ghost (g : t) (n : Name) (gh : Ghost.t) : t :=
  match n with
  | Blinky => with_blinky g gh
  | Pinky => with_pinky g gh
  | Inky => with_inky g gh
  | Clyde => with_clyde g gh
  end.

Definition initial_maze : Maze := map list_ascii_of_string maze_layout.

Definition count_pellets : Z := count_maze initial_maze.

Definition reset_level (g : t) : result t :=
  let m := original_maze g in
  c <- maze_get m 23 13 ;;
  m1 <- (if is_pellet c then maze_set m 23 13 " "%char else Ok m) ;;
  Ok (mk (state g) (state_timer g) (score g) (high_score g) (lives g) (level g)
        0 (total_pellets g) 0 false 0
        (power_pellet_blink g) (waka_timer g) m1 (original_maze g)
        (Pacman.init (13, 23))
        (Ghost.init Blinky (13, 11) (25, 0))
        (Ghost.init Pinky (13, 14) (2, 0))
        (Ghost.init Inky (11, 14) (27, 29))
        (Ghost.init Clyde (15, 14) (0, 29))
        0 []).

(** [Game.__init__]: the round fields are set first and [reset_level]
    then creates the agents, so the agents passed to it here are
    placeholders that it overwrites. *)
Definition blank : t :=
  mk READY READY_TIME 0 0 START_LIVES 1 0 count_pellets 0 false 0 0 0
     initial_maze initial_maze
     (Pacman.init (0, 0))
     (Ghost.init Blinky (0, 0) (0, 0)) (Ghost.init Pinky (0, 0) (0, 0))
     (Ghost.init Inky (0, 0) (0, 0)) (Ghost.init Clyde (0, 0) (0, 0))
     0 [].

Definition init : result t := reset_level blank.

Definition reset_positions (g : t) : t :=
  let g := with_pacman g (Pacman.reset (pacman g)) in
  let g := fold_left (fun g n => set_ghost g n (Ghost.reset (get_ghost g n)))
                     ghosts g in
  let g := with_ghost_release_timer g 0 in
  let g := with_ghosts_released g [] in
  let g := with_power_mode g false in
  with_power_timer g 0.

Definition handle_input (keys : Keys) (g : t) : t :=
  if phase_eqb (state g) PLAYING then
    if K_UP keys then with_pacman g (Pacman.set_direction (pacman g) 0 (-1))
    else if K_DOWN keys then with_pacman g (Pacman.set_direction (pacman g) 0 1)
    else if K_LEFT keys then with_pacman g (Pacman.set_direction (pacman g) (-1) 0)
    else if K_RIGHT keys then with_pacman g (Pacman.set_direction (pacman g) 1 0)
    else g
  else g.

(** *** The sections of [update_game], in source order *)

(** "Update animations" *)
Definition animate (g : t) : t :=
  let g := with_power_pellet_blink g ((power_pellet_blink g + 1) mod 20) in
  with_waka_timer g ((waka_timer g + 1) mod 10).

(** "Update Pac-Man" *)
Definition move_pacman (g : t) : result t :=
  p <- Pacman.update (maze g) (pacman g) ;; Ok (with_pacman g p).

(** "Frighten all active ghosts" *)
Definition frighten_ghosts (g : t) : t :=
  fold_left
    (fun g n =>
       let gh := get_ghost g n in
       if negb (mode_eqb (Ghost.mode gh) Dead)
          && negb (mode_eqb (Ghost.mode gh) Entering)
       then set_ghost g n (Ghost.frighten gh) else g)
    ghosts g.

(** "Check pellet eating" *)
Definition eat_pellet (g : t) : result t :=
  let '(col, row) := Pacman.get_tile (pacman g) in
  c <- maze_get (maze g) row col ;;
  if Ascii.eqb c "." then
    m <- maze_set (maze g) row col " "%char ;;
    let g := with_maze g m in
    let g := with_score g (score g + DOT_SCORE) in
    Ok (with_pellets_eaten g (pellets_eaten g + 1))
  else if Ascii.eqb c "o" then
    m <- maze_set (maze g) row col " "%char ;;
    let g := with_maze g m in
    let g := with_score g (score g + POWER_DOT_SCORE) in
    let g := with_pellets_eaten g (pellets_eaten g + 1) in
    let g := with_power_mode g true in
    let g := with_power_timer g POWER_PELLET_TIME in
    let g := with_ghost_eat_count g 0 in
    Ok (frighten_ghosts g)
  else Ok g.

(** "Update power mode" *)
Definition update_power (g : t) : t :=
  if power_mode g then
    let g := with_power_timer g (power_timer g - 1) in
    if power_timer g <=? 0 then
      let g := with_power_mode g false in
      fold_left
        (fun g n =>
           let gh := get_ghost g n in
           if Ghost.frightened gh then set_ghost g n (Ghost.unfrighten gh) else g)
        ghosts g
    else g
  else g.

Definition released (n : Name) (g : t) : bool :=
  existsb (name_eqb n) (ghosts_released g).

(** One release rule: [if name not in self.ghosts_released and
    (self.pellets_eaten >= threshold or self.ghost_release_timer > seconds * FPS)] *)
Definition release_rule (n : Name) (threshold seconds : Z) (g : t) : t :=
  if negb (released n g)
     && ((pellets_eaten g >=? threshold)
         || (ghost_release_timer g >? seconds * FPS))
  then
    let g := set_ghost g n (Ghost.release (get_ghost g n)) in
    with_ghosts_released g (n :: ghosts_released g)
  else g.

(** "Release ghosts from pen" *)
Definition release_ghosts (g : t) : t :=
  let g := with_ghost_release_timer g (ghost_release_timer g + 1) in
  let g := release_rule Pinky 7 4 g in
  let g := release_rule Inky 17 8 g in
  release_rule Clyde 32 12 g.

(** "Update ghosts": [ghost.update(self.pacman, self.blinky)] in list order;
    [rnd n] is the index [random.choice] draws for ghost [n] this frame. *)
Fixpoint update_ghosts (rnd : Name -> nat) (names : list Name) (g : t) : result t :=
  match names with
  | [] => Ok g
  | n :: rest =>
      gh <- Ghost.update (pacman g) (blinky g) (rnd n) (get_ghost g n) ;;
      update_ghosts rnd rest (set_ghost g n gh)
  end.

(** [GHOST_EAT_SCORES[min(self.ghost_eat_count, 3)]] *)
Definition score_gain (count : Z) : result Z :=
  py_get GHOST_EAT_SCORES (Z.min count 3).

(** "Eat ghost": the frightened branch of the collision loop *)
Definition eat_ghost (g : t) (n : Name) : result t :=
  let g := set_ghost g n (Ghost.die (get_ghost g n)) in
  gain <- score_gain (ghost_eat_count g) ;;
  let g := with_score g (score g + gain) in
  Ok (with_ghost_eat_count g (ghost_eat_count g + 1)).

(** "Pac-Man dies": the other branch, which returns from [update_game] *)
Definition pacman_dies (g : t) : t :=
  let g := with_state g DYING in
  with_state_timer g (FPS * 2).

(** "Check collisions": the loop over [self.ghosts].  The boolean is true
    when the loop left through the [return] of the death branch. *)
Fixpoint check_collisions (pac_rect : Rect) (names : list Name) (g : t)
  : result (t * bool) :=
  match names with
  | [] => Ok (g, false)
  | n :: rest =>
      let ghost := get_ghost g n in
      if mode_eqb (Ghost.mode ghost) Dead then check_collisions pac_rect rest g
      else
        let ghost_rect := body_rect (Ghost.x ghost) (Ghost.y ghost) in
        if colliderect pac_rect ghost_rect then
          if Ghost.frightened ghost then
            g <- eat_ghost g n ;;
            check_collisions pac_rect rest g
          else Ok (pacman_dies g, true)
        else check_collisions pac_rect rest g
  end.

(** "Check level completion" *)
Definition check_level_completion (g : t) : result t :=
  if pellets_eaten g >=? total_pellets g then
    g <- reset_level (with_level g (level g + 1)) ;;
    Ok (with_state_timer (with_state g READY) READY_TIME)
  else Ok g.

(** Everything of [update_game] that precedes the collision loop. *)
Definition before_collisions (rnd : Name -> nat) (g : t) : result t :=
  let g := animate g in
  g <- move_pacman g ;;
  g <- eat_pellet g ;;
  let g := update_power g in
  let g := release_ghosts g in
  update_ghosts rnd ghosts g.

Definition update_game (rnd : Name -> nat) (g : t) : result t :=
  g <- before_collisions rnd g ;;
  let pac_rect := body_rect (Pacman.x (pacman g)) (Pacman.y (pacman g)) in
  r <- check_collisions pac_rect ghosts g ;;
  if snd r then Ok (fst r) else check_level_completion (fst r).

Definition update (rnd : Name -> nat) (g : t) : result t :=
  match state g with
  | READY =>
      let g := with_state_timer g (state_timer g - 1) in
      if state_timer g <=? 0 then Ok (with_state g PLAYING) else Ok g
  | PLAYING => update_game rnd g
  | DYING =>
      let g := with_state_timer g (state_timer g - 1) in
      if state_timer g <=? 0 then
        let g := with_lives g (lives g - 1) in
        if lives g <=? 0 then
          let g := with_state g GAME_OVER in
          if score g >? high_score g
          then Ok (with_high_score g (score g)) else Ok g
        else
          let g := reset_positions g in
          let g := with_state g READY in
          Ok (with_state_timer g READY_TIME)
      else Ok g
  | GAME_OVER => Ok g
  end.

(** The K_r branch of the event loop in [run]. *)
Definition restart (g : t) : result t :=
  if phase_eqb (state g) GAME_OVER then
    let g := with_score g 0 in
    let g := with_lives g START_LIVES in
    let g := with_level g 1 in
    g <- reset_level g ;;
    let g := with_state g READY in
    Ok (with_state_timer g READY_TIME)
  else Ok g.

(** One iteration of the loop in [run]: events, input, update. *)
Definition frame (r_pressed : bool) (keys : Keys) (rnd : Name -> nat) (g : t)
  : result t :=
  g <- (if r_pressed then restart g else Ok g) ;;
  update rnd (handle_input keys g).

End Game.

(** * Vocabulary of the statements *)

(** The shape of the grid and the cells that are walls or gates. *)
Definition walls (m : Maze) : list (list bool) := map (map is_wall_or_gate) m.

(** The keyboard with no arrow key held. *)
Definition no_keys : Keys := mkKeys false false false false.

(** Running the loop of [run] over a list of per-frame inputs: whether R was
    pressed, the arrow keys held, and the random draws. *)
Fixpoint frames (inputs : list (bool * Keys * (Name -> nat))) (g : Game.t)
  : result Game.t :=
  match inputs with
  | [] => Ok g
  | (r, keys, rnd) :: rest => g' <- Game.frame r keys rnd g ;; frames rest g'
  end.

(** The draws of a frame in which every [random.choice] picks index 0. *)
Definition rnd0 : Name -> nat := fun _ => O.

(** [n] frames with no key pressed. *)
Definition idle_frames (n : nat) (g : Game.t) : result Game.t :=
  frames (repeat (false, no_keys, rnd0) n) g.

(** The states a session can be in: the state [Game()] builds, and every
    state a frame of the loop produces from one of them. *)
Inductive reachable : Game.t -> Prop :=
| reachable_init (g : Game.t) : Game.init = Ok g -> reachable g
| reachable_frame (g g' : Game.t) (r : bool) (keys : Keys) (rnd : Name -> nat) :
    reachable g -> Game.frame r keys rnd g = Ok g' -> reachable g'.

(** The state [Game()] builds, as a closed term. *)
Definition game0 : Game.t :=
  match Game.init with
  | Ok g => g
  | Raise _ => Game.blank
  end.

(** A state of the playing phase taken from [game0]. *)
Definition playing0 : Game.t := Game.with_state game0 PLAYING.

(** ** The seek-target choice *)

(** What [seek_target] compares: the squared distance from the tile one
    step in direction [d] to the target tile. *)
Definition step_cost (g : Ghost.t) (col row : Z) (d : Dir) : Z :=
  dist2 (fst (Ghost.target g) - (col + fst d))
        (snd (Ghost.target g) - (row + snd d)).

(** The directions the loop of [seek_target] does not skip: not the reverse
    of the current direction, and with the tile one step ahead inside the
    grid. *)
Definition legal (g : Ghost.t) (col row : Z) (d : Dir) : bool :=
  negb (dir_eqb d (neg_dir (Ghost.dir g)))
  && in_bounds (col + fst d) (row + snd d).

Definition candidates (g : Ghost.t) (col row : Z) : list Dir :=
  filter (legal g col row) [UP; DOWN; LEFT; RIGHT].

(** The first element of least cost, ties going to the earlier one. *)
Fixpoint first_min (cost : Dir -> Z) (l : list Dir) : option Dir :=
  match l with
  | [] => None
  | d :: rest =>
      match first_min cost rest with
      | Some r => if cost r <? cost d then Some r else Some d
      | None => Some d
      end
  end.

(** The choice as the specification words it: the candidates are the four
    cardinals minus the direct reverse, in the order up, down, left, right,
    and the first of least distance is committed. *)
Definition stated_candidates (g : Ghost.t) : list Dir :=
  filter (fun d => negb (dir_eqb d (neg_dir (Ghost.dir g))))
         [UP; DOWN; LEFT; RIGHT].

Definition stated_choice (g : Ghost.t) (col row : Z) : Dir :=
  match first_min (step_cost g col row) (stated_candidates g) with
  | Some d => d
  | None => Ghost.dir g
  end.

(** The leader heading up on the centre of its own scatter corner, the tile
    (25, 0) of the top row. *)
Definition corner_ghost : Ghost.t :=
  Ghost.with_pos (Ghost.init Blinky (13, 11) (25, 0))
                 (tile_center 25) (tile_center 0).

(** One round of "keep the strictly better candidate". *)
Definition pick (cost : Dir -> Z) (acc : Dir * option Z) (d : Dir)
  : Dir * option Z :=
  match snd acc with
  | None => (d, Some (cost d))
  | Some best => if cost d <? best then (d, Some (cost d)) else acc
  end.

(** ** Fields and stages of a tick *)

(** A field of the round that no write to an adversary touches. *)
Definition ghost_free {A : Type} (proj : Game.t -> A) : Prop :=
  forall g n gh, proj (Game.set_ghost g n gh) = proj g.

(** A field that the collision loop leaves alone: it writes adversaries,
    the score, the streak, the phase and the phase timer. *)
Definition collision_free {A : Type} (proj : Game.t -> A) : Prop :=
  ghost_free proj
  /\ (forall g v, proj (Game.with_score g v) = proj g)
  /\ (forall g v, proj (Game.with_ghost_eat_count g v) = proj g)
  /\ (forall g v, proj (Game.with_state g v) = proj g)
  /\ (forall g v, proj (Game.with_state_timer g v) = proj g).

(** A field that nothing before the collision loop writes. *)
Definition tick_free {A : Type} (proj : Game.t -> A) : Prop :=
  ghost_free proj
  /\ (forall g v, proj (Game.with_power_pellet_blink g v) = proj g)
  /\ (forall g v, proj (Game.with_waka_timer g v) = proj g)
  /\ (forall g v, proj (Game.with_pacman g v) = proj g)
  /\ (forall g v, proj (Game.with_maze g v) = proj g)
  /\ (forall g v, proj (Game.with_score g v) = proj g)
  /\ (forall g v, proj (Game.with_pellets_eaten g v) = proj g)
  /\ (forall g v, proj (Game.with_power_mode g v) = proj g)
  /\ (forall g v, proj (Game.with_power_timer g v) = proj g)
  /\ (forall g v, proj (Game.with_ghost_eat_count g v) = proj g)
  /\ (forall g v, proj (Game.with_ghost_release_timer g v) = proj g)
  /\ (forall g v, proj (Game.with_ghosts_released g v) = proj g).

(** A field that neither the power countdown nor the release rules write. *)
Definition schedule_free {A : Type} (proj : Game.t -> A) : Prop :=
  ghost_free proj
  /\ (forall g v, proj (Game.with_power_mode g v) = proj g)
  /\ (forall g v, proj (Game.with_power_timer g v) = proj g)
  /\ (forall g v, proj (Game.with_ghost_release_timer g v) = proj g)
  /\ (forall g v, proj (Game.with_ghosts_released g v) = proj g).

(** The player's rectangle of the collision loop. *)
Definition pac_rect (g : Game.t) : Rect :=
  body_rect (Pacman.x (Game.pacman g)) (Pacman.y (Game.pacman g)).

(** An adversary the collision loop does not skip and whose rectangle
    overlaps the player's. *)
Definition touching (g : Game.t) (n : Name) : bool :=
  negb (mode_eqb (Ghost.mode (Game.get_ghost g n)) Dead)
  && colliderect (pac_rect g)
       (body_rect (Ghost.x (Game.get_ghost g n)) (Ghost.y (Game.get_ghost g n))).

(** Touching and not frightened: the player dies. *)
Definition fatal (g : Game.t) (n : Name) : bool :=
  touching g n && negb (Ghost.frightened (Game.get_ghost g n)).

(** The pellet stage of a tick: the player moves, then eats. *)
Definition player_stage (g : Game.t) : result Game.t :=
  g1 <- Game.move_pacman (Game.animate g) ;; Game.eat_pellet g1.

(** The maze a level starts with: the layout with the start tile cleared. *)
Definition level_start_maze : Maze := Game.maze game0.

(** A playing state whose pellet counter already equals the total. *)
Definition full_game : Game.t :=
  Game.with_pellets_eaten playing0 Game.count_pellets.

(** The release rules of [update_game]: adversary, pellet threshold and
    seconds. *)
Definition release_schedule : list (Name * Z * Z) :=
  [(Pinky, 7, 4); (Inky, 17, 8); (Clyde, 32, 12)].

(** A tile of the grid that is neither wall nor gate. *)
Definition open_at (m : Maze) (col row : Z) : Prop :=
  in_bounds col row = true
  /\ exists c, maze_get m row col = Ok c /\ is_wall_or_gate c = false.

(** The player stands on such a tile. *)
Definition open_tile (m : Maze) (p : Pacman.t) : Prop :=
  open_at m (tile_of (Pacman.x p)) (tile_of (Pacman.y p)).

(** Occurrences of a character in a row, as an integer. *)
Definition occ (x : ascii) (r : list ascii) : Z :=
  Z.of_nat (count_occ ascii_dec r x).

(** The leader after 144 idle frames, and one frame later. *)
Definition before_wall : Game.t :=
  match idle_frames 144 game0 with
  | Ok g => g
  | Raise _ => game0
  end.

Definition in_wall : Game.t :=
  match Game.frame false no_keys rnd0 before_wall with
  | Ok g => g
  | Raise _ => before_wall
  end.

Definition cardinal_or_none (d : Dir) : Prop :=
  d = NODIR \/ d = UP \/ d = DOWN \/ d = LEFT \/ d = RIGHT.

(** What every frame keeps true of the player and the walls. *)
Definition player_inv (g : Game.t) : Prop :=
  walls (Game.maze g) = walls Game.initial_maze
  /\ Game.original_maze g = Game.initial_maze
  /\ Pacman.start_tile (Game.pacman g) = (13, 23)
  /\ cardinal_or_none (Pacman.dir (Game.pacman g))
  /\ cardinal_or_none (Pacman.next_dir (Game.pacman g))
  /\ open_tile (Game.maze g) (Game.pacman g).

(** What every frame keeps true of the pellet counters. *)
Definition pellet_inv (g : Game.t) : Prop :=
  Game.total_pellets g = Game.count_pellets
  /\ Game.original_maze g = Game.initial_maze
  /\ Game.pellets_eaten g + count_maze (Game.maze g) = Game.count_pellets - 1
  /\ Game.level g = 1.

(** No adversary is in chase mode and the streak is not negative: what a
    tick needs in order not to raise. *)
Definition sound_modes (g : Game.t) : Prop :=
  (forall n, Ghost.mode (Game.get_ghost g n) <> Chase)
  /\ 0 <= Game.ghost_eat_count g.

(** A playing state with the leader standing on the player. *)
Definition ambush_game : Game.t :=
  Game.with_blinky playing0
    (Ghost.with_pos (Game.blinky playing0)
       (Pacman.x (Game.pacman playing0)) (Pacman.y (Game.pacman playing0))).

Definition ambush_stage : Game.t :=
  match Game.before_collisions rnd0 ambush_game with
  | Ok g => g
  | Raise _ => ambush_game
  end.

(** [full_game] after one more tick. *)
Definition next_level_game : Game.t :=
  match Game.update rnd0 full_game with
  | Ok g => g
  | Raise _ => full_game
  end.

Definition full_stage : Game.t :=
  match Game.before_collisions rnd0 full_game with
  | Ok g => g
  | Raise _ => full_game
  end.

(** A field the pellet stage does not write. *)
Definition player_stage_free {A : Type} (proj : Game.t -> A) : Prop :=
  ghost_free proj
  /\ (forall g v, proj (Game.with_power_pellet_blink g v) = proj g)
  /\ (forall g v, proj (Game.with_waka_timer g v) = proj g)
  /\ (forall g v, proj (Game.with_pacman g v) = proj g)
  /\ (forall g v, proj (Game.with_maze g v) = proj g)
  /\ (forall g v, proj (Game.with_score g v) = proj g)
  /\ (forall g v, proj (Game.with_pellets_eaten g v) = proj g)
  /\ (forall g v, proj (Game.with_power_mode g v) = proj g)
  /\ (forall g v, proj (Game.with_power_timer g v) = proj g)
  /\ (forall g v, proj (Game.with_ghost_eat_count g v) = proj g).

(** The release condition of one rule, on the state the pellet stage left
    and the timer the tick has just advanced. *)
Definition release_due (thr secs : Z) (ge : Game.t) : bool :=
  (Game.pellets_eaten ge >=? thr)
  || (Game.ghost_release_timer ge + 1 >? secs * FPS).

(** The modes [Ghost.update] can move to from a mode, in one frame. *)
Definition next_modes (gh : Ghost.t) : list Mode :=
  match Ghost.mode gh with
  | Pen => [Pen]
  | Leaving => [Leaving; Scatter]
  | Scatter => [Scatter]
  | Chase => [Chase]
  | Dead => [Dead; Entering]
  | Entering => [Entering; if name_eqb (Ghost.name gh) Blinky then Scatter else Pen]
  end.

(** A playing state in which seven pellets have been eaten and no time has
    passed. *)
Definition seven_eaten : Game.t := Game.with_pellets_eaten playing0 7.


(** The frightened countdown at the head of [Ghost.update]. *)
Definition tick_fright (gh : Ghost.t) : Ghost.t :=
  if Ghost.frightened gh then
    let g1 := Ghost.with_frightened_timer gh (Ghost.frightened_timer gh - 1) in
    if Ghost.frightened_timer g1 <=? 0 then Ghost.unfrighten g1 else g1
  else gh.






(** ** Vocabulary of the further properties *)

(** A cell of the maze set beside the layout's cell: the same character, or
    a blank where the layout has a pellet. *)
Definition cell_ok (c0 c : ascii) : Prop :=
  c = c0 \/ (is_pellet c0 = true /\ c = " "%char).

(** A maze that is the layout with some pellets eaten. *)
Definition eaten_from (m0 m : Maze) : Prop := Forall2 (Forall2 cell_ok) m0 m.

(** What a frame needs in order not to raise: the player on an open tile of
    an intact maze, no adversary in chase mode, a streak that is not
    negative. *)
Definition safe (g : Game.t) : Prop := player_inv g /\ sound_modes g.

(** A playing state in which the second adversary sits in the pen although
    it is already in the released set, and the state one tick later. *)
Definition returned_game : Game.t := Game.with_ghosts_released playing0 [Pinky].

Definition returned_next : Game.t :=
  match Game.update_game rnd0 returned_game with
  | Ok g => g
  | Raise _ => returned_game
  end.

(** The state after the first frame of a session with no key held. *)
Definition frame_one : Game.t :=
  match Game.frame false no_keys rnd0 game0 with
  | Ok g => g
  | Raise _ => game0
  end.

(** The last frame of the dying phase on the last life, with 70 points, and
    the state after it. *)
Definition last_breath : Game.t :=
  Game.with_score
    (Game.with_lives (Game.with_state_timer (Game.with_state game0 DYING) 1) 1) 70.

Definition last_breath_next : Game.t :=
  match Game.frame false no_keys rnd0 last_breath with
  | Ok g => g
  | Raise _ => last_breath
  end.

(** The first state of the playing phase of a session that has not been
    touched: the initial state with the ready countdown run down. *)
Definition playing_start : Game.t :=
  Game.with_state (Game.with_state_timer game0 0) PLAYING.

(** A frightened adversary in step with the power countdown: power mode is
    on, the adversary's own countdown is [lead] ticks ahead of the global
    one, which has not run out, and the adversary is in scatter mode at the
    frightened speed. *)
Definition fright_ok (pm : bool) (pt lead : Z) (gh : Ghost.t) : Prop :=
  Ghost.frightened gh = true ->
  pm = true
  /\ Ghost.frightened_timer gh = pt + lead
  /\ 0 < pt
  /\ Ghost.mode gh = Scatter
  /\ Ghost.speed gh = 8.

Definition fright_inv (g : Game.t) : Prop :=
  forall n, fright_ok (Game.power_mode g) (Game.power_timer g) 0 (Game.get_ghost g n).

(** A session in which the player walks from its start tile to the power
    pellet at tile (1, 23): the ready phase, then left along row 23, up
    column 6, left along row 20 and down column 1, with one arrow key held
    at a time; and the state it ends in. *)
Definition hold (keys : Keys) (n : nat) : list (bool * Keys * (Name -> nat)) :=
  repeat (false, keys, rnd0) n.

Definition pellet_walk : list (bool * Keys * (Name -> nat)) :=
  hold no_keys 120
  ++ hold (mkKeys false false true false) 85
  ++ hold (mkKeys true false false false) 15
  ++ hold (mkKeys false false true false) 45
  ++ hold (mkKeys false true false false) 100.

Definition powered : Game.t :=
  match frames pellet_walk game0 with
  | Ok g => g
  | Raise _ => game0
  end.
(** * Properties *)

(** ** The result monad and Python indexing *)

Lemma bind_ok {A B : Type} (m : result A) (f : A -> result B) (b : B) :
  bind m f = Ok b -> exists a, m = Ok a /\ f a = Ok b.
Proof.
  destruct m as [a|e]; simpl; intro H; [exists a; auto | discriminate].
Qed.

Ltac inv_bind H :=
  let a := fresh "a" in
  let Ha := fresh "Ha" in
  apply bind_ok in H; destruct H as [a [Ha H]].

Lemma py_norm_lt (len i : Z) (n : nat) :
  py_norm len i = Some n -> (Z.of_nat n < len).
Proof.
  unfold py_norm.
  destruct ((0 <=? i) && (i <? len)) eqn:E1.
  - apply andb_true_iff in E1 as [H1 H2].
    apply Z.leb_le in H1. apply Z.ltb_lt in H2.
    intro H; injection H as <-. lia.
  - destruct ((- len <=? i) && (i <? 0)) eqn:E2; [|discriminate].
    apply andb_true_iff in E2 as [H1 H2].
    apply Z.leb_le in H1. apply Z.ltb_lt in H2.
    intro H; injection H as <-. lia.
Qed.

Lemma py_norm_in_range (len i : Z) :
  0 <= i < len -> py_norm len i = Some (Z.to_nat i).
Proof.
  intros [H1 H2]. unfold py_norm.
  apply Z.leb_le in H1. apply Z.ltb_lt in H2. now rewrite H1, H2.
Qed.

Lemma py_get_in_range {A : Type} (l : list A) (i : Z) :
  0 <= i < Z.of_nat (List.length l) -> exists a, py_get l i = Ok a.
Proof.
  intro H. unfold py_get. rewrite py_norm_in_range by exact H.
  destruct (nth_error l (Z.to_nat i)) eqn:E; [eauto|].
  apply nth_error_None in E. lia.
Qed.

Lemma py_get_nth {A : Type} (l : list A) (i : Z) (a : A) :
  py_get l i = Ok a ->
  exists n, py_norm (Z.of_nat (List.length l)) i = Some n /\ nth_error l n = Some a.
Proof.
  unfold py_get. destruct (py_norm _ i) as [n|]; [|discriminate].
  destruct (nth_error l n) eqn:E; [|discriminate].
  intro H; injection H as <-. eauto.
Qed.

Lemma replace_nth_length {A : Type} (l : list A) (n : nat) (v : A) :
  List.length (replace_nth l n v) = List.length l.
Proof.
  revert n; induction l as [|h t IH]; intros [|n]; simpl; auto.
Qed.

Lemma replace_nth_same {A : Type} (l : list A) (n : nat) (v : A) :
  nth_error l n = Some v -> replace_nth l n v = l.
Proof.
  revert n; induction l as [|h t IH]; intros [|n]; simpl; try discriminate.
  - now intros [= ->].
  - intro H. now rewrite IH.
Qed.

Lemma replace_nth_map {A B : Type} (f : A -> B) (l : list A) (n : nat) (v : A) :
  map f (replace_nth l n v) = replace_nth (map f l) n (f v).
Proof.
  revert n; induction l as [|h t IH]; intros [|n]; simpl; auto.
  now rewrite IH.
Qed.

Lemma nth_error_map_some {A B : Type} (f : A -> B) (l : list A) (n : nat) (a : A) :
  nth_error l n = Some a -> nth_error (map f l) n = Some (f a).
Proof.
  revert n; induction l as [|h t IH]; intros [|n]; simpl; try discriminate; auto.
  now intros [= ->].
Qed.

(** Writing a cell that could be read always succeeds. *)
Lemma maze_set_total (m : Maze) (row col : Z) (c v : ascii) :
  maze_get m row col = Ok c -> exists m', maze_set m row col v = Ok m'.
Proof.
  unfold maze_get, maze_set. intro H. inv_bind H. rewrite Ha. simpl.
  apply py_get_nth in Ha as [n [Hn _]].
  apply py_get_nth in H as [k [Hk _]].
  unfold py_set. rewrite Hk. simpl. rewrite Hn. eauto.
Qed.

Lemma maze_get_walls (m : Maze) (row col : Z) (c : ascii) :
  maze_get m row col = Ok c ->
  maze_get m row col = Ok c /\
  (r <- py_get (walls m) row ;; py_get r col) = Ok (is_wall_or_gate c).
Proof.
  intro H. split; [exact H|].
  unfold maze_get in H. inv_bind H.
  apply py_get_nth in Ha as [n [Hn Hr]].
  apply py_get_nth in H as [k [Hk Hc]].
  unfold walls, py_get. rewrite length_map, Hn.
  rewrite (nth_error_map_some _ _ _ _ Hr). simpl.
  rewrite length_map, Hk.
  now rewrite (nth_error_map_some _ _ _ _ Hc).
Qed.

Lemma walls_get (m1 m2 : Maze) (row col : Z) (c1 : ascii) :
  walls m1 = walls m2 ->
  maze_get m1 row col = Ok c1 ->
  exists c2, maze_get m2 row col = Ok c2 /\ is_wall_or_gate c2 = is_wall_or_gate c1.
Proof.
  intros Hw H. apply maze_get_walls in H as [_ H]. rewrite Hw in H.
  inv_bind H.
  apply py_get_nth in Ha as [n [Hn Hr]].
  apply py_get_nth in H as [k [Hk Hc]].
  unfold walls in Hn, Hr. rewrite length_map in Hn.
  rewrite nth_error_map in Hr.
  destruct (nth_error m2 n) as [r2|] eqn:E2; [|discriminate].
  simpl in Hr. injection Hr as <-.
  rewrite length_map in Hk. rewrite nth_error_map in Hc.
  destruct (nth_error r2 k) as [c2|] eqn:E3; [|discriminate].
  simpl in Hc. injection Hc as Hc.
  exists c2. split; [|exact Hc].
  unfold maze_get, py_get. rewrite Hn, E2. simpl. now rewrite Hk, E3.
Qed.

(** Clearing a cell that is not a wall leaves the walls as they were. *)
Lemma maze_set_walls (m m' : Maze) (row col : Z) (c : ascii) :
  maze_get m row col = Ok c ->
  is_wall_or_gate c = false ->
  maze_set m row col " "%char = Ok m' ->
  walls m' = walls m.
Proof.
  unfold maze_get, maze_set. intros Hg Hc Hs.
  inv_bind Hg. rewrite Ha in Hs. simpl in Hs.
  apply py_get_nth in Ha as [n [Hn Hr]].
  apply py_get_nth in Hg as [k [Hk Hcell]].
  unfold py_set in Hs. rewrite Hk in Hs. simpl in Hs. rewrite Hn in Hs.
  injection Hs as <-.
  unfold walls. rewrite replace_nth_map. apply replace_nth_same.
  rewrite replace_nth_map.
  replace (is_wall_or_gate " ") with (is_wall_or_gate c) by (now rewrite Hc).
  rewrite replace_nth_same.
  - now apply nth_error_map_some.
  - now apply nth_error_map_some.
Qed.

Lemma init_ok : Game.init = Ok game0.
Proof. reflexivity. Qed.

(** ** Writing and reading the four adversaries *)

Lemma get_set_ghost (g : Game.t) (n m : Name) (gh : Ghost.t) :
  Game.get_ghost (Game.set_ghost g n gh) m
  = if name_eqb n m then gh else Game.get_ghost g m.
Proof. destruct n, m; reflexivity. Qed.

Lemma set_ghost_same (g : Game.t) (n : Name) :
  Game.set_ghost g n (Game.get_ghost g n) = g.
Proof. destruct g, n; reflexivity. Qed.

Ltac ghost_free := intros ? [] ?; reflexivity.

Lemma fold_ghost_free {A : Type} (proj : Game.t -> A)
    (f : Game.t -> Name -> Game.t) :
  (forall g n, proj (f g n) = proj g) ->
  forall names g, proj (fold_left f names g) = proj g.
Proof.
  intros Hf names; induction names as [|n rest IH]; intro g; simpl; auto.
  rewrite IH. apply Hf.
Qed.

(** ** Frightening (C7) *)

Lemma frighten_inert (gh : Ghost.t) :
  Ghost.mode gh = Dead \/ Ghost.mode gh = Entering ->
  Ghost.frighten gh = gh.
Proof. unfold Ghost.frighten. intros [-> | ->]; reflexivity. Qed.

Lemma frighten_ghosts_get (g : Game.t) (n : Name) :
  Game.get_ghost (Game.frighten_ghosts g) n = Ghost.frighten (Game.get_ghost g n).
Proof.
  unfold Game.frighten_ghosts.
  set (f := fun (g : Game.t) (m : Name) =>
              Game.set_ghost g m (Ghost.frighten (Game.get_ghost g m))).
  assert (Hstep : forall l g0,
    fold_left
      (fun g m =>
         let gh := Game.get_ghost g m in
         if negb (mode_eqb (Ghost.mode gh) Dead)
            && negb (mode_eqb (Ghost.mode gh) Entering)
         then Game.set_ghost g m (Ghost.frighten gh) else g) l g0
    = fold_left f l g0).
  { induction l as [|m l IH]; intro g0; simpl; [reflexivity|].
    rewrite IH. f_equal. unfold f.
    destruct (Ghost.mode (Game.get_ghost g0 m)) eqn:E; simpl; try reflexivity.
    - rewrite frighten_inert by auto. now rewrite set_ghost_same.
    - rewrite frighten_inert by auto. now rewrite set_ghost_same. }
  rewrite Hstep. unfold f, Game.ghosts. destruct n; reflexivity.
Qed.

Lemma frighten_ghosts_free {A : Type} (proj : Game.t -> A) :
  ghost_free proj -> forall g, proj (Game.frighten_ghosts g) = proj g.
Proof.
  intros Hp g. unfold Game.frighten_ghosts. apply fold_ghost_free.
  intros g0 n. simpl.
  destruct (negb _ && negb _); [apply Hp | reflexivity].
Qed.

Lemma update_power_timer (g : Game.t) :
  Game.power_mode g = true ->
  Game.power_timer (Game.update_power g) = Game.power_timer g - 1.
Proof.
  intro H. unfold Game.update_power. rewrite H.
  destruct (Game.power_timer (Game.with_power_timer g (Game.power_timer g - 1)) <=? 0).
  - rewrite (fold_ghost_free Game.power_timer); [reflexivity|].
    intros g0 n. cbv beta zeta.
    destruct (Ghost.frightened (Game.get_ghost g0 n)); [|reflexivity].
    destruct n; reflexivity.
  - reflexivity.
Qed.

(** Eating a power pellet succeeds and puts the streak back to 0. *)
Lemma eat_power_pellet_streak (g : Game.t) (col row : Z) :
  Pacman.get_tile (Game.pacman g) = (col, row) ->
  maze_get (Game.maze g) row col = Ok "o"%char ->
  exists g', Game.eat_pellet g = Ok g' /\ Game.ghost_eat_count g' = 0.
Proof.
  intros Htile Hcell.
  destruct (maze_set_total _ _ _ _ " "%char Hcell) as [m' Hm'].
  unfold Game.eat_pellet. rewrite Htile, Hcell. simpl. rewrite Hm'. simpl.
  eexists. split; [reflexivity|].
  now rewrite (frighten_ghosts_free Game.ghost_eat_count) by ghost_free.
Qed.

(** C7.  A power pellet under the player restarts the frightened countdown:
    whatever the global power countdown and the adversaries' own countdowns
    were before (in particular when they were already running), eating the
    pellet sets the power countdown to its full value POWER_PELLET_TIME and
    the ghost-eat streak to 0; every adversary in scatter or chase mode is
    frightened with its own countdown at the full value, its direction
    reversed and its speed lowered, and an adversary in dead, entering, pen
    or leaving mode is left exactly as it was.  (The countdown step that
    follows in the same tick then counts this tick off.) *)
Theorem power_pellet_restarts_countdown
    (g : Game.t) (col row : Z)
    (Htile : Pacman.get_tile (Game.pacman g) = (col, row))
    (Hcell : maze_get (Game.maze g) row col = Ok "o"%char) :
  exists g',
    Game.eat_pellet g = Ok g'
    /\ Game.power_mode g' = true
    /\ Game.power_timer g' = POWER_PELLET_TIME
    /\ Game.ghost_eat_count g' = 0
    /\ Game.power_timer (Game.update_power g') = POWER_PELLET_TIME - 1
    /\ forall n,
         let gh := Game.get_ghost g n in
         let gh' := Game.get_ghost g' n in
         match Ghost.mode gh with
         | Dead | Entering | Pen | Leaving => gh' = gh
         | Scatter | Chase =>
             Ghost.frightened gh' = true
             /\ Ghost.frightened_timer gh' = POWER_PELLET_TIME
             /\ Ghost.dir gh' = neg_dir (Ghost.dir gh)
             /\ Ghost.speed gh' = 8
             /\ Ghost.mode gh' = Ghost.mode gh
         end.
Proof.
  destruct (maze_set_total _ _ _ _ " "%char Hcell) as [m' Hm'].
  unfold Game.eat_pellet. rewrite Htile, Hcell. simpl. rewrite Hm'. simpl.
  eexists. split; [reflexivity|].
  repeat split.
  - now rewrite (frighten_ghosts_free Game.power_mode) by ghost_free.
  - now rewrite (frighten_ghosts_free Game.power_timer) by ghost_free.
  - now rewrite (frighten_ghosts_free Game.ghost_eat_count) by ghost_free.
  - rewrite update_power_timer
      by (now rewrite (frighten_ghosts_free Game.power_mode) by ghost_free).
    now rewrite (frighten_ghosts_free Game.power_timer) by ghost_free.
  - intro n. simpl. rewrite frighten_ghosts_get.
    destruct n; simpl;
      match goal with |- context [Ghost.mode ?x] =>
        unfold Ghost.frighten; destruct (Ghost.mode x) eqn:E end;
      simpl; auto.
Qed.

Lemma power_pellet_restarts_countdown_witness :
  let g := Game.with_power_timer
             (Game.with_pacman game0 (Pacman.with_pos (Game.pacman game0) 300 700))
             123 in
  exists g', Game.eat_pellet g = Ok g' /\ Game.power_timer g' = POWER_PELLET_TIME.
Proof.
  intro g.
  destruct (power_pellet_restarts_countdown g 1 3) as [g' [H1 [_ [H2 _]]]].
  - reflexivity.
  - reflexivity.
  - exists g'. auto.
Defined.

(** ** Ghost-eat scoring (C8) *)

Lemma score_gain_table :
  map Game.score_gain [0; 1; 2; 3; 4]
  = [Ok 200; Ok 400; Ok 800; Ok 1600; Ok 1600].
Proof. reflexivity. Qed.


Lemma eat_ghost_spec (g : Game.t) (n : Name) (gain : Z) :
  Game.score_gain (Game.ghost_eat_count g) = Ok gain ->
  exists g',
    Game.eat_ghost g n = Ok g'
    /\ Game.score g' = Game.score g + gain
    /\ Game.ghost_eat_count g' = Game.ghost_eat_count g + 1
    /\ Game.get_ghost g' n = Ghost.die (Game.get_ghost g n).
Proof.
  intro H. unfold Game.eat_ghost.
  replace (Game.ghost_eat_count (Game.set_ghost g n _))
    with (Game.ghost_eat_count g) by (destruct n; reflexivity).
  rewrite H. simpl. eexists. split; [reflexivity|].
  destruct n; simpl; auto.
Qed.




(** ** Tunnel wraparound (C5) *)

Lemma tile_of_negative (x : Z) : x < 0 -> tile_of x < 0.
Proof.
  intro H. unfold tile_of, TILE_SIZE, SUB.
  apply Z.div_lt_upper_bound; lia.
Qed.

Lemma tile_of_beyond (x : Z) : SCREEN_WIDTH * SUB <= x -> MAZE_COLS <= tile_of x.
Proof.
  unfold tile_of, SCREEN_WIDTH, TILE_SIZE, MAZE_COLS, SUB. intro H.
  apply Z.div_le_lower_bound; lia.
Qed.

Lemma in_bounds_outside (x row : Z) :
  x < 0 \/ SCREEN_WIDTH * SUB <= x -> in_bounds (tile_of x) row = false.
Proof.
  intros [H | H]; unfold in_bounds.
  - apply tile_of_negative in H.
    destruct (0 <=? tile_of x) eqn:E; [apply Z.leb_le in E; lia | reflexivity].
  - apply tile_of_beyond in H.
    destruct (tile_of x <? MAZE_COLS) eqn:E; [apply Z.ltb_lt in E; lia|].
    now rewrite andb_false_r.
Qed.

Lemma tunnel_wrap_right (x keep : Z) :
  SCREEN_WIDTH * SUB <= x -> tunnel_wrap 14 x keep = tile_center 0.
Proof.
  intro H. unfold tunnel_wrap. simpl (14 =? 14).
  destruct (x <? 0) eqn:E1.
  - apply Z.ltb_lt in E1. unfold SCREEN_WIDTH, TILE_SIZE, MAZE_COLS, SUB in H. lia.
  - destruct (x >=? SCREEN_WIDTH * SUB) eqn:E2; [reflexivity|].
    rewrite Z.geb_leb in E2. apply Z.leb_gt in E2. lia.
Qed.

Lemma tunnel_wrap_left (x keep : Z) :
  x < 0 -> tunnel_wrap 14 x keep = tile_center (MAZE_COLS - 1).
Proof.
  intro H. unfold tunnel_wrap. simpl (14 =? 14).
  apply Z.ltb_lt in H. now rewrite H.
Qed.

Lemma tunnel_wrap_inside (row x : Z) :
  0 <= x < SCREEN_WIDTH * SUB -> tunnel_wrap row x x = x.
Proof.
  intros [H1 H2]. unfold tunnel_wrap.
  destruct (row =? 14); [|reflexivity].
  destruct (x <? 0) eqn:E1; [apply Z.ltb_lt in E1; lia|].
  destruct (x >=? SCREEN_WIDTH * SUB) eqn:E2; [|reflexivity].
  rewrite Z.geb_leb in E2. apply Z.leb_le in E2. lia.
Qed.

Lemma tunnel_wrap_range (x : Z) :
  0 <= tunnel_wrap 14 x x < SCREEN_WIDTH * SUB.
Proof.
  unfold tunnel_wrap. simpl (14 =? 14).
  destruct (x <? 0) eqn:E1; [vm_compute; split; [discriminate | reflexivity]|].
  destruct (x >=? SCREEN_WIDTH * SUB) eqn:E2;
    [vm_compute; split; [discriminate | reflexivity]|].
  apply Z.ltb_ge in E1. rewrite Z.geb_leb in E2. apply Z.leb_gt in E2. lia.
Qed.

Lemma tunnel_wrap_idempotent (row x : Z) :
  tunnel_wrap row (tunnel_wrap row x x) (tunnel_wrap row x x) = tunnel_wrap row x x.
Proof.
  destruct (row =? 14) eqn:E.
  - apply Z.eqb_eq in E. subst row.
    apply tunnel_wrap_inside, tunnel_wrap_range.
  - unfold tunnel_wrap. now rewrite E.
Qed.

(** The player's step on the tunnel row, for every maze. *)
Lemma pacman_step_wraps (maze : Maze) (p : Pacman.t) :
  dir_eqb (Pacman.dir p) NODIR = false ->
  tile_of (Pacman.y p + snd (Pacman.dir p) * Pacman.speed p) = 14 ->
  let next_x := Pacman.x p + fst (Pacman.dir p) * Pacman.speed p in
  next_x < 0 \/ SCREEN_WIDTH * SUB <= next_x ->
  Pacman.step maze p = Ok (Pacman.with_x p (tunnel_wrap 14 next_x (Pacman.x p))).
Proof.
  intros Hd Hrow next_x Hout. unfold Pacman.step.
  rewrite Hd. simpl negb. cbv iota. fold next_x. rewrite Hrow.
  rewrite (in_bounds_outside next_x 14 Hout). reflexivity.
Qed.

(** C5.  On the tunnel row (row 14) a horizontal position at or beyond the
    right bound wraps to the centre of the leftmost tile and a position left
    of the left bound wraps to the centre of the rightmost tile: the two
    landing points lie at the same offset (half a tile) inside the bound they
    enter through, mirror images of each other.  Both movers apply this rule
    without consulting the maze: the adversary in [move_in_direction], the
    player in [step] for every maze, whatever its walls.  A position inside
    the bounds is left as it is, and wrapping twice is wrapping once. *)
Theorem tunnel_wrap_symmetric_idempotent
    (xl xr x row : Z) (maze : Maze) (p : Pacman.t) (gh : Ghost.t)
    (Hl : xl < 0) (Hr : SCREEN_WIDTH * SUB <= xr)
    (Hin : 0 <= x < SCREEN_WIDTH * SUB) :
  tunnel_wrap 14 xr xr = tile_center 0
  /\ tunnel_wrap 14 xl xl = tile_center (MAZE_COLS - 1)
  /\ tunnel_wrap 14 xr xr - 0 = SCREEN_WIDTH * SUB - tunnel_wrap 14 xl xl
  /\ tunnel_wrap row x x = x
  /\ (forall r z, tunnel_wrap r (tunnel_wrap r z z) (tunnel_wrap r z z)
                  = tunnel_wrap r z z)
  /\ (let ny := Ghost.y gh + snd (Ghost.dir gh) * Ghost.speed gh in
      let nx := Ghost.x gh + fst (Ghost.dir gh) * Ghost.speed gh in
      Ghost.x (Ghost.move_in_direction gh) = tunnel_wrap (tile_of ny) nx nx
      /\ Ghost.y (Ghost.move_in_direction gh) = ny)
  /\ (dir_eqb (Pacman.dir p) NODIR = false ->
      tile_of (Pacman.y p + snd (Pacman.dir p) * Pacman.speed p) = 14 ->
      (Pacman.x p + fst (Pacman.dir p) * Pacman.speed p = xr ->
       Pacman.step maze p = Ok (Pacman.with_x p (tile_center 0)))
      /\ (Pacman.x p + fst (Pacman.dir p) * Pacman.speed p = xl ->
          Pacman.step maze p = Ok (Pacman.with_x p (tile_center (MAZE_COLS - 1))))).
Proof.
  repeat split.
  - now apply tunnel_wrap_right.
  - now apply tunnel_wrap_left.
  - rewrite tunnel_wrap_right, tunnel_wrap_left by assumption. reflexivity.
  - now apply tunnel_wrap_inside.
  - intros; apply tunnel_wrap_idempotent.
  - intro Hx. rewrite (pacman_step_wraps maze p H H0) by (right; lia).
    rewrite Hx. now rewrite tunnel_wrap_right.
  - intro Hx. rewrite (pacman_step_wraps maze p H H0) by (left; lia).
    rewrite Hx. now rewrite tunnel_wrap_left.
Qed.

Lemma tunnel_wrap_symmetric_idempotent_witness :
  tunnel_wrap 14 5608 5608 = 100
  /\ tunnel_wrap 14 (-8) (-8) = 5500
  /\ tunnel_wrap 14 2700 2700 = 2700
  /\ Pacman.step []
       (Pacman.mk (13, 23) 5595 2900 RIGHT NODIR 15)
     = Ok (Pacman.mk (13, 23) 100 2900 RIGHT NODIR 15).
Proof.
  pose proof (tunnel_wrap_symmetric_idempotent (-8) 5610 2700 14 []
                (Pacman.mk (13, 23) 5595 2900 RIGHT NODIR 15)
                (Ghost.init Blinky (13, 11) (25, 0))
                ltac:(lia) ltac:(vm_compute; discriminate)
                ltac:(vm_compute; split; [discriminate | reflexivity])) as H.
  destruct H as (_ & _ & _ & H3 & _ & _ & H6).
  split; [reflexivity|]. split; [reflexivity|]. split; [exact H3|].
  destruct (H6 eq_refl eq_refl) as [Hright _]. exact (Hright eq_refl).
Defined.

(** ** Shy targeting (C2) *)

(** C2.  The chase branch of [update_target] for "clyde" does not compute a
    distance at all: for every player, every leader and every state of the
    shy adversary outside scatter mode it raises TypeError, and so does the
    whole [Ghost.update] of a shy adversary in chase mode that is not
    frightened. *)
Theorem clyde_chase_target_raises
    (pac : Pacman.t) (blinky gh : Ghost.t) (rnd : nat)
    (Hname : Ghost.name gh = Clyde)
    (Hmode : Ghost.mode gh = Chase) :
  Ghost.update_target pac blinky gh = Raise TypeError
  /\ (Ghost.frightened gh = false ->
      Ghost.update pac blinky rnd gh = Raise TypeError).
Proof.
  assert (Ht : forall g0, Ghost.name g0 = Clyde -> Ghost.mode g0 = Chase ->
                          Ghost.update_target pac blinky g0 = Raise TypeError).
  { intros g0 Hn Hm. unfold Ghost.update_target.
    destruct (Pacman.get_tile pac). now rewrite Hm, Hn. }
  split; [now apply Ht|].
  intro Hf. unfold Ghost.update.
  destruct (Ghost.get_tile gh). rewrite Hf, Hmode, Hf.
  now rewrite Ht.
Qed.

Lemma clyde_chase_target_raises_witness :
  Ghost.update_target (Pacman.init (13, 23)) (Ghost.init Blinky (13, 11) (25, 0))
    (Ghost.with_mode (Ghost.init Clyde (15, 14) (0, 29)) Chase)
  = Raise TypeError.
Proof.
  exact (proj1 (clyde_chase_target_raises
                  (Pacman.init (13, 23)) (Ghost.init Blinky (13, 11) (25, 0))
                  (Ghost.with_mode (Ghost.init Clyde (15, 14) (0, 29)) Chase)
                  O eq_refl eq_refl)).
Defined.

(** ** Seek-target (C9) *)

Lemma dir_eqb_eq (a b : Dir) : dir_eqb a b = true <-> a = b.
Proof.
  destruct a as [a1 a2], b as [b1 b2]. unfold dir_eqb. simpl.
  rewrite andb_true_iff, !Z.eqb_eq. split.
  - intros [-> ->]. reflexivity.
  - intros [= -> ->]. auto.
Qed.

Lemma consider_is_pick (g : Ghost.t) (col row : Z) (l : list Dir)
    (acc : Dir * option Z) :
  fold_left (Ghost.consider g col row) l acc
  = fold_left (pick (step_cost g col row)) (filter (legal g col row) l) acc.
Proof.
  revert acc. induction l as [|d l IH]; intro acc; simpl; [reflexivity|].
  rewrite IH. unfold legal at 2, Ghost.consider at 1.
  destruct (dir_eqb d (neg_dir (Ghost.dir g))); simpl; [reflexivity|].
  destruct (in_bounds (col + fst d) (row + snd d)); simpl; reflexivity.
Qed.

Lemma pick_some (cost : Dir -> Z) (d0 a : Dir) :
  pick cost (d0, Some (cost d0)) a
  = if cost a <? cost d0 then (a, Some (cost a)) else (d0, Some (cost d0)).
Proof. reflexivity. Qed.

Lemma pick_fold (cost : Dir -> Z) (l : list Dir) (d0 : Dir) :
  let r := fst (fold_left (pick cost) l (d0, Some (cost d0))) in
  (forall d, In d l -> cost r <= cost d)
  /\ cost r <= cost d0
  /\ ((r = d0 /\ forall d, In d l -> cost d0 <= cost d)
      \/ exists l1 l2,
           l = l1 ++ r :: l2 /\ cost r < cost d0
           /\ forall d, In d l1 -> cost r < cost d).
Proof.
  revert d0. induction l as [|a l IH]; intro d0; simpl.
  - split; [intros d []|]. split; [lia|]. left. split; [reflexivity|intros d []].
  - rewrite pick_some.
    destruct (cost a <? cost d0) eqn:E.
    + apply Z.ltb_lt in E.
      destruct (IH a) as [Hmin [Hle Hfirst]].
      set (r := fst (fold_left (pick cost) l (a, Some (cost a)))) in *.
      split; [|split].
      * intros d [<- | Hd]; [exact Hle | now apply Hmin].
      * lia.
      * right. destruct Hfirst as [[Hr Hall] | [l1 [l2 [Hl [Hlt Hpre]]]]].
        -- exists [], l. rewrite Hr. simpl. repeat split; auto.
           intros d [].
        -- exists (a :: l1), l2. rewrite Hl. simpl. repeat split; [lia|].
           intros d [<- | Hd]; [exact Hlt | now apply Hpre].
    + apply Z.ltb_ge in E.
      destruct (IH d0) as [Hmin [Hle Hfirst]].
      set (r := fst (fold_left (pick cost) l (d0, Some (cost d0)))) in *.
      split; [|split].
      * intros d [<- | Hd]; [lia | now apply Hmin].
      * exact Hle.
      * destruct Hfirst as [[Hr Hall] | [l1 [l2 [Hl [Hlt Hpre]]]]].
        -- left. split; [exact Hr|].
           intros d [<- | Hd]; [exact E | now apply Hall].
        -- right. exists (a :: l1), l2. rewrite Hl. simpl.
           repeat split; [exact Hlt|].
           intros d [<- | Hd]; [lia | now apply Hpre].
Qed.

(** The committed direction is the first candidate of least cost. *)
Lemma choose_dir_first_min (g : Ghost.t) (col row : Z) :
  let chosen := Ghost.choose_dir g col row in
  let cost := step_cost g col row in
  (candidates g col row = [] -> chosen = Ghost.dir g)
  /\ (candidates g col row <> [] ->
      exists l1 l2,
        candidates g col row = l1 ++ chosen :: l2
        /\ (forall d, In d l1 -> cost chosen < cost d)
        /\ (forall d, In d (candidates g col row) -> cost chosen <= cost d)).
Proof.
  unfold Ghost.choose_dir. rewrite consider_is_pick.
  fold (candidates g col row).
  destruct (candidates g col row) as [|c rest] eqn:Hc; simpl.
  - split; [reflexivity | congruence].
  - split; [discriminate|]. intros _.
    change (pick (step_cost g col row) (Ghost.dir g, None) c)
      with (c, Some (step_cost g col row c)).
    destruct (pick_fold (step_cost g col row) rest c) as [Hmin [Hle Hfirst]].
    set (r := fst (fold_left (pick (step_cost g col row)) rest
                     (c, Some (step_cost g col row c)))) in *.
    destruct Hfirst as [[Hr Hall] | [l1 [l2 [Hl [Hlt Hpre]]]]].
    + exists [], rest. rewrite Hr. simpl. repeat split.
      * intros d [].
      * intros d [<- | Hd]; [lia | now apply Hall].
    + exists (c :: l1), l2. rewrite Hl. simpl. repeat split.
      * intros d [<- | Hd]; [exact Hlt | now apply Hpre].
      * intros d [<- | Hd]; [exact Hle|]. apply Hmin. now rewrite Hl.
Qed.

Lemma candidates_legal (g : Ghost.t) (col row : Z) (d : Dir) :
  In d (candidates g col row) ->
  In d [UP; DOWN; LEFT; RIGHT]
  /\ d <> neg_dir (Ghost.dir g)
  /\ in_bounds (col + fst d) (row + snd d) = true.
Proof.
  unfold candidates. rewrite filter_In. intros [Hin Hl].
  unfold legal in Hl. apply andb_true_iff in Hl as [H1 H2].
  repeat split; auto.
  intro Heq. apply dir_eqb_eq in Heq. rewrite Heq in H1. discriminate.
Qed.

(** C9, as the source has it.  At a centred tile [seek_target] commits
    [choose_dir]; off centre it keeps its direction.  The candidates are the
    cardinals, in the order up, down, left, right, that are not the direct
    reverse of the current direction AND whose tile one step ahead lies
    inside the grid.  The committed direction is a candidate of least
    (squared) Euclidean distance from its one-step-ahead tile to the target,
    and every candidate evaluated before it is strictly farther, so ties go
    to the earlier direction.  With no candidate the current direction is
    kept.  A moving adversary's committed direction is never the reverse of
    its current one. *)
Theorem seek_target_commits_first_closest
    (g : Ghost.t) (col row : Z)
    (Htile : Ghost.get_tile g = (col, row)) :
  let chosen := Ghost.choose_dir g col row in
  let cost := step_cost g col row in
  (centered (Ghost.x g) (Ghost.y g) col row = true ->
   Ghost.dir (Ghost.seek_target g) = chosen)
  /\ (centered (Ghost.x g) (Ghost.y g) col row = false ->
      Ghost.dir (Ghost.seek_target g) = Ghost.dir g)
  /\ (forall d, In d (candidates g col row) <->
                In d [UP; DOWN; LEFT; RIGHT]
                /\ d <> neg_dir (Ghost.dir g)
                /\ in_bounds (col + fst d) (row + snd d) = true)
  /\ (candidates g col row = [] -> chosen = Ghost.dir g)
  /\ (candidates g col row <> [] ->
      exists l1 l2,
        candidates g col row = l1 ++ chosen :: l2
        /\ (forall d, In d l1 -> cost chosen < cost d)
        /\ (forall d, In d (candidates g col row) -> cost chosen <= cost d))
  /\ (Ghost.dir g <> NODIR -> chosen <> neg_dir (Ghost.dir g)).
Proof.
  intros chosen cost.
  destruct (choose_dir_first_min g col row) as [Hnone Hsome].
  split; [|split; [|split; [|split; [|split]]]].
  - intro Hc. unfold Ghost.seek_target. rewrite Htile, Hc. reflexivity.
  - intro Hc. unfold Ghost.seek_target. rewrite Htile, Hc. reflexivity.
  - intro d. split; [apply candidates_legal|].
    intros [Hin [Hrev Hb]]. unfold candidates. apply filter_In.
    split; [exact Hin|]. unfold legal. rewrite Hb, andb_true_r.
    destruct (dir_eqb d (neg_dir (Ghost.dir g))) eqn:E; [|reflexivity].
    apply dir_eqb_eq in E. contradiction.
  - exact Hnone.
  - exact Hsome.
  - intro Hmoving.
    destruct (candidates g col row) as [|c rest] eqn:Hc.
    + unfold chosen. rewrite (Hnone eq_refl).
      destruct (Ghost.dir g) as [a b]. unfold neg_dir, NODIR in *. simpl.
      intros [= Ha Hb]. apply Hmoving. f_equal; lia.
    + destruct Hsome as [l1 [l2 [Hl _]]]; [discriminate|].
      assert (Hin : In chosen (candidates g col row)).
      { rewrite Hc, Hl. apply in_or_app. right. now left. }
      now apply candidates_legal in Hin as [_ [Hrev _]].
Qed.

Lemma seek_target_commits_first_closest_witness :
  Ghost.dir (Ghost.seek_target (Ghost.init Blinky (13, 11) (25, 0))) = RIGHT.
Proof.
  destruct (seek_target_commits_first_closest
              (Ghost.init Blinky (13, 11) (25, 0)) 13 11 eq_refl)
    as [Hc _].
  rewrite (Hc eq_refl). reflexivity.
Defined.

(** C9 as stated fails on the top row: heading up on the centre of tile
    (25, 0) with that tile as target, up, left and right are all at distance
    1 and up comes first in the order, but the source skips up because the
    tile above lies outside the grid, and commits left. *)
Lemma seek_target_skips_candidate_outside_grid :
  Ghost.get_tile corner_ghost = (25, 0)
  /\ centered (Ghost.x corner_ghost) (Ghost.y corner_ghost) 25 0 = true
  /\ stated_candidates corner_ghost = [UP; LEFT; RIGHT]
  /\ map (step_cost corner_ghost 25 0) [UP; LEFT; RIGHT] = [1; 1; 1]
  /\ stated_choice corner_ghost 25 0 = UP
  /\ Ghost.dir (Ghost.seek_target corner_ghost) = LEFT
  /\ Ghost.dir (Ghost.seek_target corner_ghost) <> stated_choice corner_ghost 25 0.
Proof.
  repeat split; try reflexivity. discriminate.
Qed.

(** ** What the stages of a tick leave alone *)

Ltac collision_free :=
  repeat split; try (intros ? [] ?; reflexivity); intros; reflexivity.

Ltac tick_free :=
  repeat split; try (intros ? [] ?; reflexivity); intros; reflexivity.

Lemma update_ghosts_free {A : Type} (proj : Game.t -> A) (rnd : Name -> nat) :
  ghost_free proj ->
  forall names g g',
    Game.update_ghosts rnd names g = Ok g' -> proj g' = proj g.
Proof.
  intros Hp names. induction names as [|n rest IH]; intros g g' H; simpl in H.
  - now injection H as <-.
  - inv_bind H. rewrite (IH _ _ H). apply Hp.
Qed.

Lemma eat_ghost_free {A : Type} (proj : Game.t -> A) (g g' : Game.t) (n : Name) :
  collision_free proj -> Game.eat_ghost g n = Ok g' -> proj g' = proj g.
Proof.
  intros (Hg & Hs & Hc & _) H. unfold Game.eat_ghost in H.
  inv_bind H. injection H as <-. now rewrite Hc, Hs, Hg.
Qed.

Lemma check_collisions_free {A : Type} (proj : Game.t -> A) (rect : Rect) :
  collision_free proj ->
  forall names g r,
    Game.check_collisions rect names g = Ok r -> proj (fst r) = proj g.
Proof.
  intros Hp names. induction names as [|n rest IH]; intros g r H; simpl in H.
  - now injection H as <-.
  - destruct (mode_eqb (Ghost.mode (Game.get_ghost g n)) Dead); [now apply IH|].
    destruct (colliderect rect _); [|now apply IH].
    destruct (Ghost.frightened (Game.get_ghost g n)).
    + inv_bind H. rewrite (IH _ _ H). now apply (eat_ghost_free proj g a n).
    + injection H as <-. simpl. unfold Game.pacman_dies.
      destruct Hp as (_ & _ & _ & Hst & Htm). now rewrite Htm, Hst.
Qed.

Lemma eat_pellet_keeps {A : Type} (proj : Game.t -> A) (g g' : Game.t) :
  ghost_free proj ->
  (forall g0 v, proj (Game.with_maze g0 v) = proj g0) ->
  (forall g0 v, proj (Game.with_score g0 v) = proj g0) ->
  (forall g0 v, proj (Game.with_pellets_eaten g0 v) = proj g0) ->
  (forall g0 v, proj (Game.with_power_mode g0 v) = proj g0) ->
  (forall g0 v, proj (Game.with_power_timer g0 v) = proj g0) ->
  (forall g0 v, proj (Game.with_ghost_eat_count g0 v) = proj g0) ->
  Game.eat_pellet g = Ok g' -> proj g' = proj g.
Proof.
  intros Hg Hmz Hsc Hpe Hpm Hpt Hgc H.
  unfold Game.eat_pellet in H.
  destruct (Pacman.get_tile (Game.pacman g)) as [col row].
  inv_bind H.
  destruct (Ascii.eqb a "."); [|destruct (Ascii.eqb a "o")].
  - inv_bind H. injection H as <-. now rewrite Hpe, Hsc, Hmz.
  - inv_bind H. injection H as <-.
    rewrite (frighten_ghosts_free proj Hg).
    now rewrite Hgc, Hpt, Hpm, Hpe, Hsc, Hmz.
  - now injection H as <-.
Qed.

Lemma eat_pellet_free {A : Type} (proj : Game.t -> A) (g g' : Game.t) :
  tick_free proj ->
  (forall g0 v, proj (Game.with_maze g0 v) = proj g0) ->
  Game.eat_pellet g = Ok g' -> proj g' = proj g.
Proof.
  intros (Hg & _ & _ & _ & Hmz & Hsc & Hpe & Hpm & Hpt & Hgc & _) _ H.
  unfold Game.eat_pellet in H.
  destruct (Pacman.get_tile (Game.pacman g)) as [col row].
  inv_bind H.
  destruct (Ascii.eqb a "."); [|destruct (Ascii.eqb a "o")].
  - inv_bind H. injection H as <-. now rewrite Hpe, Hsc, Hmz.
  - inv_bind H. injection H as <-.
    rewrite (frighten_ghosts_free proj Hg).
    now rewrite Hgc, Hpt, Hpm, Hpe, Hsc, Hmz.
  - now injection H as <-.
Qed.

Lemma tick_free_schedule {A : Type} (proj : Game.t -> A) :
  tick_free proj -> schedule_free proj.
Proof.
  intros (Hg & _ & _ & _ & _ & _ & _ & Hpm & Hpt & _ & Htm & Hrel).
  repeat split; assumption.
Qed.

Lemma update_power_free {A : Type} (proj : Game.t -> A) (g : Game.t) :
  schedule_free proj -> proj (Game.update_power g) = proj g.
Proof.
  intros (Hg & Hpm & Hpt & _).
  unfold Game.update_power.
  destruct (Game.power_mode g); [|reflexivity].
  destruct (Game.power_timer (Game.with_power_timer g _) <=? 0); [|apply Hpt].
  rewrite fold_ghost_free.
  - now rewrite Hpm, Hpt.
  - intros g0 n. cbv beta zeta.
    destruct (Ghost.frightened _); [apply Hg | reflexivity].
Qed.

Lemma release_rule_free {A : Type} (proj : Game.t -> A)
    (n : Name) (thr secs : Z) (g : Game.t) :
  schedule_free proj -> proj (Game.release_rule n thr secs g) = proj g.
Proof.
  intros (Hg & _ & _ & _ & Hrel).
  unfold Game.release_rule.
  destruct (negb _ && _); [|reflexivity]. now rewrite Hrel, Hg.
Qed.

Lemma release_ghosts_free {A : Type} (proj : Game.t -> A) (g : Game.t) :
  schedule_free proj -> proj (Game.release_ghosts g) = proj g.
Proof.
  intro Hp. unfold Game.release_ghosts.
  rewrite !release_rule_free by exact Hp.
  destruct Hp as (_ & _ & _ & Htm & _). apply Htm.
Qed.

Ltac schedule_free :=
  repeat split; try (intros ? [] ?; reflexivity); intros; reflexivity.

Lemma before_collisions_free {A : Type} (proj : Game.t -> A)
    (rnd : Name -> nat) (g g1 : Game.t) :
  tick_free proj ->
  Game.before_collisions rnd g = Ok g1 -> proj g1 = proj g.
Proof.
  intros Hp H. unfold Game.before_collisions in H.
  inv_bind H. inv_bind H.
  rewrite (update_ghosts_free proj rnd (proj1 Hp) _ _ _ H).
  rewrite release_ghosts_free, update_power_free
    by (apply tick_free_schedule; exact Hp).
  rewrite (eat_pellet_free proj a a0 Hp) by
    (try exact Ha0; destruct Hp as (_ & _ & _ & _ & Hmz & _); exact Hmz).
  unfold Game.move_pacman in Ha. inv_bind Ha. injection Ha as <-.
  destruct Hp as (_ & Hb & Hw & Hpc & _).
  rewrite Hpc. unfold Game.animate. now rewrite Hw, Hb.
Qed.

(** ** The collision loop (C10) *)

Lemma score_gain_total (k : Z) : 0 <= k -> exists v, Game.score_gain k = Ok v.
Proof.
  intro Hk. unfold Game.score_gain.
  apply py_get_in_range. simpl. lia.
Qed.

Lemma check_collisions_app (rect : Rect) (l1 l2 : list Name) (g : Game.t) :
  Game.check_collisions rect (l1 ++ l2) g
  = (r <- Game.check_collisions rect l1 g ;;
     if snd r then Ok r else Game.check_collisions rect l2 (fst r)).
Proof.
  revert g. induction l1 as [|n l1 IH]; intro g; simpl; [reflexivity|].
  destruct (mode_eqb (Ghost.mode (Game.get_ghost g n)) Dead); [apply IH|].
  destruct (colliderect rect _); [|apply IH].
  destruct (Ghost.frightened (Game.get_ghost g n)); [|reflexivity].
  destruct (Game.eat_ghost g n) as [g1|e]; simpl; [apply IH | reflexivity].
Qed.

Lemma name_eqb_eq (a b : Name) : name_eqb a b = true <-> a = b.
Proof. destruct a, b; simpl; split; intro H; congruence. Qed.

Lemma eat_ghost_get (g g' : Game.t) (n m : Name) :
  Game.eat_ghost g n = Ok g' ->
  Game.get_ghost g' m
  = if name_eqb n m then Ghost.die (Game.get_ghost g n) else Game.get_ghost g m.
Proof.
  intro H. unfold Game.eat_ghost in H. inv_bind H. injection H as <-.
  destruct n, m; reflexivity.
Qed.

Lemma eat_ghost_keeps_fatal (g g' : Game.t) (n m : Name) :
  Game.eat_ghost g n = Ok g' -> fatal g' m = true -> fatal g m = true.
Proof.
  intros H Hf. unfold fatal, touching, pac_rect in *.
  rewrite (eat_ghost_free Game.pacman g g' n ltac:(collision_free) H) in Hf.
  rewrite (eat_ghost_get g g' n m H) in Hf.
  destruct (name_eqb n m); [|exact Hf].
  simpl in Hf. discriminate.
Qed.

(** The loop over adversaries none of which is fatal runs to its end. *)
Lemma check_collisions_survives (names : list Name) :
  forall g,
    0 <= Game.ghost_eat_count g ->
    (forall m, In m names -> fatal g m = false) ->
    exists gp,
      Game.check_collisions (pac_rect g) names g = Ok (gp, false)
      /\ 0 <= Game.ghost_eat_count gp
      /\ Game.score g <= Game.score gp
      /\ (forall m, ~ In m names -> Game.get_ghost gp m = Game.get_ghost g m)
      /\ (forall m, fatal gp m = true -> fatal g m = true).
Proof.
  induction names as [|n rest IH]; intros g Hc Hnf; simpl.
  - exists g. repeat split; auto; lia.
  - assert (Hrest : forall m, In m rest -> fatal g m = false)
      by (intros m Hm; apply Hnf; now right).
    pose proof (Hnf n (or_introl eq_refl)) as Hn.
    unfold fatal, touching in Hn.
    destruct (mode_eqb (Ghost.mode (Game.get_ghost g n)) Dead) eqn:Em.
    { destruct (IH g Hc Hrest) as [gp (H1 & H2 & H3 & H4 & H5)].
      exists gp. repeat split; auto; intros m Hm; apply H4; tauto. }
    simpl in Hn.
    destruct (colliderect (pac_rect g) _) eqn:Ec.
    2:{ destruct (IH g Hc Hrest) as [gp (H1 & H2 & H3 & H4 & H5)].
        exists gp. repeat split; auto; intros m Hm; apply H4; tauto. }
    simpl in Hn.
    destruct (Ghost.frightened (Game.get_ghost g n)) eqn:Ef; [|discriminate].
    destruct (score_gain_total _ Hc) as [v Hv].
    destruct (eat_ghost_spec g n v Hv) as [g1 (He & Hs & Hk & _)].
    rewrite He. simpl.
    assert (Hv0 : 0 <= v).
    { unfold Game.score_gain in Hv.
      assert (Hi : Z.min (Game.ghost_eat_count g) 3 = 0
                   \/ Z.min (Game.ghost_eat_count g) 3 = 1
                   \/ Z.min (Game.ghost_eat_count g) 3 = 2
                   \/ Z.min (Game.ghost_eat_count g) 3 = 3) by lia.
      destruct Hi as [Hi | [Hi | [Hi | Hi]]]; rewrite Hi in Hv;
        injection Hv as <-; lia. }
    assert (Hrect : pac_rect g1 = pac_rect g).
    { unfold pac_rect.
      now rewrite (eat_ghost_free Game.pacman g g1 n ltac:(collision_free) He). }
    destruct (IH g1) as [gp (H1 & H2 & H3 & H4 & H5)].
    + lia.
    + intros m Hm. destruct (fatal g1 m) eqn:E; [|reflexivity].
      apply (eat_ghost_keeps_fatal g g1 n m He) in E.
      rewrite (Hrest m Hm) in E. discriminate.
    + rewrite Hrect in H1. exists gp. repeat split; auto.
      * lia.
      * intros m Hm. rewrite H4 by tauto.
        rewrite (eat_ghost_get g g1 n m He).
        destruct (name_eqb n m) eqn:E; [|reflexivity].
        apply name_eqb_eq in E. subst m. exfalso. apply Hm. now left.
      * intros m Hm. apply (eat_ghost_keeps_fatal g g1 n m He). now apply H5.
Qed.

(** At the first fatal adversary the loop returns, whatever follows. *)
Lemma check_collisions_dies (pre post : list Name) (n : Name) (g : Game.t) :
  0 <= Game.ghost_eat_count g ->
  (forall m, In m pre -> fatal g m = false) ->
  fatal g n = true ->
  exists gp,
    Game.check_collisions (pac_rect g) pre g = Ok (gp, false)
    /\ Game.check_collisions (pac_rect g) (pre ++ n :: post) g
       = Ok (Game.pacman_dies gp, true)
    /\ (forall m, ~ In m pre -> Game.get_ghost gp m = Game.get_ghost g m).
Proof.
  intros Hc Hpre Hn.
  destruct (check_collisions_survives pre g Hc Hpre) as [gp (H1 & _ & _ & H4 & _)].
  exists gp. split; [exact H1|]. split; [|exact H4].
  rewrite check_collisions_app, H1. simpl.
  assert (Hnot : ~ In n pre).
  { intro Hin. rewrite (Hpre n Hin) in Hn. discriminate. }
  rewrite (H4 n Hnot).
  unfold fatal, touching in Hn.
  apply andb_true_iff in Hn as [Ht Hf].
  apply andb_true_iff in Ht as [Hm Hcol].
  apply negb_true_iff in Hm. apply negb_true_iff in Hf.
  now rewrite Hm, Hcol, Hf.
Qed.

Lemma first_true_split (f : Name -> bool) (names : list Name) :
  (exists n, In n names /\ f n = true) ->
  exists pre n post,
    names = pre ++ n :: post
    /\ (forall m, In m pre -> f m = false)
    /\ f n = true.
Proof.
  induction names as [|a rest IH]; intros [n [Hin Hf]]; [destruct Hin|].
  destruct (f a) eqn:Ea.
  - exists [], a, rest. repeat split; auto. intros m [].
  - destruct IH as [pre [k [post (H1 & H2 & H3)]]].
    + destruct Hin as [<- | Hin]; [congruence | eauto].
    + exists (a :: pre), k, post. rewrite H1. repeat split; auto.
      intros m [<- | Hm]; auto.
Qed.

Lemma all_names (n : Name) : In n Game.ghosts.
Proof. destruct n; simpl; tauto. Qed.

Lemma before_collisions_streak (rnd : Name -> nat) (g g1 : Game.t) :
  Game.before_collisions rnd g = Ok g1 ->
  0 <= Game.ghost_eat_count g -> 0 <= Game.ghost_eat_count g1.
Proof.
  intros H Hc. unfold Game.before_collisions in H.
  inv_bind H. inv_bind H.
  rewrite (update_ghosts_free Game.ghost_eat_count rnd ltac:(ghost_free) _ _ _ H).
  assert (Ha1 : 0 <= Game.ghost_eat_count a0).
  { unfold Game.move_pacman in Ha. inv_bind Ha. injection Ha as <-.
    unfold Game.eat_pellet in Ha0. simpl in Ha0.
    destruct (Pacman.get_tile a1) as [col row].
    inv_bind Ha0.
    destruct (Ascii.eqb a "."); [|destruct (Ascii.eqb a "o")].
    - inv_bind Ha0. injection Ha0 as <-. exact Hc.
    - inv_bind Ha0. injection Ha0 as <-.
      rewrite (frighten_ghosts_free Game.ghost_eat_count) by ghost_free.
      simpl. lia.
    - injection Ha0 as <-. exact Hc. }
  rewrite release_ghosts_free, update_power_free by schedule_free.
  exact Ha1.
Qed.

Lemma update_game_stages (rnd : Name -> nat) (g g1 : Game.t) :
  Game.before_collisions rnd g = Ok g1 ->
  Game.update_game rnd g
  = (r <- Game.check_collisions (pac_rect g1) Game.ghosts g1 ;;
     if snd r then Ok (fst r) else Game.check_level_completion (fst r)).
Proof.
  intro H. unfold Game.update_game. rewrite H. reflexivity.
Qed.

(** C10.  In a playing tick, once the player, the pellet, the power
    countdown, the releases and the adversaries have been processed, if some
    adversary is not dead, not frightened and overlaps the player's
    rectangle, then the tick ends in the dying phase: the collision loop
    runs up to the first such adversary (eating the frightened ones it meets
    on the way) and returns there.  The adversaries from that one on are not
    examined or changed, the level-completion check is not run, and level,
    lives, maze, pellet counters and player are as the earlier stages left
    them. *)
Theorem fatal_collision_abandons_tick
    (rnd : Name -> nat) (g g1 : Game.t)
    (Hphase : Game.state g = PLAYING)
    (Hstreak : 0 <= Game.ghost_eat_count g)
    (Hstages : Game.before_collisions rnd g = Ok g1)
    (Hfatal : exists n, fatal g1 n = true) :
  exists pre n post gp,
    Game.ghosts = pre ++ n :: post
    /\ (forall m, In m pre -> fatal g1 m = false)
    /\ fatal g1 n = true
    /\ Game.check_collisions (pac_rect g1) pre g1 = Ok (gp, false)
    /\ Game.update rnd g = Ok (Game.pacman_dies gp)
    /\ Game.state (Game.pacman_dies gp) = DYING
    /\ Game.state_timer (Game.pacman_dies gp) = FPS * 2
    /\ (forall m, In m (n :: post) ->
          Game.get_ghost (Game.pacman_dies gp) m = Game.get_ghost g1 m)
    /\ Game.level (Game.pacman_dies gp) = Game.level g
    /\ Game.lives (Game.pacman_dies gp) = Game.lives g
    /\ Game.maze (Game.pacman_dies gp) = Game.maze g1
    /\ Game.pellets_eaten (Game.pacman_dies gp) = Game.pellets_eaten g1
    /\ Game.pacman (Game.pacman_dies gp) = Game.pacman g1.
Proof.
  destruct (first_true_split (fatal g1) Game.ghosts) as [pre [n [post (Hs & Hpre & Hn)]]].
  { destruct Hfatal as [n Hn]. exists n. split; [apply all_names | exact Hn]. }
  pose proof (before_collisions_streak rnd g g1 Hstages Hstreak) as Hc1.
  destruct (check_collisions_dies pre post n g1 Hc1 Hpre Hn) as [gp (H1 & H2 & H3)].
  exists pre, n, post, gp.
  assert (Hnodup : forall m, In m (n :: post) -> ~ In m pre).
  { assert (Hnd : NoDup (pre ++ n :: post)).
    { rewrite <- Hs. unfold Game.ghosts.
      repeat constructor; simpl; intuition discriminate. }
    intros m Hm Hin.
    revert Hnd Hm Hin. clear. induction pre as [|a pre IH]; simpl; intros Hnd Hm Hin.
    - exact Hin.
    - inversion Hnd as [|? ? Hna Hnd']; subst.
      destruct Hin as [<- | Hin].
      + apply Hna. apply in_or_app. right. exact Hm.
      + now apply IH. }
  split; [exact Hs|]. split; [exact Hpre|]. split; [exact Hn|].
  split; [exact H1|]. split.
  { unfold Game.update. rewrite Hphase.
    rewrite (update_game_stages rnd g g1 Hstages).
    rewrite <- Hs in H2. rewrite H2. reflexivity. }
  split; [reflexivity|]. split; [reflexivity|].
  split.
  { intros m Hm. unfold Game.pacman_dies.
    replace (Game.get_ghost (Game.with_state_timer (Game.with_state gp DYING) (FPS * 2)) m)
      with (Game.get_ghost gp m) by (destruct m; reflexivity).
    apply H3. now apply Hnodup. }
  pose proof (check_collisions_free Game.level (pac_rect g1)
                ltac:(collision_free) _ _ _ H1) as Hlev.
  pose proof (check_collisions_free Game.lives (pac_rect g1)
                ltac:(collision_free) _ _ _ H1) as Hliv.
  pose proof (check_collisions_free Game.maze (pac_rect g1)
                ltac:(collision_free) _ _ _ H1) as Hmz.
  pose proof (check_collisions_free Game.pellets_eaten (pac_rect g1)
                ltac:(collision_free) _ _ _ H1) as Hpe.
  pose proof (check_collisions_free Game.pacman (pac_rect g1)
                ltac:(collision_free) _ _ _ H1) as Hpc.
  simpl in Hlev, Hliv, Hmz, Hpe, Hpc.
  repeat split.
  - change (Game.level (Game.pacman_dies gp)) with (Game.level gp). rewrite Hlev.
    apply (before_collisions_free Game.level rnd g g1 ltac:(tick_free) Hstages).
  - change (Game.lives (Game.pacman_dies gp)) with (Game.lives gp). rewrite Hliv.
    apply (before_collisions_free Game.lives rnd g g1 ltac:(tick_free) Hstages).
  - exact Hmz.
  - exact Hpe.
  - exact Hpc.
Qed.

Lemma fatal_collision_abandons_tick_witness :
  exists gp,
    Game.update rnd0 ambush_game = Ok (Game.pacman_dies gp)
    /\ Game.state (Game.pacman_dies gp) = DYING.
Proof.
  destruct (fatal_collision_abandons_tick rnd0 ambush_game ambush_stage)
    as (pre & n & post & gp & _ & _ & _ & _ & Hu & Hs & _).
  - reflexivity.
  - vm_compute. discriminate.
  - vm_compute. reflexivity.
  - exists Blinky. vm_compute. reflexivity.
  - exists gp. split; assumption.
Defined.

(** ** Level completion (C4) *)

Lemma reset_level_spec (g : Game.t) :
  Game.original_maze g = Game.initial_maze ->
  exists g',
    Game.reset_level g = Ok g'
    /\ maze_set Game.initial_maze 23 13 " "%char = Ok (Game.maze g')
    /\ Game.maze g' = level_start_maze
    /\ Game.pacman g' = Pacman.init (13, 23)
    /\ Game.blinky g' = Ghost.init Blinky (13, 11) (25, 0)
    /\ Game.pinky g' = Ghost.init Pinky (13, 14) (2, 0)
    /\ Game.inky g' = Ghost.init Inky (11, 14) (27, 29)
    /\ Game.clyde g' = Ghost.init Clyde (15, 14) (0, 29)
    /\ Game.pellets_eaten g' = 0
    /\ Game.ghost_eat_count g' = 0
    /\ Game.power_mode g' = false
    /\ Game.power_timer g' = 0
    /\ Game.ghost_release_timer g' = 0
    /\ Game.ghosts_released g' = []
    /\ Game.original_maze g' = Game.initial_maze
    /\ Game.total_pellets g' = Game.total_pellets g
    /\ Game.level g' = Game.level g
    /\ Game.lives g' = Game.lives g
    /\ Game.score g' = Game.score g
    /\ Game.high_score g' = Game.high_score g
    /\ Game.state g' = Game.state g
    /\ Game.state_timer g' = Game.state_timer g.
Proof.
  intro H. unfold Game.reset_level. rewrite H.
  assert (Hget : maze_get Game.initial_maze 23 13 = Ok "."%char)
    by (vm_compute; reflexivity).
  assert (Hset : maze_set Game.initial_maze 23 13 " "%char = Ok level_start_maze)
    by (vm_compute; reflexivity).
  rewrite Hget. cbn [bind]. change (is_pellet ".") with true. cbv iota.
  rewrite Hset. cbn [bind].
  eexists. split; [reflexivity|].
  cbn [Game.maze Game.pacman Game.blinky Game.pinky Game.inky Game.clyde
       Game.pellets_eaten Game.ghost_eat_count Game.power_mode Game.power_timer
       Game.ghost_release_timer Game.ghosts_released Game.original_maze
       Game.total_pellets Game.level Game.lives Game.score Game.high_score
       Game.state Game.state_timer].
  repeat split; auto.
Qed.

(** C4, as the source has it.  In a playing tick that the player survives
    and at whose end the pellets-eaten counter has reached the total, the
    level number grows by exactly 1, the pellet overlay is rebuilt from the
    initial layout and the player's start tile (13, 23) is then cleared, so
    the overlay is the initial layout less that one pellet; the player and
    the four adversaries are re-created at their start tiles in their
    initial modes, the counters, the power mode and the release bookkeeping
    are zeroed, the phase becomes ready with the ready countdown, lives are
    unchanged and the score is what the tick's own awards made it. *)
Theorem level_completion_resets_round
    (rnd : Name -> nat) (g g1 g2 : Game.t)
    (Hphase : Game.state g = PLAYING)
    (Horig : Game.original_maze g = Game.initial_maze)
    (Hstages : Game.before_collisions rnd g = Ok g1)
    (Hsurvive : Game.check_collisions (pac_rect g1) Game.ghosts g1 = Ok (g2, false))
    (Hfull : Game.total_pellets g <= Game.pellets_eaten g1) :
  exists g',
    Game.update rnd g = Ok g'
    /\ Game.level g' = Game.level g + 1
    /\ maze_set Game.initial_maze 23 13 " "%char = Ok (Game.maze g')
    /\ count_maze (Game.maze g') = count_maze Game.initial_maze - 1
    /\ Game.pacman g' = Pacman.init (13, 23)
    /\ Game.blinky g' = Ghost.init Blinky (13, 11) (25, 0)
    /\ Game.pinky g' = Ghost.init Pinky (13, 14) (2, 0)
    /\ Game.inky g' = Ghost.init Inky (11, 14) (27, 29)
    /\ Game.clyde g' = Ghost.init Clyde (15, 14) (0, 29)
    /\ Game.state g' = READY
    /\ Game.state_timer g' = READY_TIME
    /\ Game.lives g' = Game.lives g
    /\ Game.score g' = Game.score g2
    /\ Game.pellets_eaten g' = 0
    /\ Game.ghost_eat_count g' = 0
    /\ Game.power_mode g' = false
    /\ Game.ghost_release_timer g' = 0
    /\ Game.ghosts_released g' = [].
Proof.
  pose proof (check_collisions_free Game.pellets_eaten _ ltac:(collision_free)
                _ _ _ Hsurvive) as Hpe.
  pose proof (check_collisions_free Game.total_pellets _ ltac:(collision_free)
                _ _ _ Hsurvive) as Htot.
  pose proof (check_collisions_free Game.original_maze _ ltac:(collision_free)
                _ _ _ Hsurvive) as Hom.
  pose proof (check_collisions_free Game.level _ ltac:(collision_free)
                _ _ _ Hsurvive) as Hlev.
  pose proof (check_collisions_free Game.lives _ ltac:(collision_free)
                _ _ _ Hsurvive) as Hliv.
  cbn [fst] in Hpe, Htot, Hom, Hlev, Hliv.
  rewrite (before_collisions_free Game.total_pellets rnd g g1
             ltac:(tick_free) Hstages) in Htot.
  rewrite (before_collisions_free Game.original_maze rnd g g1
             ltac:(tick_free) Hstages) in Hom.
  rewrite (before_collisions_free Game.level rnd g g1
             ltac:(tick_free) Hstages) in Hlev.
  rewrite (before_collisions_free Game.lives rnd g g1
             ltac:(tick_free) Hstages) in Hliv.
  destruct (reset_level_spec (Game.with_level g2 (Game.level g2 + 1)))
    as [g3 (Hr & Hset & Hmz & Hpac & Hb & Hp & Hi & Hc & Hpe3 & Hgc & Hpm & Hpt
            & Htm & Hrel & _ & _ & Hlev3 & Hliv3 & Hsc3 & _)].
  { change (Game.original_maze (Game.with_level g2 (Game.level g2 + 1)))
      with (Game.original_maze g2). congruence. }
  exists (Game.with_state_timer (Game.with_state g3 READY) READY_TIME).
  split.
  { unfold Game.update. rewrite Hphase.
    rewrite (update_game_stages rnd g g1 Hstages), Hsurvive.
    cbn [bind snd fst]. unfold Game.check_level_completion.
    replace (Game.pellets_eaten g2 >=? Game.total_pellets g2) with true.
    - rewrite Hr. reflexivity.
    - symmetry. rewrite Z.geb_leb. apply Z.leb_le. lia. }
  change (Game.level (Game.with_level g2 (Game.level g2 + 1)))
    with (Game.level g2 + 1) in Hlev3.
  change (Game.lives (Game.with_level g2 (Game.level g2 + 1)))
    with (Game.lives g2) in Hliv3.
  change (Game.score (Game.with_level g2 (Game.level g2 + 1)))
    with (Game.score g2) in Hsc3.
  cbn [Game.level Game.maze Game.pacman Game.blinky Game.pinky Game.inky
       Game.clyde Game.state Game.state_timer Game.lives Game.score
       Game.pellets_eaten Game.ghost_eat_count Game.power_mode
       Game.ghost_release_timer Game.ghosts_released
       Game.with_state Game.with_state_timer].
  repeat split; try assumption; try congruence.
  rewrite Hmz. vm_compute. reflexivity.
Qed.

Lemma level_completion_resets_round_witness :
  exists g',
    Game.update rnd0 full_game = Ok g'
    /\ Game.level g' = 2
    /\ Game.state g' = READY.
Proof.
  destruct (level_completion_resets_round rnd0 full_game full_stage full_stage)
    as (g' & Hu & Hl & _ & _ & _ & _ & _ & _ & _ & Hs & _).
  - reflexivity.
  - reflexivity.
  - vm_compute. reflexivity.
  - vm_compute. reflexivity.
  - vm_compute. discriminate.
  - exists g'. repeat split; assumption.
Defined.

(** C4 as stated fails: the overlay a completed level leaves is not the
    initial layout.  The start tile (13, 23) holds a pellet in the layout
    and is empty after the tick. *)
Lemma level_completion_leaves_start_tile_empty :
  Game.state full_game = PLAYING
  /\ Game.pellets_eaten full_game = Game.total_pellets full_game
  /\ Game.update rnd0 full_game = Ok next_level_game
  /\ Game.level next_level_game = Game.level full_game + 1
  /\ maze_get Game.initial_maze 23 13 = Ok "."%char
  /\ maze_get (Game.maze next_level_game) 23 13 = Ok " "%char
  /\ Game.maze next_level_game <> Game.initial_maze.
Proof.
  split; [vm_compute; reflexivity|].
  split; [vm_compute; reflexivity|].
  split; [vm_compute; reflexivity|].
  split; [vm_compute; reflexivity|].
  split; [vm_compute; reflexivity|].
  split; [vm_compute; reflexivity|].
  intro H. apply (f_equal (fun m => maze_get m 23 13)) in H.
  vm_compute in H. discriminate.
Qed.

(** ** One frame of an adversary *)

Lemma mode_move (gh : Ghost.t) :
  Ghost.mode (Ghost.move_in_direction gh) = Ghost.mode gh.
Proof. reflexivity. Qed.

Lemma mode_seek (gh : Ghost.t) :
  Ghost.mode (Ghost.seek_target gh) = Ghost.mode gh.
Proof.
  unfold Ghost.seek_target. destruct (Ghost.get_tile gh).
  destruct (centered _ _ _ _); reflexivity.
Qed.

Lemma mode_random (rnd : nat) (gh : Ghost.t) :
  Ghost.mode (Ghost.move_randomly rnd gh) = Ghost.mode gh.
Proof.
  unfold Ghost.move_randomly. destruct (Ghost.get_tile gh).
  destruct (centered _ _ _ _); [|reflexivity].
  destruct (Ghost.possible_dirs gh); reflexivity.
Qed.

Lemma frightened_move (gh : Ghost.t) :
  Ghost.frightened (Ghost.move_in_direction gh) = Ghost.frightened gh.
Proof. reflexivity. Qed.

Lemma update_target_mode (pac : Pacman.t) (bl gh gh' : Ghost.t) :
  Ghost.update_target pac bl gh = Ok gh' -> Ghost.mode gh' = Ghost.mode gh.
Proof.
  unfold Ghost.update_target. destruct (Pacman.get_tile pac).
  destruct (Ghost.mode gh) eqn:E;
    try (destruct (Ghost.name gh);
         try destruct (Ghost.get_tile bl);
         intro H; try discriminate; injection H as <-; exact E);
    intro H; injection H as <-; exact E.
Qed.

Lemma tick_fright_keeps (gh : Ghost.t) :
  Ghost.mode (tick_fright gh) = Ghost.mode gh
  /\ Ghost.name (tick_fright gh) = Ghost.name gh
  /\ (Ghost.frightened gh = false -> tick_fright gh = gh).
Proof.
  unfold tick_fright. destruct (Ghost.frightened gh).
  - destruct (_ <=? 0); repeat split; discriminate.
  - repeat split.
Qed.

Lemma ghost_update_unfold (pac : Pacman.t) (bl : Ghost.t) (rnd : nat) (gh : Ghost.t) :
  Ghost.update pac bl rnd gh
  = let g := tick_fright gh in
    let col := tile_of (Ghost.x gh) in
    let row := tile_of (Ghost.y gh) in
    match Ghost.mode g with
    | Pen =>
        let g1 := Ghost.with_pen_timer g (Ghost.pen_timer g + 1) in
        let g2 := if Ghost.pen_timer g1 mod 60 =? 0
                  then Ghost.with_dir g1 (0, - snd (Ghost.dir g1)) else g1 in
        Ok (Ghost.move_in_direction g2)
    | Leaving =>
        if row >? 11 then Ok (Ghost.move_in_direction (Ghost.with_dir g UP))
        else Ok (Ghost.with_dir (Ghost.with_mode g Scatter) LEFT)
    | Dead =>
        if (col =? 13) && (row =? 11)
        then Ok (Ghost.with_dir (Ghost.with_mode g Entering) DOWN)
        else Ok (Ghost.seek_target g)
    | Entering =>
        if row >=? 14 then Ok (Ghost.reset (Ghost.with_mode g Leaving))
        else Ok (Ghost.move_in_direction (Ghost.with_dir g DOWN))
    | _ =>
        if Ghost.frightened g then Ok (Ghost.move_randomly rnd g)
        else g1 <- Ghost.update_target pac bl g ;; Ok (Ghost.seek_target g1)
    end.
Proof. reflexivity. Qed.

(** The mode state machine of [Ghost.update]: one frame moves an adversary
    only along pen -> pen, leaving -> leaving | scatter, scatter -> scatter,
    dead -> dead | entering, entering -> entering | the reset mode. *)
Lemma ghost_update_mode (pac : Pacman.t) (bl : Ghost.t) (rnd : nat)
    (gh gh' : Ghost.t) :
  Ghost.update pac bl rnd gh = Ok gh' ->
  In (Ghost.mode gh') (next_modes gh).
Proof.
  rewrite ghost_update_unfold. cbv zeta.
  destruct (tick_fright_keeps gh) as (Hm & Hn & _).
  unfold next_modes. rewrite <- Hm, <- Hn.
  generalize (tick_fright gh). intros g H.
  destruct (Ghost.mode g) eqn:E.
  - injection H as <-. rewrite mode_move.
    destruct (_ =? 0); simpl; auto.
  - destruct (_ >? 11); injection H as <-.
    + rewrite mode_move. simpl. auto.
    + simpl. auto.
  - destruct (Ghost.frightened g).
    + injection H as <-. rewrite mode_random, E. simpl. auto.
    + inv_bind H. injection H as <-. rewrite mode_seek.
      rewrite (update_target_mode _ _ _ _ Ha), E. simpl. auto.
  - destruct (Ghost.frightened g).
    + injection H as <-. rewrite mode_random, E. simpl. auto.
    + inv_bind H. injection H as <-. rewrite mode_seek.
      rewrite (update_target_mode _ _ _ _ Ha), E. simpl. auto.
  - destruct (_ && _); injection H as <-.
    + simpl. auto.
    + rewrite mode_seek, E. simpl. auto.
  - destruct (_ >=? 14); injection H as <-.
    + right. left. unfold Ghost.reset. simpl.
      destruct (name_eqb (Ghost.name g) Blinky); reflexivity.
    + rewrite mode_move. simpl. auto.
Qed.

(** [Ghost.update] raises only for the shy adversary in chase mode. *)
Lemma ghost_update_total (pac : Pacman.t) (bl : Ghost.t) (rnd : nat) (gh : Ghost.t) :
  Ghost.mode gh <> Chase ->
  exists gh', Ghost.update pac bl rnd gh = Ok gh' /\ Ghost.mode gh' <> Chase.
Proof.
  intro Hc.
  assert (Hok : exists gh', Ghost.update pac bl rnd gh = Ok gh').
  { rewrite ghost_update_unfold. cbv zeta.
    destruct (tick_fright_keeps gh) as (Hm & _ & _).
    rewrite <- Hm in Hc. revert Hc. generalize (tick_fright gh). intros g Hc.
    destruct (Ghost.mode g) eqn:E; try congruence.
    - eauto.
    - destruct (_ >? 11); eauto.
    - destruct (Ghost.frightened g); [eauto|].
      unfold Ghost.update_target. destruct (Pacman.get_tile pac).
      rewrite E. cbn [bind]. eauto.
    - destruct (_ && _); eauto.
    - destruct (_ >=? 14); eauto. }
  destruct Hok as [gh' H]. exists gh'. split; [exact H|].
  pose proof (ghost_update_mode pac bl rnd gh gh' H) as Hin.
  unfold next_modes in Hin.
  destruct (Ghost.mode gh); try congruence; simpl in Hin;
    destruct (name_eqb (Ghost.name gh) Blinky) in Hin;
    intuition congruence.
Qed.

Lemma ghost_update_pen (pac : Pacman.t) (bl : Ghost.t) (rnd : nat) (gh : Ghost.t) :
  Ghost.mode gh = Pen -> Ghost.frightened gh = false ->
  exists gh',
    Ghost.update pac bl rnd gh = Ok gh'
    /\ Ghost.mode gh' = Pen /\ Ghost.frightened gh' = false.
Proof.
  intros Hm Hf. rewrite ghost_update_unfold. cbv zeta.
  destruct (tick_fright_keeps gh) as (_ & _ & Hsame).
  rewrite (Hsame Hf), Hm.
  eexists. split; [reflexivity|].
  rewrite mode_move, frightened_move.
  destruct (_ =? 0); simpl; auto.
Qed.

(** ** The loop over the adversaries *)

Lemma update_ghosts_each (rnd : Name -> nat) (g g' : Game.t) :
  Game.update_ghosts rnd Game.ghosts g = Ok g' ->
  forall n, exists bl,
    Ghost.update (Game.pacman g) bl (rnd n) (Game.get_ghost g n)
    = Ok (Game.get_ghost g' n).
Proof.
  intro H. unfold Game.ghosts in H. simpl in H.
  inv_bind H. inv_bind H. inv_bind H. inv_bind H. injection H as <-.
  intros []; eexists; simpl; eassumption.
Qed.

Lemma update_ghosts_total (rnd : Name -> nat) (g : Game.t) :
  (forall n, Ghost.mode (Game.get_ghost g n) <> Chase) ->
  exists g',
    Game.update_ghosts rnd Game.ghosts g = Ok g'
    /\ forall n, Ghost.mode (Game.get_ghost g' n) <> Chase.
Proof.
  intro Hc. unfold Game.ghosts. simpl.
  destruct (ghost_update_total (Game.pacman g) (Game.blinky g) (rnd Blinky)
              (Game.blinky g) (Hc Blinky)) as [b [Hb Hbm]].
  rewrite Hb. simpl.
  destruct (ghost_update_total (Game.pacman g) b (rnd Pinky)
              (Game.pinky g) (Hc Pinky)) as [p [Hp Hpm]].
  rewrite Hp. simpl.
  destruct (ghost_update_total (Game.pacman g) b (rnd Inky)
              (Game.inky g) (Hc Inky)) as [i [Hi Him]].
  rewrite Hi. simpl.
  destruct (ghost_update_total (Game.pacman g) b (rnd Clyde)
              (Game.clyde g) (Hc Clyde)) as [c [Hcl Hcm]].
  rewrite Hcl. simpl.
  eexists. split; [reflexivity|].
  intros []; simpl; assumption.
Qed.

Lemma check_collisions_total (rect : Rect) (names : list Name) :
  forall g, 0 <= Game.ghost_eat_count g ->
            exists r, Game.check_collisions rect names g = Ok r.
Proof.
  induction names as [|n rest IH]; intros g Hc; simpl; [eauto|].
  destruct (mode_eqb _ Dead); [now apply IH|].
  destruct (colliderect rect _); [|now apply IH].
  destruct (Ghost.frightened _); [|eauto].
  destruct (score_gain_total _ Hc) as [v Hv].
  destruct (eat_ghost_spec g n v Hv) as [g1 (He & _ & Hk & _)].
  rewrite He. simpl. apply IH. lia.
Qed.

(** What the collision loop can do to one adversary: nothing, or kill it
    when it was frightened. *)
Lemma check_collisions_ghost (rect : Rect) (n : Name) (names : list Name) :
  forall g r,
    Game.check_collisions rect names g = Ok r ->
    Game.get_ghost (fst r) n = Game.get_ghost g n
    \/ (Game.get_ghost (fst r) n = Ghost.die (Game.get_ghost g n)
        /\ Ghost.frightened (Game.get_ghost g n) = true).
Proof.
  induction names as [|a rest IH]; intros g r H; simpl in H.
  - injection H as <-. now left.
  - destruct (mode_eqb (Ghost.mode (Game.get_ghost g a)) Dead); [now apply IH|].
    destruct (colliderect rect _); [|now apply IH].
    destruct (Ghost.frightened (Game.get_ghost g a)) eqn:Ef.
    + inv_bind H. rename a0 into g1.
      pose proof (eat_ghost_get g g1 a n Ha) as Hget.
      destruct (IH g1 r H) as [Hs | [Hd Hfr]].
      * rewrite Hs, Hget. destruct (name_eqb a n) eqn:E; [|now left].
        apply name_eqb_eq in E. subst a. right. split; [reflexivity | exact Ef].
      * rewrite Hget in Hfr, Hd. destruct (name_eqb a n) eqn:E.
        -- simpl in Hfr. discriminate.
        -- right. split; assumption.
    + injection H as <-. left. destruct n; reflexivity.
Qed.

(** ** The pellet stage and the schedule *)

Lemma before_collisions_split (rnd : Name -> nat) (g : Game.t) :
  Game.before_collisions rnd g
  = (ge <- player_stage g ;;
     Game.update_ghosts rnd Game.ghosts (Game.release_ghosts (Game.update_power ge))).
Proof.
  unfold Game.before_collisions, player_stage.
  destruct (Game.move_pacman (Game.animate g)); reflexivity.
Qed.

Ltac player_stage_free :=
  repeat split; try (intros ? [] ?; reflexivity); intros; reflexivity.

Lemma player_stage_keeps {A : Type} (proj : Game.t -> A) (g ge : Game.t) :
  player_stage_free proj -> player_stage g = Ok ge -> proj ge = proj g.
Proof.
  intros (Hg & Hb & Hw & Hpc & Hmz & Hsc & Hpe & Hpm & Hpt & Hgc) H.
  unfold player_stage in H. inv_bind H.
  unfold Game.move_pacman in Ha. inv_bind Ha. injection Ha as <-.
  assert (Ha : proj (Game.with_pacman (Game.animate g) a0) = proj g).
  { rewrite Hpc. unfold Game.animate. now rewrite Hw, Hb. }
  rewrite <- Ha. clear Ha.
  unfold Game.eat_pellet in H.
  destruct (Pacman.get_tile _) as [col row].
  inv_bind H.
  destruct (Ascii.eqb a "."); [|destruct (Ascii.eqb a "o")].
  - inv_bind H. injection H as <-. now rewrite Hpe, Hsc, Hmz.
  - inv_bind H. injection H as <-.
    rewrite (frighten_ghosts_free proj Hg).
    now rewrite Hgc, Hpt, Hpm, Hpe, Hsc, Hmz.
  - now injection H as <-.
Qed.

Lemma player_stage_ghost (g ge : Game.t) (n : Name) :
  player_stage g = Ok ge ->
  Game.get_ghost ge n = Game.get_ghost g n
  \/ Game.get_ghost ge n = Ghost.frighten (Game.get_ghost g n).
Proof.
  intro H. unfold player_stage in H. inv_bind H.
  unfold Game.move_pacman in Ha. inv_bind Ha. injection Ha as <-.
  unfold Game.eat_pellet in H.
  destruct (Pacman.get_tile _) as [col row].
  inv_bind H.
  destruct (Ascii.eqb a "."); [|destruct (Ascii.eqb a "o")].
  - inv_bind H. injection H as <-. left. destruct n; reflexivity.
  - inv_bind H. injection H as <-. right.
    rewrite frighten_ghosts_get. destruct n; reflexivity.
  - injection H as <-. left. destruct n; reflexivity.
Qed.

Lemma frighten_keeps (gh : Ghost.t) :
  Ghost.mode (Ghost.frighten gh) = Ghost.mode gh
  /\ (Ghost.mode gh = Pen -> Ghost.frighten gh = gh).
Proof.
  unfold Ghost.frighten. destruct (Ghost.mode gh) eqn:E; simpl; auto;
    split; auto; discriminate.
Qed.

Lemma fold_ghost_pred (P : Ghost.t -> Prop) (n : Name)
    (f : Game.t -> Name -> Game.t) :
  (forall g m, P (Game.get_ghost g n) -> P (Game.get_ghost (f g m) n)) ->
  forall l g, P (Game.get_ghost g n) -> P (Game.get_ghost (fold_left f l g) n).
Proof.
  intros Hf l. induction l as [|m l IH]; intros g Hp; simpl; auto.
Qed.

Lemma update_power_ghost (P : Ghost.t -> Prop) (g : Game.t) (n : Name) :
  (forall gh, P gh -> P (Ghost.unfrighten gh)) ->
  P (Game.get_ghost g n) -> P (Game.get_ghost (Game.update_power g) n).
Proof.
  intros Hun Hp. unfold Game.update_power.
  destruct (Game.power_mode g); [|exact Hp].
  destruct (_ <=? 0).
  - apply fold_ghost_pred.
    + intros g0 m Hp0. cbv beta zeta.
      destruct (Ghost.frightened (Game.get_ghost g0 m)); [|exact Hp0].
      rewrite get_set_ghost. destruct (name_eqb m n) eqn:E; [|exact Hp0].
      apply name_eqb_eq in E. subst m. now apply Hun.
    + destruct n; exact Hp.
  - destruct n; exact Hp.
Qed.

Lemma release_rule_obs (m : Name) (thr secs : Z) (g : Game.t) (n : Name) :
  Game.pellets_eaten (Game.release_rule m thr secs g) = Game.pellets_eaten g
  /\ Game.ghost_release_timer (Game.release_rule m thr secs g)
     = Game.ghost_release_timer g
  /\ (n <> m ->
      Game.get_ghost (Game.release_rule m thr secs g) n = Game.get_ghost g n
      /\ Game.released n (Game.release_rule m thr secs g) = Game.released n g).
Proof.
  unfold Game.release_rule.
  destruct (negb _ && _); [|repeat split].
  split; [destruct m; reflexivity|]. split; [destruct m; reflexivity|].
  intro Hne. split.
  - destruct n, m; try reflexivity; congruence.
  - unfold Game.released. simpl.
    replace (Game.ghosts_released (Game.set_ghost g m _))
      with (Game.ghosts_released g) by (destruct m; reflexivity).
    destruct (name_eqb n m) eqn:E; [|reflexivity].
    apply name_eqb_eq in E. congruence.
Qed.

Lemma release_rule_self (n : Name) (thr secs : Z) (g : Game.t) :
  Game.released n g = false ->
  let due := (Game.pellets_eaten g >=? thr)
             || (Game.ghost_release_timer g >? secs * FPS) in
  Game.get_ghost (Game.release_rule n thr secs g) n
  = (if due then Ghost.release (Game.get_ghost g n) else Game.get_ghost g n)
  /\ Game.released n (Game.release_rule n thr secs g) = due.
Proof.
  intros Hr due. unfold Game.release_rule. fold due. rewrite Hr. simpl.
  destruct due.
  - split.
    + destruct n; reflexivity.
    + unfold Game.released. simpl. destruct n; reflexivity.
  - split; [reflexivity | exact Hr].
Qed.

Lemma release_ghosts_entry (n : Name) (thr secs : Z) (g : Game.t) :
  In (n, thr, secs) release_schedule ->
  Game.released n g = false ->
  Game.get_ghost (Game.release_ghosts g) n
  = (if release_due thr secs g
     then Ghost.release (Game.get_ghost g n) else Game.get_ghost g n)
  /\ Game.released n (Game.release_ghosts g) = release_due thr secs g.
Proof.
  intros Hin Hr. unfold Game.release_ghosts, release_due.
  set (g0 := Game.with_ghost_release_timer g (Game.ghost_release_timer g + 1)).
  assert (H0 : Game.released n g0 = false /\ Game.get_ghost g0 n = Game.get_ghost g n
               /\ Game.pellets_eaten g0 = Game.pellets_eaten g
               /\ Game.ghost_release_timer g0 = Game.ghost_release_timer g + 1).
  { unfold g0. split; [exact Hr|]. split; [destruct n; reflexivity|].
    split; reflexivity. }
  destruct H0 as (Hr0 & Hg0 & Hp0 & Ht0).
  rewrite <- Hp0, <- Ht0, <- Hg0. clearbody g0. clear Hg0 Hp0 Ht0 Hr g.
  destruct Hin as [[= <- <- <-] | [[= <- <- <-] | [[= <- <- <-] | []]]].
  - destruct (release_rule_self Pinky 7 4 g0 Hr0) as [Hs1 Hs2].
    set (g1 := Game.release_rule Pinky 7 4 g0) in *.
    destruct (release_rule_obs Inky 17 8 g1 Pinky) as (_ & _ & Ho1); try discriminate.
    destruct Ho1 as [Ho1 Ho1']; [discriminate|].
    set (g2 := Game.release_rule Inky 17 8 g1) in *.
    destruct (release_rule_obs Clyde 32 12 g2 Pinky) as (_ & _ & Ho2).
    destruct Ho2 as [Ho2 Ho2']; [discriminate|].
    rewrite Ho2, Ho2', Ho1, Ho1'. split; assumption.
  - destruct (release_rule_obs Pinky 7 4 g0 Inky) as (Hp1 & Ht1 & Ho1).
    destruct Ho1 as [Ho1 Ho1']; [discriminate|].
    set (g1 := Game.release_rule Pinky 7 4 g0) in *.
    rewrite <- Ho1' in Hr0.
    destruct (release_rule_self Inky 17 8 g1 Hr0) as [Hs1 Hs2].
    set (g2 := Game.release_rule Inky 17 8 g1) in *.
    destruct (release_rule_obs Clyde 32 12 g2 Inky) as (_ & _ & Ho2).
    destruct Ho2 as [Ho2 Ho2']; [discriminate|].
    rewrite Ho2, Ho2', Hs1, Hs2, Hp1, Ht1, Ho1. split; reflexivity.
  - destruct (release_rule_obs Pinky 7 4 g0 Clyde) as (Hp1 & Ht1 & Ho1).
    destruct Ho1 as [Ho1 Ho1']; [discriminate|].
    set (g1 := Game.release_rule Pinky 7 4 g0) in *.
    destruct (release_rule_obs Inky 17 8 g1 Clyde) as (Hp2 & Ht2 & Ho2).
    destruct Ho2 as [Ho2 Ho2']; [discriminate|].
    set (g2 := Game.release_rule Inky 17 8 g1) in *.
    rewrite <- Ho1', <- Ho2' in Hr0.
    destruct (release_rule_self Clyde 32 12 g2 Hr0) as [Hs1 Hs2].
    rewrite Hs1, Hs2, Hp2, Ht2, Hp1, Ht1, Ho2, Ho1. split; reflexivity.
Qed.

Lemma update_power_keeps {A : Type} (proj : Game.t -> A) (g : Game.t) :
  ghost_free proj ->
  (forall g0 v, proj (Game.with_power_mode g0 v) = proj g0) ->
  (forall g0 v, proj (Game.with_power_timer g0 v) = proj g0) ->
  proj (Game.update_power g) = proj g.
Proof.
  intros Hg Hpm Hpt. unfold Game.update_power.
  destruct (Game.power_mode g); [|reflexivity].
  destruct (Game.power_timer (Game.with_power_timer g _) <=? 0); [|apply Hpt].
  rewrite fold_ghost_free.
  - now rewrite Hpm, Hpt.
  - intros g0 n. cbv beta zeta.
    destruct (Ghost.frightened _); [apply Hg | reflexivity].
Qed.

Lemma player_stage_streak (g ge : Game.t) :
  player_stage g = Ok ge ->
  0 <= Game.ghost_eat_count g -> 0 <= Game.ghost_eat_count ge.
Proof.
  intros H Hc. unfold player_stage in H. inv_bind H.
  unfold Game.move_pacman in Ha. inv_bind Ha. injection Ha as <-.
  unfold Game.eat_pellet in H.
  destruct (Pacman.get_tile _) as [col row].
  inv_bind H.
  destruct (Ascii.eqb a "."); [|destruct (Ascii.eqb a "o")].
  - inv_bind H. injection H as <-. exact Hc.
  - inv_bind H. injection H as <-.
    rewrite (frighten_ghosts_free Game.ghost_eat_count) by ghost_free.
    cbn. lia.
  - injection H as <-. exact Hc.
Qed.

Lemma release_rule_no_chase (k : Name) (thr secs : Z) (g : Game.t) :
  (forall m, Ghost.mode (Game.get_ghost g m) <> Chase) ->
  forall m, Ghost.mode (Game.get_ghost (Game.release_rule k thr secs g) m) <> Chase.
Proof.
  intros Hc m. unfold Game.release_rule.
  destruct (negb _ && _); [|apply Hc].
  replace (Game.get_ghost (Game.with_ghosts_released
                             (Game.set_ghost g k (Ghost.release (Game.get_ghost g k)))
                             (k :: Game.ghosts_released
                                     (Game.set_ghost g k (Ghost.release (Game.get_ghost g k))))) m)
    with (Game.get_ghost (Game.set_ghost g k (Ghost.release (Game.get_ghost g k))) m)
    by (destruct m; reflexivity).
  rewrite get_set_ghost. destruct (name_eqb k m); [|apply Hc].
  unfold Ghost.release. destruct (mode_eqb _ Pen); [discriminate | apply Hc].
Qed.

Lemma release_ghosts_no_chase (g : Game.t) :
  (forall m, Ghost.mode (Game.get_ghost g m) <> Chase) ->
  forall m, Ghost.mode (Game.get_ghost (Game.release_ghosts g) m) <> Chase.
Proof.
  intro Hc. unfold Game.release_ghosts.
  repeat apply release_rule_no_chase.
  intro m. destruct m.
  - exact (Hc Blinky).
  - exact (Hc Pinky).
  - exact (Hc Inky).
  - exact (Hc Clyde).
Qed.


Lemma release_due_spec (thr secs : Z) (g : Game.t) :
  release_due thr secs g = true
  <-> thr <= Game.pellets_eaten g \/ secs * FPS < Game.ghost_release_timer g + 1.
Proof.
  unfold release_due. rewrite orb_true_iff, Z.geb_leb, Z.leb_le, Z.gtb_ltb, Z.ltb_lt.
  reflexivity.
Qed.




(** ** Counting pellets *)

Lemma occ_replace (x v c : ascii) (l : list ascii) (k : nat) :
  nth_error l k = Some c ->
  occ x (replace_nth l k v) + (if ascii_dec c x then 1 else 0)
  = occ x l + (if ascii_dec v x then 1 else 0).
Proof.
  unfold occ. revert k. induction l as [|h t IH]; intros [|k] H; simpl in H;
    try discriminate.
  - injection H as ->. simpl.
    destruct (ascii_dec c x), (ascii_dec v x); lia.
  - specialize (IH k H). simpl.
    destruct (ascii_dec h x); lia.
Qed.

Lemma count_row_clear (r : list ascii) (k : nat) (c : ascii) :
  nth_error r k = Some c -> is_pellet c = true ->
  count_row (replace_nth r k " "%char) = count_row r - 1.
Proof.
  intros Hn Hp. unfold count_row. fold (occ "."%char r) (occ "o"%char r).
  fold (occ "."%char (replace_nth r k " "%char)) (occ "o"%char (replace_nth r k " "%char)).
  pose proof (occ_replace "."%char " "%char c r k Hn) as H1.
  pose proof (occ_replace "o"%char " "%char c r k Hn) as H2.
  unfold is_pellet in Hp. apply orb_true_iff in Hp.
  destruct (ascii_dec " "%char "."%char) as [E|_]; [discriminate|].
  destruct (ascii_dec " "%char "o"%char) as [E|_]; [discriminate|].
  destruct Hp as [Hp | Hp]; apply Ascii.eqb_eq in Hp; subst c.
  - destruct (ascii_dec "."%char "."%char) as [_|E]; [|congruence].
    destruct (ascii_dec "."%char "o"%char) as [E|_]; [discriminate|]. lia.
  - destruct (ascii_dec "o"%char "."%char) as [E|_]; [discriminate|].
    destruct (ascii_dec "o"%char "o"%char) as [_|E]; [|congruence]. lia.
Qed.

Lemma count_maze_replace (m : Maze) (n : nat) (r r' : list ascii) :
  nth_error m n = Some r ->
  count_maze (replace_nth m n r') = count_maze m - count_row r + count_row r'.
Proof.
  revert n. induction m as [|h t IH]; intros [|n] H; simpl in H; try discriminate.
  - injection H as ->. simpl. lia.
  - simpl. rewrite (IH n H). lia.
Qed.

Lemma count_row_nonneg (r : list ascii) : 0 <= count_row r.
Proof. unfold count_row. lia. Qed.

Lemma count_maze_nonneg (m : Maze) : 0 <= count_maze m.
Proof.
  induction m as [|r t IH]; simpl; [lia|].
  pose proof (count_row_nonneg r). lia.
Qed.

(** Clearing a pellet cell takes exactly one pellet off the maze. *)
Lemma maze_set_count (m m' : Maze) (row col : Z) (c : ascii) :
  maze_get m row col = Ok c ->
  is_pellet c = true ->
  maze_set m row col " "%char = Ok m' ->
  count_maze m' = count_maze m - 1.
Proof.
  unfold maze_get, maze_set. intros Hg Hp Hs.
  inv_bind Hg. rewrite Ha in Hs. cbn [bind] in Hs.
  apply py_get_nth in Ha as [n [Hn Hr]].
  apply py_get_nth in Hg as [k [Hk Hc]].
  unfold py_set in Hs. rewrite Hk in Hs. cbn [bind] in Hs. rewrite Hn in Hs.
  injection Hs as <-.
  rewrite (count_maze_replace m n a _ Hr).
  rewrite (count_row_clear a k c Hc Hp). lia.
Qed.

Lemma pellet_chars (c : ascii) :
  (Ascii.eqb c "." = true -> is_pellet c = true /\ is_wall_or_gate c = false)
  /\ (Ascii.eqb c "o" = true -> is_pellet c = true /\ is_wall_or_gate c = false).
Proof.
  split; intro H; apply Ascii.eqb_eq in H; subst c; split; reflexivity.
Qed.

(** Every pellet eaten leaves the maze: the sum of the two never moves. *)
Lemma player_stage_pellets (g ge : Game.t) :
  player_stage g = Ok ge ->
  Game.pellets_eaten ge + count_maze (Game.maze ge)
  = Game.pellets_eaten g + count_maze (Game.maze g).
Proof.
  intro H. unfold player_stage in H. inv_bind H.
  unfold Game.move_pacman in Ha. inv_bind Ha. injection Ha as <-.
  unfold Game.eat_pellet in H.
  destruct (Pacman.get_tile _) as [col row].
  inv_bind H.
  change (Game.maze (Game.with_pacman (Game.animate g) a0)) with (Game.maze g) in *.
  destruct (Ascii.eqb a ".") eqn:E1; [|destruct (Ascii.eqb a "o") eqn:E2].
  - inv_bind H. injection H as <-.
    pose proof (maze_set_count _ _ _ _ _ Ha (proj1 (proj1 (pellet_chars a) E1)) Ha1) as Hc.
    cbn [Game.pellets_eaten Game.maze Game.with_pellets_eaten Game.with_score
         Game.with_maze Game.with_pacman Game.animate
         Game.with_waka_timer Game.with_power_pellet_blink].
    lia.
  - inv_bind H. injection H as <-.
    pose proof (maze_set_count _ _ _ _ _ Ha (proj1 (proj2 (pellet_chars a) E2)) Ha1) as Hc.
    rewrite (frighten_ghosts_free Game.pellets_eaten) by ghost_free.
    rewrite (frighten_ghosts_free Game.maze) by ghost_free.
    cbn [Game.pellets_eaten Game.maze Game.with_pellets_eaten Game.with_score
         Game.with_maze Game.with_pacman Game.animate Game.with_power_mode
         Game.with_power_timer Game.with_ghost_eat_count
         Game.with_waka_timer Game.with_power_pellet_blink].
    lia.
  - injection H as <-. reflexivity.
Qed.

Lemma before_collisions_pellets (rnd : Name -> nat) (g g1 : Game.t) :
  Game.before_collisions rnd g = Ok g1 ->
  Game.pellets_eaten g1 + count_maze (Game.maze g1)
  = Game.pellets_eaten g + count_maze (Game.maze g).
Proof.
  intro H. rewrite before_collisions_split in H. inv_bind H.
  rewrite (update_ghosts_free Game.pellets_eaten rnd ltac:(ghost_free) _ _ _ H).
  rewrite (update_ghosts_free Game.maze rnd ltac:(ghost_free) _ _ _ H).
  rewrite !release_ghosts_free, !update_power_free by schedule_free.
  now apply player_stage_pellets.
Qed.

Lemma reset_positions_pellets (g : Game.t) :
  Game.maze (Game.reset_positions g) = Game.maze g
  /\ Game.pellets_eaten (Game.reset_positions g) = Game.pellets_eaten g
  /\ Game.total_pellets (Game.reset_positions g) = Game.total_pellets g
  /\ Game.original_maze (Game.reset_positions g) = Game.original_maze g
  /\ Game.level (Game.reset_positions g) = Game.level g.
Proof. repeat split. Qed.

Lemma pellet_inv_reset_level (g g' : Game.t) :
  Game.total_pellets g = Game.count_pellets ->
  Game.original_maze g = Game.initial_maze ->
  Game.level g = 1 ->
  Game.reset_level g = Ok g' -> pellet_inv g'.
Proof.
  intros Ht Ho Hl H.
  destruct (reset_level_spec g Ho)
    as [g2 (Hr & _ & Hmz & _ & _ & _ & _ & _ & Hpe & _ & _ & _ & _ & _ & Ho2
            & Ht2 & Hl2 & _)].
  rewrite Hr in H. injection H as <-.
  unfold pellet_inv. rewrite Ht2, Ho2, Hl2, Hpe, Hmz.
  split; [exact Ht|]. split; [reflexivity|].
  split; [vm_compute; reflexivity | exact Hl].
Qed.

Lemma pellet_inv_update_game (rnd : Name -> nat) (g g' : Game.t) :
  pellet_inv g -> Game.update_game rnd g = Ok g' ->
  pellet_inv g' /\ Game.pellets_eaten g' < Game.total_pellets g'.
Proof.
  intros (Ht & Ho & Hsum & Hl) H.
  unfold Game.update_game in H. inv_bind H. rename a into g1.
  fold (pac_rect g1) in H. inv_bind H. rename a into r.
  pose proof (before_collisions_pellets rnd g g1 Ha) as Hsum1.
  pose proof (before_collisions_free Game.total_pellets rnd g g1 ltac:(tick_free) Ha) as Ht1.
  pose proof (before_collisions_free Game.original_maze rnd g g1 ltac:(tick_free) Ha) as Ho1.
  pose proof (before_collisions_free Game.level rnd g g1 ltac:(tick_free) Ha) as Hl1.
  pose proof (check_collisions_free Game.pellets_eaten _ ltac:(collision_free) _ _ _ Ha0) as Hpe.
  pose proof (check_collisions_free Game.maze _ ltac:(collision_free) _ _ _ Ha0) as Hmz.
  pose proof (check_collisions_free Game.total_pellets _ ltac:(collision_free) _ _ _ Ha0) as Htr.
  pose proof (check_collisions_free Game.original_maze _ ltac:(collision_free) _ _ _ Ha0) as Hor.
  pose proof (check_collisions_free Game.level _ ltac:(collision_free) _ _ _ Ha0) as Hlr.
  pose proof (count_maze_nonneg (Game.maze (fst r))) as Hnn.
  assert (Hinv : pellet_inv (fst r)).
  { unfold pellet_inv. rewrite Hpe, Hmz, Htr, Hor, Hlr. repeat split; congruence. }
  assert (Hlt : Game.pellets_eaten (fst r) < Game.total_pellets (fst r)).
  { destruct Hinv as (H1 & _ & H3 & _). lia. }
  destruct (snd r).
  - injection H as <-. split; assumption.
  - unfold Game.check_level_completion in H.
    replace (Game.pellets_eaten (fst r) >=? Game.total_pellets (fst r)) with false in H.
    + injection H as <-. split; assumption.
    + symmetry. rewrite Z.geb_leb. apply Z.leb_gt. exact Hlt.
Qed.

Lemma pellet_inv_lt (g : Game.t) :
  pellet_inv g -> Game.pellets_eaten g < Game.total_pellets g.
Proof.
  intros (Ht & _ & Hsum & _). pose proof (count_maze_nonneg (Game.maze g)). lia.
Qed.

Lemma pellet_inv_update (rnd : Name -> nat) (g g' : Game.t) :
  pellet_inv g -> Game.update rnd g = Ok g' -> pellet_inv g'.
Proof.
  intros Hinv H. unfold Game.update in H.
  destruct (Game.state g).
  - destruct (_ <=? 0); injection H as <-; exact Hinv.
  - now apply (pellet_inv_update_game rnd g g').
  - destruct (_ <=? 0); [|injection H as <-; exact Hinv].
    destruct (_ <=? 0).
    + destruct (_ >? _); injection H as <-; exact Hinv.
    + injection H as <-. exact Hinv.
  - injection H as <-. exact Hinv.
Qed.

Lemma pellet_inv_frame (r : bool) (keys : Keys) (rnd : Name -> nat) (g g' : Game.t) :
  pellet_inv g -> Game.frame r keys rnd g = Ok g' -> pellet_inv g'.
Proof.
  intros Hinv H. unfold Game.frame in H. inv_bind H. rename a into g1.
  assert (Hinv1 : pellet_inv g1).
  { destruct r; [|injection Ha as <-; exact Hinv].
    unfold Game.restart in Ha.
    destruct (phase_eqb (Game.state g) GAME_OVER); [|injection Ha as <-; exact Hinv].
    inv_bind Ha. injection Ha as <-.
    destruct Hinv as (Ht & Ho & _ & _).
    assert (Hinv2 : pellet_inv a).
    { apply (pellet_inv_reset_level
               (Game.with_level (Game.with_lives (Game.with_score g 0) START_LIVES) 1)
               a Ht Ho eq_refl Ha0). }
    exact Hinv2. }
  apply (pellet_inv_update rnd (Game.handle_input keys g1) g'); [|exact H].
  unfold Game.handle_input.
  destruct (phase_eqb _ PLAYING); [|exact Hinv1].
  destruct (K_UP keys); [exact Hinv1|].
  destruct (K_DOWN keys); [exact Hinv1|].
  destruct (K_LEFT keys); [exact Hinv1|].
  destruct (K_RIGHT keys); exact Hinv1.
Qed.

Lemma pellet_inv_reachable (g : Game.t) : reachable g -> pellet_inv g.
Proof.
  induction 1 as [g Hinit | g g' r keys rnd Hr IH Hf].
  - unfold Game.init in Hinit.
    apply (pellet_inv_reset_level Game.blank g); auto.
  - now apply (pellet_inv_frame r keys rnd g g').
Qed.

(** C3.  In every reachable state pellets-eaten plus the pellets still in
    the maze equals the total minus one: the total counts all 244 pellets of
    the initial layout, whereas every level starts with the pellet of the
    start tile (13, 23) already removed and not counted as eaten.  Hence
    pellets-eaten stays strictly below the total, no tick of a reachable
    playing state takes the level-completion branch (it leaves the level
    number as it is), and the level number is 1 throughout. *)
Theorem pellets_eaten_never_reaches_total (g : Game.t) (Hreach : reachable g) :
  Game.total_pellets g = Game.count_pellets
  /\ Game.count_pellets = 244
  /\ maze_get Game.initial_maze 23 13 = Ok "."%char
  /\ maze_get level_start_maze 23 13 = Ok " "%char
  /\ count_maze level_start_maze = Game.count_pellets - 1
  /\ Game.pellets_eaten g + count_maze (Game.maze g) = Game.total_pellets g - 1
  /\ Game.pellets_eaten g < Game.total_pellets g
  /\ Game.level g = 1
  /\ (forall rnd g', Game.update_game rnd g = Ok g' ->
        Game.level g' = Game.level g
        /\ Game.pellets_eaten g' < Game.total_pellets g').
Proof.
  pose proof (pellet_inv_reachable g Hreach) as Hinv.
  pose proof (pellet_inv_lt g Hinv) as Hlt.
  destruct Hinv as (Ht & Ho & Hsum & Hl).
  split; [exact Ht|].
  split; [vm_compute; reflexivity|].
  split; [vm_compute; reflexivity|].
  split; [vm_compute; reflexivity|].
  split; [vm_compute; reflexivity|].
  split; [rewrite Ht; exact Hsum|].
  split; [exact Hlt|].
  split; [exact Hl|].
  intros rnd g' Hu.
  destruct (pellet_inv_update_game rnd g g') as [(_ & _ & _ & Hl') Hlt'];
    [repeat split; assumption | exact Hu |].
  split; [congruence | exact Hlt'].
Qed.

Lemma pellets_eaten_never_reaches_total_witness :
  Game.pellets_eaten game0 < Game.total_pellets game0 /\ Game.level game0 = 1.
Proof.
  destruct (pellets_eaten_never_reaches_total game0 (reachable_init game0 init_ok))
    as (_ & _ & _ & _ & _ & _ & Hlt & Hl & _).
  split; assumption.
Defined.

(** ** The player and the walls (C1) *)

Lemma in_bounds_spec (col row : Z) :
  in_bounds col row = true
  <-> (0 <= col < MAZE_COLS /\ 0 <= row < MAZE_ROWS).
Proof.
  unfold in_bounds. rewrite !andb_true_iff, !Z.leb_le, !Z.ltb_lt. tauto.
Qed.

Lemma tile_of_range (x : Z) :
  0 <= tile_of x < MAZE_COLS -> 0 <= x < SCREEN_WIDTH * SUB.
Proof.
  intros [H1 H2]. split.
  - destruct (Z_lt_le_dec x 0) as [Hlt|]; [|assumption].
    apply tile_of_negative in Hlt. lia.
  - destruct (Z_lt_le_dec x (SCREEN_WIDTH * SUB)) as [|Hge]; [assumption|].
    apply tile_of_beyond in Hge. lia.
Qed.

Lemma tunnel_wrap_keep (row x keep : Z) :
  0 <= x < SCREEN_WIDTH * SUB -> tunnel_wrap row x keep = keep.
Proof.
  intros [H1 H2]. unfold tunnel_wrap.
  destruct (row =? 14); [|reflexivity].
  destruct (x <? 0) eqn:E1; [apply Z.ltb_lt in E1; lia|].
  destruct (x >=? SCREEN_WIDTH * SUB) eqn:E2; [|reflexivity].
  rewrite Z.geb_leb in E2. apply Z.leb_le in E2. lia.
Qed.

Lemma open_at_walls (m1 m2 : Maze) (col row : Z) :
  walls m1 = walls m2 -> open_at m1 col row -> open_at m2 col row.
Proof.
  intros Hw [Hb [c [Hc Hf]]]. split; [exact Hb|].
  destruct (walls_get m1 m2 row col c Hw Hc) as [c2 [H2 Heq]].
  exists c2. split; [exact H2 | congruence].
Qed.

Lemma layout_open_tiles :
  open_at Game.initial_maze 27 14
  /\ open_at Game.initial_maze 0 14
  /\ open_at Game.initial_maze 13 23.
Proof.
  repeat split; try reflexivity; eexists; split; vm_compute; reflexivity.
Qed.

Lemma pacman_with_x_same (p : Pacman.t) : Pacman.with_x p (Pacman.x p) = p.
Proof. destruct p; reflexivity. Qed.

Lemma pacman_turn_inv (maze : Maze) (p p' : Pacman.t) :
  Pacman.turn maze p = Ok p' ->
  Pacman.x p' = Pacman.x p /\ Pacman.y p' = Pacman.y p
  /\ Pacman.start_tile p' = Pacman.start_tile p
  /\ Pacman.speed p' = Pacman.speed p
  /\ (Pacman.dir p' = Pacman.dir p \/ Pacman.dir p' = Pacman.next_dir p)
  /\ (Pacman.next_dir p' = Pacman.next_dir p \/ Pacman.next_dir p' = NODIR).
Proof.
  unfold Pacman.turn, Pacman.get_tile. intro H.
  destruct (centered _ _ _ _); [|injection H as <-; tauto].
  destruct (negb (dir_eqb _ NODIR)); [|injection H as <-; tauto].
  destruct (in_bounds _ _); [|injection H as <-; tauto].
  inv_bind H.
  destruct (negb (is_wall_or_gate a)); injection H as <-; simpl; tauto.
Qed.

(** A step into a wall or gate is rejected: the player stays where it is
    and its direction is zeroed. *)
Lemma pacman_step_rejected (maze : Maze) (p : Pacman.t) (c : ascii) :
  dir_eqb (Pacman.dir p) NODIR = false ->
  let next_x := Pacman.x p + fst (Pacman.dir p) * Pacman.speed p in
  let next_y := Pacman.y p + snd (Pacman.dir p) * Pacman.speed p in
  in_bounds (tile_of next_x) (tile_of next_y) = true ->
  maze_get maze (tile_of next_y) (tile_of next_x) = Ok c ->
  is_wall_or_gate c = true ->
  Pacman.step maze p = Ok (Pacman.with_dir p NODIR).
Proof.
  intros Hd next_x next_y Hb Hc Hw. unfold Pacman.step.
  rewrite Hd. cbn [negb]. fold next_x next_y. rewrite Hb, Hc. cbn [bind].
  rewrite Hw. cbn [negb bind].
  rewrite tunnel_wrap_keep.
  - now rewrite pacman_with_x_same.
  - apply tile_of_range. apply in_bounds_spec in Hb. tauto.
Qed.

Lemma pacman_step_inv (maze : Maze) (p p' : Pacman.t) :
  walls maze = walls Game.initial_maze ->
  open_tile maze p ->
  cardinal_or_none (Pacman.dir p) ->
  Pacman.step maze p = Ok p' ->
  open_tile maze p'
  /\ (Pacman.dir p' = Pacman.dir p \/ Pacman.dir p' = NODIR)
  /\ Pacman.next_dir p' = Pacman.next_dir p
  /\ Pacman.start_tile p' = Pacman.start_tile p.
Proof.
  intros Hw Hopen Hcard H. unfold Pacman.step in H.
  destruct (dir_eqb (Pacman.dir p) NODIR) eqn:Hd; cbn [negb] in H;
    [injection H as <-; tauto|].
  set (next_x := Pacman.x p + fst (Pacman.dir p) * Pacman.speed p) in *.
  set (next_y := Pacman.y p + snd (Pacman.dir p) * Pacman.speed p) in *.
  destruct (in_bounds (tile_of next_x) (tile_of next_y)) eqn:Hb.
  - assert (Hrange : 0 <= next_x < SCREEN_WIDTH * SUB).
    { apply tile_of_range. apply in_bounds_spec in Hb. tauto. }
    inv_bind H. inv_bind Ha. rename a0 into c.
    destruct (is_wall_or_gate c) eqn:Ec; cbn [negb] in Ha;
      injection Ha as <-; injection H as <-;
      rewrite tunnel_wrap_keep by exact Hrange;
      unfold open_tile;
      cbn [Pacman.x Pacman.y Pacman.dir Pacman.next_dir Pacman.start_tile
           Pacman.with_x Pacman.with_pos Pacman.with_dir].
    + split; [exact Hopen | tauto].
    + split; [|tauto].
      split; [exact Hb|]. exists c. split; [exact Ha0 | exact Ec].
  - cbn [bind] in H. injection H as <-.
    assert (Hx : 0 <= Pacman.x p < SCREEN_WIDTH * SUB).
    { destruct Hopen as [Hbp _]. apply tile_of_range.
      apply in_bounds_spec in Hbp. tauto. }
    split; [|cbn; tauto].
    unfold tunnel_wrap.
    destruct (tile_of next_y =? 14) eqn:Erow;
      [|rewrite pacman_with_x_same; exact Hopen].
    apply Z.eqb_eq in Erow.
    assert (Hside : next_x < 0 \/ SCREEN_WIDTH * SUB <= next_x ->
                    tile_of (Pacman.y p) = 14).
    { intro Hout. rewrite <- Erow. unfold next_y, next_x in *.
      destruct Hcard as [E | [E | [E | [E | E]]]]; rewrite E in *;
        cbn [fst snd UP DOWN LEFT RIGHT NODIR] in *;
        try discriminate Hd; try (f_equal; lia); exfalso; lia. }
    destruct layout_open_tiles as (Hright & Hleft & _).
    destruct (next_x <? 0) eqn:E1.
    + apply Z.ltb_lt in E1.
      unfold open_tile. cbn [Pacman.x Pacman.y Pacman.with_x Pacman.with_pos].
      rewrite Hside by (left; exact E1).
      change (tile_of ((SCREEN_WIDTH - TILE_SIZE / 2) * SUB)) with 27.
      apply (open_at_walls Game.initial_maze maze); [congruence | exact Hright].
    + destruct (next_x >=? SCREEN_WIDTH * SUB) eqn:E2;
        [|rewrite pacman_with_x_same; exact Hopen].
      rewrite Z.geb_leb in E2. apply Z.leb_le in E2.
      unfold open_tile. cbn [Pacman.x Pacman.y Pacman.with_x Pacman.with_pos].
      rewrite Hside by (right; exact E2).
      change (tile_of (TILE_SIZE / 2 * SUB)) with 0.
      apply (open_at_walls Game.initial_maze maze); [congruence | exact Hleft].
Qed.

Lemma player_inv_same (g g' : Game.t) :
  Game.maze g' = Game.maze g ->
  Game.original_maze g' = Game.original_maze g ->
  Game.pacman g' = Game.pacman g ->
  player_inv g -> player_inv g'.
Proof.
  intros Hm Ho Hp. unfold player_inv. now rewrite Hm, Ho, Hp.
Qed.

Lemma player_inv_fresh (g : Game.t) :
  walls (Game.maze g) = walls Game.initial_maze ->
  Game.original_maze g = Game.initial_maze ->
  Game.pacman g = Pacman.init (13, 23) ->
  player_inv g.
Proof.
  intros Hm Ho Hp. unfold player_inv. rewrite Hp.
  split; [exact Hm|]. split; [exact Ho|]. split; [reflexivity|].
  split; [left; reflexivity|]. split; [left; reflexivity|].
  unfold open_tile.
  change (tile_of (Pacman.x (Pacman.init (13, 23)))) with 13.
  change (tile_of (Pacman.y (Pacman.init (13, 23)))) with 23.
  apply (open_at_walls Game.initial_maze); [congruence|].
  apply layout_open_tiles.
Qed.

Lemma start_maze_walls : walls level_start_maze = walls Game.initial_maze.
Proof. vm_compute. reflexivity. Qed.

Lemma player_inv_move (g g1 : Game.t) :
  player_inv g -> Game.move_pacman (Game.animate g) = Ok g1 -> player_inv g1.
Proof.
  intros (Hw & Ho & Hst & Hd & Hn & Hopen) H.
  unfold Game.move_pacman in H. inv_bind H. injection H as <-.
  change (Game.maze (Game.animate g)) with (Game.maze g) in Ha.
  change (Game.pacman (Game.animate g)) with (Game.pacman g) in Ha.
  unfold Pacman.update in Ha. inv_bind Ha. rename a0 into p1.
  destruct (pacman_turn_inv _ _ _ Ha0) as (Hx & Hy & Hs1 & _ & Hd1 & Hn1).
  assert (Hopen1 : open_tile (Game.maze g) p1).
  { unfold open_tile. rewrite Hx, Hy. exact Hopen. }
  assert (Hcard1 : cardinal_or_none (Pacman.dir p1)).
  { destruct Hd1 as [-> | ->]; assumption. }
  destruct (pacman_step_inv _ _ _ Hw Hopen1 Hcard1 Ha) as (Hopen2 & Hd2 & Hn2 & Hs2).
  unfold player_inv.
  change (Game.maze (Game.with_pacman (Game.animate g) a)) with (Game.maze g).
  change (Game.original_maze (Game.with_pacman (Game.animate g) a))
    with (Game.original_maze g).
  change (Game.pacman (Game.with_pacman (Game.animate g) a)) with a.
  split; [exact Hw|]. split; [exact Ho|]. split; [congruence|].
  split; [destruct Hd2 as [-> | ->]; [exact Hcard1 | left; reflexivity]|].
  split; [|exact Hopen2].
  rewrite Hn2. destruct Hn1 as [-> | ->]; [exact Hn | left; reflexivity].
Qed.

Lemma player_inv_eat (g g' : Game.t) :
  player_inv g -> Game.eat_pellet g = Ok g' -> player_inv g'.
Proof.
  intros Hinv H.
  assert (Hpac : Game.pacman g' = Game.pacman g).
  { apply (eat_pellet_keeps Game.pacman g g'); try exact H;
      try (intros ? [] ?; reflexivity); intros; reflexivity. }
  assert (Horig : Game.original_maze g' = Game.original_maze g).
  { apply (eat_pellet_keeps Game.original_maze g g'); try exact H;
      try (intros ? [] ?; reflexivity); intros; reflexivity. }
  destruct Hinv as (Hw & Ho & Hst & Hd & Hn & Hopen).
  assert (Hwalls : walls (Game.maze g') = walls (Game.maze g)).
  { unfold Game.eat_pellet in H.
    destruct (Pacman.get_tile (Game.pacman g)) as [col row].
    inv_bind H.
    destruct (Ascii.eqb a ".") eqn:E1; [|destruct (Ascii.eqb a "o") eqn:E2].
    - inv_bind H. injection H as <-.
      apply (maze_set_walls _ _ _ _ _ Ha (proj2 (proj1 (pellet_chars a) E1)) Ha0).
    - inv_bind H. injection H as <-.
      rewrite (frighten_ghosts_free Game.maze) by ghost_free.
      apply (maze_set_walls _ _ _ _ _ Ha (proj2 (proj2 (pellet_chars a) E2)) Ha0).
    - injection H as <-. reflexivity. }
  unfold player_inv. rewrite Hpac, Horig, Hwalls.
  split; [exact Hw|]. split; [exact Ho|]. split; [exact Hst|].
  split; [exact Hd|]. split; [exact Hn|].
  apply (open_at_walls (Game.maze g)); [congruence | exact Hopen].
Qed.

Lemma player_inv_update_game (rnd : Name -> nat) (g g' : Game.t) :
  player_inv g -> Game.update_game rnd g = Ok g' -> player_inv g'.
Proof.
  intros Hinv H. unfold Game.update_game in H. inv_bind H. rename a into g1.
  fold (pac_rect g1) in H. inv_bind H. rename a into r.
  assert (Hinv1 : player_inv g1).
  { rewrite before_collisions_split in Ha. inv_bind Ha. rename a into ge.
    assert (Hinv_e : player_inv ge).
    { unfold player_stage in Ha1. inv_bind Ha1.
      apply (player_inv_eat a ge); [|exact Ha1].
      now apply (player_inv_move g a). }
    apply (player_inv_same ge g1); [| | |exact Hinv_e].
    - rewrite (update_ghosts_free Game.maze rnd ltac:(ghost_free) _ _ _ Ha).
      now rewrite release_ghosts_free, update_power_free by schedule_free.
    - rewrite (update_ghosts_free Game.original_maze rnd ltac:(ghost_free) _ _ _ Ha).
      now rewrite release_ghosts_free, update_power_free by schedule_free.
    - rewrite (update_ghosts_free Game.pacman rnd ltac:(ghost_free) _ _ _ Ha).
      now rewrite release_ghosts_free, update_power_free by schedule_free. }
  assert (Hinv_r : player_inv (fst r)).
  { apply (player_inv_same g1 (fst r)); [| | |exact Hinv1].
    - apply (check_collisions_free Game.maze _ ltac:(collision_free) _ _ _ Ha0).
    - apply (check_collisions_free Game.original_maze _ ltac:(collision_free) _ _ _ Ha0).
    - apply (check_collisions_free Game.pacman _ ltac:(collision_free) _ _ _ Ha0). }
  destruct (snd r); [injection H as <-; exact Hinv_r|].
  unfold Game.check_level_completion in H.
  destruct (_ >=? _); [|injection H as <-; exact Hinv_r].
  inv_bind H. injection H as <-.
  destruct Hinv_r as (_ & Ho & _).
  destruct (reset_level_spec (Game.with_level (fst r) (Game.level (fst r) + 1)) Ho)
    as [g3 (Hr & _ & Hmz & Hpac & _ & _ & _ & _ & _ & _ & _ & _ & _ & _ & Ho3 & _)].
  rewrite Hr in Ha1. injection Ha1 as <-.
  apply (player_inv_same g3); try reflexivity.
  apply player_inv_fresh; [rewrite Hmz; apply start_maze_walls | exact Ho3 | exact Hpac].
Qed.

Lemma player_inv_respawn (g : Game.t) :
  player_inv g -> player_inv (Game.reset_positions g).
Proof.
  intros (Hw & Ho & Hst & _).
  apply player_inv_fresh.
  - exact Hw.
  - exact Ho.
  - change (Game.pacman (Game.reset_positions g))
      with (Pacman.init (Pacman.start_tile (Game.pacman g))).
    now rewrite Hst.
Qed.

Lemma player_inv_update (rnd : Name -> nat) (g g' : Game.t) :
  player_inv g -> Game.update rnd g = Ok g' -> player_inv g'.
Proof.
  intros Hinv H. unfold Game.update in H.
  destruct (Game.state g).
  - destruct (_ <=? 0); injection H as <-; exact Hinv.
  - now apply (player_inv_update_game rnd g g').
  - destruct (_ <=? 0); [|injection H as <-; exact Hinv].
    destruct (_ <=? 0).
    + destruct (_ >? _); injection H as <-; exact Hinv.
    + injection H as <-.
      match goal with
      | |- player_inv (Game.with_state_timer
                         (Game.with_state (Game.reset_positions ?x) _) _) =>
          assert (Hx : player_inv (Game.reset_positions x))
            by (apply player_inv_respawn; exact Hinv);
          revert Hx; generalize (Game.reset_positions x)
      end.
      intros g1 Hx. apply (player_inv_same g1); [reflexivity..|exact Hx].
  - injection H as <-. exact Hinv.
Qed.

Lemma player_inv_input (keys : Keys) (g : Game.t) :
  player_inv g -> player_inv (Game.handle_input keys g).
Proof.
  intros Hinv. unfold Game.handle_input.
  destruct (phase_eqb _ PLAYING); [|exact Hinv].
  destruct Hinv as (Hw & Ho & Hst & Hd & Hn & Hopen).
  destruct (K_UP keys); [|destruct (K_DOWN keys);
    [|destruct (K_LEFT keys); [|destruct (K_RIGHT keys)]]];
    try (repeat split; assumption);
    (split; [exact Hw|]; split; [exact Ho|]; split; [exact Hst|];
     split; [exact Hd|]; split; [|exact Hopen];
     unfold cardinal_or_none; cbn; tauto).
Qed.

Lemma player_inv_frame (r : bool) (keys : Keys) (rnd : Name -> nat) (g g' : Game.t) :
  player_inv g -> Game.frame r keys rnd g = Ok g' -> player_inv g'.
Proof.
  intros Hinv H. unfold Game.frame in H. inv_bind H. rename a into g1.
  apply (player_inv_update rnd (Game.handle_input keys g1) g'); [|exact H].
  apply player_inv_input.
  destruct r; [|injection Ha as <-; exact Hinv].
  unfold Game.restart in Ha.
  destruct (phase_eqb (Game.state g) GAME_OVER); [|injection Ha as <-; exact Hinv].
  inv_bind Ha. injection Ha as <-.
  destruct Hinv as (_ & Ho & _).
  destruct (reset_level_spec
              (Game.with_level (Game.with_lives (Game.with_score g 0) START_LIVES) 1) Ho)
    as [g3 (Hr & _ & Hmz & Hpac & _ & _ & _ & _ & _ & _ & _ & _ & _ & _ & Ho3 & _)].
  rewrite Hr in Ha0. injection Ha0 as <-.
  apply (player_inv_same g3); try reflexivity.
  apply player_inv_fresh; [rewrite Hmz; apply start_maze_walls | exact Ho3 | exact Hpac].
Qed.

Lemma player_inv_reachable (g : Game.t) : reachable g -> player_inv g.
Proof.
  induction 1 as [g Hinit | g g' r keys rnd Hr IH Hf].
  - unfold Game.init in Hinit.
    destruct (reset_level_spec Game.blank eq_refl)
      as [g3 (Hr & _ & Hmz & Hpac & _ & _ & _ & _ & _ & _ & _ & _ & _ & _ & Ho3 & _)].
    rewrite Hr in Hinit. injection Hinit as <-.
    apply player_inv_fresh; [rewrite Hmz; apply start_maze_walls | exact Ho3 | exact Hpac].
  - now apply (player_inv_frame r keys rnd g g').
Qed.

Lemma frames_reachable (inputs : list (bool * Keys * (Name -> nat))) :
  forall g g', reachable g -> frames inputs g = Ok g' -> reachable g'.
Proof.
  induction inputs as [|[[r keys] rnd] rest IH]; intros g g' Hr H; simpl in H.
  - now injection H as <-.
  - inv_bind H. apply (IH a g'); [|exact H].
    now apply (reachable_frame g a r keys rnd).
Qed.

Lemma idle_frames_reachable (n : nat) (g g' : Game.t) :
  reachable g -> idle_frames n g = Ok g' -> reachable g'.
Proof. unfold idle_frames. apply frames_reachable. Qed.

(** C1, as the source has it.  The player's step is wall-aware: when the
    tile it would enter lies in the grid and is a wall or a gate, the step
    is rejected, the position is unchanged and the direction is zeroed; and
    in every reachable state the player stands on a tile of the grid that is
    neither wall nor gate.  The adversary's step consults no maze: it always
    advances by direction times speed (then applies the tunnel rule) and
    keeps its direction. *)
Theorem player_never_enters_wall
    (g : Game.t) (maze : Maze) (p : Pacman.t) (c : ascii) (gh : Ghost.t)
    (Hreach : reachable g)
    (Hmoving : dir_eqb (Pacman.dir p) NODIR = false)
    (Hgrid : in_bounds
               (tile_of (Pacman.x p + fst (Pacman.dir p) * Pacman.speed p))
               (tile_of (Pacman.y p + snd (Pacman.dir p) * Pacman.speed p)) = true)
    (Hcell : maze_get maze
               (tile_of (Pacman.y p + snd (Pacman.dir p) * Pacman.speed p))
               (tile_of (Pacman.x p + fst (Pacman.dir p) * Pacman.speed p)) = Ok c)
    (Hwall : is_wall_or_gate c = true) :
  (exists p',
      Pacman.step maze p = Ok p'
      /\ Pacman.x p' = Pacman.x p /\ Pacman.y p' = Pacman.y p
      /\ Pacman.dir p' = NODIR)
  /\ open_tile (Game.maze g) (Game.pacman g)
  /\ Ghost.y (Ghost.move_in_direction gh)
     = Ghost.y gh + snd (Ghost.dir gh) * Ghost.speed gh
  /\ Ghost.x (Ghost.move_in_direction gh)
     = tunnel_wrap (tile_of (Ghost.y gh + snd (Ghost.dir gh) * Ghost.speed gh))
         (Ghost.x gh + fst (Ghost.dir gh) * Ghost.speed gh)
         (Ghost.x gh + fst (Ghost.dir gh) * Ghost.speed gh)
  /\ Ghost.dir (Ghost.move_in_direction gh) = Ghost.dir gh.
Proof.
  split.
  - exists (Pacman.with_dir p NODIR).
    split; [now apply (pacman_step_rejected maze p c)|].
    split; [reflexivity|]. split; reflexivity.
  - split; [apply (player_inv_reachable g Hreach)|].
    split; [reflexivity|]. split; reflexivity.
Qed.

Lemma player_never_enters_wall_witness :
  open_tile (Game.maze game0) (Game.pacman game0)
  /\ Pacman.step Game.initial_maze (Pacman.mk (13, 23) 2700 4790 DOWN NODIR 15)
     = Ok (Pacman.mk (13, 23) 2700 4790 NODIR NODIR 15).
Proof.
  destruct (player_never_enters_wall game0 Game.initial_maze
              (Pacman.mk (13, 23) 2700 4790 DOWN NODIR 15) "#"%char
              (Game.blinky game0)
              (reachable_init game0 init_ok) eq_refl)
    as [[p' (Hs & Hx & Hy & Hd)] [Hopen _]].
  - vm_compute. reflexivity.
  - vm_compute. reflexivity.
  - reflexivity.
  - split; [exact Hopen|].
    rewrite Hs. f_equal.
    destruct p' as [st x y d nd sp]. cbn in Hx, Hy, Hd. subst.
    vm_compute in Hs. injection Hs as <- <- <-. reflexivity.
Defined.

(** C1 as stated fails for adversaries: 144 idle frames into a game the
    leader is on tile (14, 11) heading up towards tile (14, 10), a wall; the
    next frame moves it 1.2 pixels up onto that wall tile instead of leaving
    it in place. *)
Lemma adversary_steps_onto_wall :
  idle_frames 144 game0 = Ok before_wall
  /\ Game.frame false no_keys rnd0 before_wall = Ok in_wall
  /\ reachable in_wall
  /\ Ghost.get_tile (Game.blinky before_wall) = (14, 11)
  /\ Ghost.dir (Game.blinky before_wall) = UP
  /\ maze_get (Game.maze before_wall) 10 14 = Ok "#"%char
  /\ Ghost.y (Game.blinky in_wall) = Ghost.y (Game.blinky before_wall) - 12
  /\ Ghost.get_tile (Game.blinky in_wall) = (14, 10)
  /\ maze_get (Game.maze in_wall) 10 14 = Ok "#"%char.
Proof.
  assert (H1 : idle_frames 144 game0 = Ok before_wall) by (vm_compute; reflexivity).
  assert (H2 : Game.frame false no_keys rnd0 before_wall = Ok in_wall)
    by (vm_compute; reflexivity).
  split; [exact H1|]. split; [exact H2|].
  split.
  { apply (reachable_frame before_wall in_wall false no_keys rnd0); [|exact H2].
    apply (idle_frames_reachable 144 game0 before_wall);
      [exact (reachable_init game0 init_ok) | exact H1]. }
  split; [vm_compute; reflexivity|].
  split; [vm_compute; reflexivity|].
  split; [vm_compute; reflexivity|].
  split; [vm_compute; reflexivity|].
  split; vm_compute; reflexivity.
Qed.
(** ** Python list writes and the maze *)

Lemma nth_error_replace_same {A : Type} (l : list A) (n : nat) (v : A) :
  (n < List.length l)%nat -> nth_error (replace_nth l n v) n = Some v.
Proof.
  revert n; induction l as [|h t IH]; intros [|n] H; simpl in *; try lia; auto.
  apply IH. lia.
Qed.

Lemma nth_error_replace_other {A : Type} (l : list A) (n k : nat) (v : A) :
  n <> k -> nth_error (replace_nth l n v) k = nth_error l k.
Proof.
  revert n k; induction l as [|h t IH]; intros [|n] [|k] H; simpl; auto;
    congruence.
Qed.

Lemma py_set_get {A : Type} (l l' : list A) (i : Z) (v : A) :
  py_set l i v = Ok l' -> py_get l' i = Ok v.
Proof.
  unfold py_set, py_get.
  destruct (py_norm (Z.of_nat (List.length l)) i) as [n|] eqn:E; [|discriminate].
  intros [= <-]. rewrite replace_nth_length, E.
  rewrite nth_error_replace_same; [reflexivity|].
  apply py_norm_lt in E. lia.
Qed.

Lemma py_set_get_other {A : Type} (l l' : list A) (i j : Z) (v : A) :
  py_set l i v = Ok l' -> 0 <= i -> 0 <= j -> i <> j ->
  py_get l' j = py_get l j.
Proof.
  unfold py_set, py_get.
  destruct (py_norm (Z.of_nat (List.length l)) i) as [n|] eqn:E; [|discriminate].
  intros [= <-] Hi Hj Hne. rewrite replace_nth_length.
  destruct (py_norm (Z.of_nat (List.length l)) j) as [k|] eqn:Ek; [|reflexivity].
  rewrite nth_error_replace_other; [reflexivity|].
  unfold py_norm in E, Ek.
  destruct ((0 <=? i) && (i <? _)); [|destruct ((_ <=? i) && (i <? 0)) eqn:E2;
    [apply andb_true_iff in E2 as [_ E2]; apply Z.ltb_lt in E2; lia | discriminate]].
  destruct ((0 <=? j) && (j <? _)); [|destruct ((_ <=? j) && (j <? 0)) eqn:E2;
    [apply andb_true_iff in E2 as [_ E2]; apply Z.ltb_lt in E2; lia | discriminate]].
  injection E as <-. injection Ek as <-. lia.
Qed.

Lemma maze_set_get_same (m m' : Maze) (row col : Z) (v : ascii) :
  maze_set m row col v = Ok m' -> maze_get m' row col = Ok v.
Proof.
  intro Hset. unfold maze_set in Hset. inv_bind Hset. inv_bind Hset.
  unfold maze_get. rewrite (py_set_get _ _ _ _ Hset). cbn [bind].
  exact (py_set_get _ _ _ _ Ha0).
Qed.

(** X1.  Reading back a maze cell that was just written gives the written
    character, and every other cell at non-negative indices reads as it did
    before the write (an IndexError before is an IndexError after). *)
Theorem maze_set_then_get
    (m m' : Maze) (row col : Z) (v : ascii)
    (Hset : maze_set m row col v = Ok m') :
  maze_get m' row col = Ok v
  /\ forall row' col',
       0 <= row -> 0 <= col -> 0 <= row' -> 0 <= col' ->
       (row', col') <> (row, col) ->
       maze_get m' row' col' = maze_get m row' col'.
Proof.
  split; [exact (maze_set_get_same _ _ _ _ _ Hset)|].
  unfold maze_set in Hset. inv_bind Hset. rename a into r.
  inv_bind Hset. rename a into r'.
  - intros row' col' Hr Hc Hr' Hc' Hne. unfold maze_get.
    destruct (Z.eq_dec row row') as [<- | Hrow].
    + rewrite (py_set_get _ _ _ _ Hset), Ha. cbn [bind].
      apply (py_set_get_other _ _ _ _ _ Ha0); try assumption.
      intro Heq. apply Hne. now rewrite Heq.
    + now rewrite (py_set_get_other _ _ _ _ _ Hset) by assumption.
Qed.

Lemma maze_set_then_get_witness :
  exists m',
    maze_set Game.initial_maze 23 13 " "%char = Ok m'
    /\ maze_get m' 23 13 = Ok " "%char
    /\ maze_get m' 23 12 = Ok "."%char.
Proof.
  exists level_start_maze.
  assert (H : maze_set Game.initial_maze 23 13 " "%char = Ok level_start_maze)
    by (vm_compute; reflexivity).
  destruct (maze_set_then_get _ _ _ _ _ H) as [H1 H2].
  split; [exact H|]. split; [exact H1|].
  rewrite H2; [vm_compute; reflexivity | lia | lia | lia | lia | discriminate].
Defined.

(** ** Eating *)

Lemma is_pellet_cases (c : ascii) :
  is_pellet c = Ascii.eqb c "." || Ascii.eqb c "o".
Proof. reflexivity. Qed.

Lemma eat_pellet_blank (g : Game.t) :
  maze_get (Game.maze g) (tile_of (Pacman.y (Game.pacman g)))
    (tile_of (Pacman.x (Game.pacman g))) = Ok " "%char ->
  Game.eat_pellet g = Ok g.
Proof.
  intro H. unfold Game.eat_pellet, Pacman.get_tile. rewrite H. reflexivity.
Qed.

(** X2.  What one pellet check does.  The cell under the player is read;
    a dot adds 10 points, a power pellet 50, anything else nothing; the
    pellet counter grows by one exactly when the cell held a pellet, the
    number of pellets left in the maze drops by the same amount and the
    cell is blank afterwards; a cell without a pellet leaves the whole
    state as it was; the player is not moved; and checking again on the
    spot changes nothing, so no pellet is counted twice. *)
Theorem eat_pellet_accounting (g g' : Game.t)
    (Heat : Game.eat_pellet g = Ok g') :
  let col := tile_of (Pacman.x (Game.pacman g)) in
  let row := tile_of (Pacman.y (Game.pacman g)) in
  exists c,
    maze_get (Game.maze g) row col = Ok c
    /\ Game.score g' - Game.score g
       = (if Ascii.eqb c "." then DOT_SCORE
          else if Ascii.eqb c "o" then POWER_DOT_SCORE else 0)
    /\ Game.pellets_eaten g' - Game.pellets_eaten g
       = (if is_pellet c then 1 else 0)
    /\ count_maze (Game.maze g')
       = count_maze (Game.maze g) - (if is_pellet c then 1 else 0)
    /\ (is_pellet c = true -> maze_get (Game.maze g') row col = Ok " "%char)
    /\ (is_pellet c = false -> g' = g)
    /\ Game.pacman g' = Game.pacman g
    /\ Game.eat_pellet g' = Ok g'.
Proof.
  intros col row.
  assert (Hpac : Game.pacman g' = Game.pacman g).
  { apply (eat_pellet_keeps Game.pacman g g'); try exact Heat;
      try (intros ? [] ?; reflexivity); intros; reflexivity. }
  unfold Game.eat_pellet, Pacman.get_tile in Heat.
  fold col row in Heat. cbv beta iota in Heat.
  inv_bind Heat. rename a into c. exists c.
  split; [exact Ha|].
  rewrite is_pellet_cases.
  destruct (Ascii.eqb c ".") eqn:E1; [|destruct (Ascii.eqb c "o") eqn:E2].
  - inv_bind Heat. rename a into m'. injection Heat as <-.
    assert (Hp : is_pellet c = true) by (now rewrite is_pellet_cases, E1).
    pose proof (maze_set_count _ _ _ _ _ Ha Hp Ha0) as Hcount.
    pose proof (maze_set_get_same _ _ _ _ _ Ha0) as Hget.
    cbn [orb].
    split; [cbn; lia|]. split; [cbn; lia|]. split; [exact Hcount|].
    split; [intros _; exact Hget|]. split; [discriminate|].
    split; [reflexivity|].
    apply eat_pellet_blank. exact Hget.
  - inv_bind Heat. rename a into m'. injection Heat as <-.
    assert (Hp : is_pellet c = true) by (now rewrite is_pellet_cases, E1, E2).
    pose proof (maze_set_count _ _ _ _ _ Ha Hp Ha0) as Hcount.
    pose proof (maze_set_get_same _ _ _ _ _ Ha0) as Hget.
    cbn [orb].
    rewrite (frighten_ghosts_free Game.score) by ghost_free.
    rewrite (frighten_ghosts_free Game.pellets_eaten) by ghost_free.
    rewrite (frighten_ghosts_free Game.maze) by ghost_free.
    split; [cbn; lia|]. split; [cbn; lia|]. split; [exact Hcount|].
    split; [intros _; exact Hget|]. split; [discriminate|].
    split; [exact Hpac|].
    apply eat_pellet_blank.
    rewrite (frighten_ghosts_free Game.maze) by ghost_free.
    rewrite (frighten_ghosts_free Game.pacman) by ghost_free.
    exact Hget.
  - injection Heat as <-. cbn [orb].
    split; [lia|]. split; [lia|]. split; [lia|].
    split; [discriminate|]. split; [reflexivity|]. split; [reflexivity|].
    unfold Game.eat_pellet, Pacman.get_tile. fold col row.
    cbv beta iota. rewrite Ha. cbn [bind]. now rewrite E1, E2.
Qed.

Lemma eat_pellet_accounting_witness :
  let g := Game.with_pacman game0 (Pacman.with_pos (Game.pacman game0) 300 700) in
  exists g',
    Game.eat_pellet g = Ok g'
    /\ Game.score g' - Game.score g = 50
    /\ Game.eat_pellet g' = Ok g'.
Proof.
  intro g.
  destruct (eat_power_pellet_streak g 1 3 eq_refl eq_refl) as [g' [H _]].
  destruct (eat_pellet_accounting g g' H) as [c (Hc & Hs & _ & _ & _ & _ & _ & Hi)].
  exists g'. split; [exact H|]. split; [|exact Hi].
  assert (Hc' : maze_get (Game.maze g) 3 1 = Ok c) by exact Hc.
  vm_compute in Hc'. injection Hc' as <-. exact Hs.
Defined.

(** ** Frames do not raise *)

Lemma layout_rows :
  List.length Game.initial_maze = 31%nat
  /\ forall r, In r Game.initial_maze -> List.length r = 28%nat.
Proof.
  split; [reflexivity|].
  assert (H : forallb (fun r => Nat.eqb (List.length r) 28) Game.initial_maze = true)
    by (vm_compute; reflexivity).
  rewrite forallb_forall in H. intros r Hr. apply Nat.eqb_eq. now apply H.
Qed.

Lemma maze_get_total (m : Maze) (col row : Z) :
  walls m = walls Game.initial_maze ->
  in_bounds col row = true ->
  exists c, maze_get m row col = Ok c.
Proof.
  intros Hw Hb. apply in_bounds_spec in Hb as [Hc Hr].
  destruct layout_rows as [Hlen Hrows].
  destruct (py_get_in_range Game.initial_maze row) as [r Hrow].
  { rewrite Hlen. unfold MAZE_ROWS in Hr. lia. }
  assert (Hin : In r Game.initial_maze).
  { apply py_get_nth in Hrow as [n [_ Hn]]. now apply nth_error_In in Hn. }
  destruct (py_get_in_range r col) as [c Hcell].
  { rewrite (Hrows r Hin). unfold MAZE_COLS in Hc. lia. }
  assert (H0 : maze_get Game.initial_maze row col = Ok c).
  { unfold maze_get. rewrite Hrow. exact Hcell. }
  destruct (walls_get Game.initial_maze m row col c (eq_sym Hw) H0) as [c2 [H2 _]].
  eauto.
Qed.

Lemma pacman_update_total (maze : Maze) (p : Pacman.t) :
  walls maze = walls Game.initial_maze ->
  exists p', Pacman.update maze p = Ok p'.
Proof.
  intro Hw.
  assert (Hturn : exists p1, Pacman.turn maze p = Ok p1).
  { unfold Pacman.turn, Pacman.get_tile.
    destruct (centered _ _ _ _); [|eauto].
    destruct (negb (dir_eqb _ NODIR)); [|eauto].
    destruct (in_bounds _ _) eqn:Hb; [|eauto].
    destruct (maze_get_total maze _ _ Hw Hb) as [c Hc]. rewrite Hc. cbn [bind].
    destruct (negb (is_wall_or_gate c)); eauto. }
  destruct Hturn as [p1 Hp1]. unfold Pacman.update. rewrite Hp1. cbn [bind].
  unfold Pacman.step.
  destruct (negb (dir_eqb _ NODIR)); [|eauto].
  destruct (in_bounds _ _) eqn:Hb; [|cbn [bind]; eauto].
  destruct (maze_get_total maze _ _ Hw Hb) as [c Hc]. rewrite Hc. cbn [bind].
  destruct (negb (is_wall_or_gate c)); cbn [bind]; eauto.
Qed.

Lemma player_stage_total (g : Game.t) :
  player_inv g -> exists ge, player_stage g = Ok ge.
Proof.
  intro Hinv. unfold player_stage.
  destruct (pacman_update_total (Game.maze g) (Game.pacman g)) as [p Hp];
    [apply Hinv|].
  assert (Hm : Game.move_pacman (Game.animate g)
               = Ok (Game.with_pacman (Game.animate g) p)).
  { unfold Game.move_pacman.
    change (Game.maze (Game.animate g)) with (Game.maze g).
    change (Game.pacman (Game.animate g)) with (Game.pacman g).
    now rewrite Hp. }
  rewrite Hm. cbn [bind].
  pose proof (player_inv_move g _ Hinv Hm) as Hinv1.
  revert Hinv1. generalize (Game.with_pacman (Game.animate g) p). intros g1 Hinv1.
  destruct Hinv1 as (_ & _ & _ & _ & _ & [_ [c [Hc _]]]).
  unfold Game.eat_pellet, Pacman.get_tile. rewrite Hc. cbn [bind].
  destruct (maze_set_total _ _ _ _ " "%char Hc) as [m' Hm'].
  destruct (Ascii.eqb c "."); [rewrite Hm'; cbn [bind]; eauto|].
  destruct (Ascii.eqb c "o"); [rewrite Hm'; cbn [bind]; eauto | eauto].
Qed.

Lemma player_stage_modes (g ge : Game.t) :
  player_stage g = Ok ge ->
  forall n, Ghost.mode (Game.get_ghost ge n) = Ghost.mode (Game.get_ghost g n).
Proof.
  intros H n. destruct (player_stage_ghost g ge n H) as [-> | ->];
    [reflexivity | apply frighten_keeps].
Qed.

Lemma check_collisions_streak (rect : Rect) (names : list Name) :
  forall g r,
    Game.check_collisions rect names g = Ok r ->
    Game.ghost_eat_count g <= Game.ghost_eat_count (fst r).
Proof.
  induction names as [|n rest IH]; intros g r H; simpl in H.
  - injection H as <-. simpl. lia.
  - destruct (mode_eqb _ Dead); [now apply IH|].
    destruct (colliderect rect _); [|now apply IH].
    destruct (Ghost.frightened _).
    + inv_bind H. apply IH in H.
      unfold Game.eat_ghost in Ha. inv_bind Ha. injection Ha as <-.
      replace (Game.ghost_eat_count g)
        with (Game.ghost_eat_count
                (Game.set_ghost g n (Ghost.die (Game.get_ghost g n))))
        by (destruct n; reflexivity).
      revert H. generalize (Game.set_ghost g n (Ghost.die (Game.get_ghost g n))).
      intros g0 H. cbn in H. lia.
    + injection H as <-. cbn. lia.
Qed.

Lemma sound_modes_fresh (g : Game.t) :
  Game.blinky g = Ghost.init Blinky (13, 11) (25, 0) ->
  Game.pinky g = Ghost.init Pinky (13, 14) (2, 0) ->
  Game.inky g = Ghost.init Inky (11, 14) (27, 29) ->
  Game.clyde g = Ghost.init Clyde (15, 14) (0, 29) ->
  Game.ghost_eat_count g = 0 ->
  sound_modes g.
Proof.
  intros Hb Hp Hi Hc Hk. split; [|lia].
  intros []; cbn [Game.get_ghost]; rewrite ?Hb, ?Hp, ?Hi, ?Hc; discriminate.
Qed.

Lemma sound_modes_same (g g' : Game.t) :
  (forall n, Game.get_ghost g' n = Game.get_ghost g n) ->
  Game.ghost_eat_count g' = Game.ghost_eat_count g ->
  sound_modes g -> sound_modes g'.
Proof.
  intros Hg Hk [Hm Hc]. split; [|lia].
  intro n. rewrite Hg. apply Hm.
Qed.

Lemma reset_level_safe (g g' : Game.t) :
  Game.original_maze g = Game.initial_maze ->
  Game.reset_level g = Ok g' -> safe g'.
Proof.
  intros Ho H.
  destruct (reset_level_spec g Ho)
    as [g3 (Hr & _ & Hmz & Hpac & Hb & Hp & Hi & Hc & _ & Hk & _ & _ & _ & _ & Ho3 & _)].
  rewrite Hr in H. injection H as <-. split.
  - apply player_inv_fresh; [rewrite Hmz; apply start_maze_walls | exact Ho3 | exact Hpac].
  - now apply sound_modes_fresh.
Qed.

Lemma before_collisions_safe (rnd : Name -> nat) (g : Game.t) :
  safe g ->
  exists g1, Game.before_collisions rnd g = Ok g1 /\ sound_modes g1.
Proof.
  intros [Hinv [Hm Hk]]. rewrite before_collisions_split.
  destruct (player_stage_total g Hinv) as [ge Hge]. rewrite Hge. cbn [bind].
  assert (Hme : forall n, Ghost.mode (Game.get_ghost ge n) <> Chase).
  { intro n. rewrite (player_stage_modes g ge Hge). apply Hm. }
  pose proof (player_stage_streak g ge Hge Hk) as Hke.
  assert (Hmp : forall n, Ghost.mode (Game.get_ghost (Game.update_power ge) n) <> Chase).
  { intro n. apply (update_power_ghost (fun gh => Ghost.mode gh <> Chase)); auto. }
  pose proof (release_ghosts_no_chase _ Hmp) as Hmr.
  destruct (update_ghosts_total rnd _ Hmr) as [g1 [Hg1 Hm1]].
  exists g1. split; [exact Hg1|]. split; [exact Hm1|].
  rewrite (update_ghosts_free Game.ghost_eat_count rnd ltac:(ghost_free) _ _ _ Hg1).
  now rewrite release_ghosts_free, update_power_free by schedule_free.
Qed.

Lemma update_game_safe (rnd : Name -> nat) (g : Game.t) :
  safe g -> exists g', Game.update_game rnd g = Ok g' /\ safe g'.
Proof.
  intro Hs.
  assert (Hex : exists g', Game.update_game rnd g = Ok g' /\ sound_modes g').
  { destruct (before_collisions_safe rnd g Hs) as [g1 [Hg1 [Hm1 Hk1]]].
    unfold Game.update_game. rewrite Hg1. cbn [bind]. fold (pac_rect g1).
    destruct (check_collisions_total (pac_rect g1) Game.ghosts g1 Hk1) as [r Hr].
    rewrite Hr. cbn [bind].
    assert (Hsr : sound_modes (fst r)).
    { split.
      - intro n. destruct (check_collisions_ghost _ n _ _ _ Hr) as [-> | [-> _]];
          [apply Hm1 | discriminate].
      - pose proof (check_collisions_streak _ _ _ _ Hr). lia. }
    destruct (snd r); [eauto|].
    unfold Game.check_level_completion.
    destruct (_ >=? _); [|eauto].
    assert (Ho : Game.original_maze
                   (Game.with_level (fst r) (Game.level (fst r) + 1))
                 = Game.initial_maze).
    { change (Game.original_maze (fst r) = Game.initial_maze).
      rewrite (check_collisions_free Game.original_maze _ ltac:(collision_free) _ _ _ Hr).
      rewrite (before_collisions_free Game.original_maze rnd g g1 ltac:(tick_free) Hg1).
      apply Hs. }
    destruct (reset_level_spec _ Ho)
      as [g3 (Hr3 & _ & _ & _ & Hb & Hp & Hi & Hc & _ & Hk & _)].
    rewrite Hr3. cbn [bind]. eexists. split; [reflexivity|].
    apply (sound_modes_same g3); [intros []; reflexivity | reflexivity |].
    now apply sound_modes_fresh. }
  destruct Hex as [g' [Hg' Hs']]. exists g'. split; [exact Hg'|].
  split; [|exact Hs'].
  apply (player_inv_update_game rnd g g'); [apply Hs | exact Hg'].
Qed.

Lemma reset_positions_get (g : Game.t) (n : Name) :
  Game.get_ghost (Game.reset_positions g) n = Ghost.reset (Game.get_ghost g n).
Proof. destruct n; reflexivity. Qed.

Lemma reset_mode (gh : Ghost.t) : Ghost.mode (Ghost.reset gh) <> Chase.
Proof. unfold Ghost.reset. cbn. destruct (name_eqb _ _); discriminate. Qed.

Lemma sound_modes_respawn (g : Game.t) :
  sound_modes g -> sound_modes (Game.reset_positions g).
Proof.
  intros [_ Hk]. split; [|exact Hk].
  intro n. rewrite reset_positions_get. apply reset_mode.
Qed.

Lemma update_safe (rnd : Name -> nat) (g : Game.t) :
  safe g -> exists g', Game.update rnd g = Ok g' /\ safe g'.
Proof.
  intro Hs.
  destruct (Game.state g) eqn:Est.
  - unfold Game.update. rewrite Est.
    destruct (_ <=? 0); eexists; (split; [reflexivity | exact Hs]).
  - unfold Game.update. rewrite Est. now apply update_game_safe.
  - assert (Hex : exists g', Game.update rnd g = Ok g').
    { unfold Game.update. rewrite Est.
      destruct (_ <=? 0); [|eauto]. destruct (_ <=? 0); [|eauto].
      destruct (_ >? _); eauto. }
    destruct Hex as [g' Hg']. exists g'. split; [exact Hg'|].
    split; [apply (player_inv_update rnd g g'); [apply Hs | exact Hg']|].
    unfold Game.update in Hg'. rewrite Est in Hg'.
    destruct (_ <=? 0); [|injection Hg' as <-; apply Hs].
    destruct (_ <=? 0).
    + destruct (_ >? _); injection Hg' as <-; apply Hs.
    + injection Hg' as <-.
      match goal with
      | |- sound_modes (Game.with_state_timer
                          (Game.with_state (Game.reset_positions ?x) _) _) =>
          assert (Hx : sound_modes (Game.reset_positions x))
            by (apply sound_modes_respawn; apply Hs);
          revert Hx; generalize (Game.reset_positions x)
      end.
      intros g1 Hx. apply (sound_modes_same g1);
        [intros []; reflexivity | reflexivity | exact Hx].
  - unfold Game.update. rewrite Est. eauto.
Qed.

Lemma input_safe (keys : Keys) (g : Game.t) :
  safe g -> safe (Game.handle_input keys g).
Proof.
  intros [Hinv Hs]. split; [now apply player_inv_input|].
  unfold Game.handle_input.
  destruct (phase_eqb _ PLAYING); [|exact Hs].
  destruct (K_UP keys); [|destruct (K_DOWN keys);
    [|destruct (K_LEFT keys); [|destruct (K_RIGHT keys)]]];
    try exact Hs;
    (apply (sound_modes_same g); [intros []; reflexivity | reflexivity | exact Hs]).
Qed.

Lemma restart_safe (g : Game.t) :
  safe g -> exists g', Game.restart g = Ok g' /\ safe g'.
Proof.
  intro Hs. unfold Game.restart.
  destruct (phase_eqb (Game.state g) GAME_OVER); [|eauto].
  assert (Ho : Game.original_maze
                 (Game.with_level (Game.with_lives (Game.with_score g 0) START_LIVES) 1)
               = Game.initial_maze) by apply Hs.
  destruct (reset_level_spec _ Ho) as [g3 [Hr3 _]].
  pose proof (reset_level_safe _ _ Ho Hr3) as [Hp3 Hs3].
  rewrite Hr3. cbn [bind]. eexists. split; [reflexivity|].
  revert Hp3 Hs3. generalize g3. intros g4 Hp4 Hs4. split.
  - apply (player_inv_same g4); [reflexivity..|exact Hp4].
  - apply (sound_modes_same g4); [intros []; reflexivity | reflexivity | exact Hs4].
Qed.

Lemma frame_safe (r : bool) (keys : Keys) (rnd : Name -> nat) (g : Game.t) :
  safe g -> exists g', Game.frame r keys rnd g = Ok g' /\ safe g'.
Proof.
  intro Hs. unfold Game.frame.
  assert (H1 : exists g1, (if r then Game.restart g else Ok g) = Ok g1 /\ safe g1).
  { destruct r; [now apply restart_safe | eauto]. }
  destruct H1 as [g1 [Hg1 Hs1]]. rewrite Hg1. cbn [bind].
  apply update_safe. now apply input_safe.
Qed.

Lemma safe_reachable (g : Game.t) : reachable g -> safe g.
Proof.
  induction 1 as [g Hinit | g g' r keys rnd Hr IH Hf].
  - apply (reset_level_safe Game.blank g eq_refl Hinit).
  - destruct (frame_safe r keys rnd g IH) as [g2 [H2 Hs2]].
    rewrite Hf in H2. now injection H2 as <-.
Qed.

(** X3.  The loop never faults in play: from every state a session can
    reach, one more frame (whatever keys are held, whether or not R was
    pressed, whatever the random draws) returns a state, and that state is
    reachable again.  No IndexError from the maze or the score table and no
    TypeError from the targeting code can occur. *)
Theorem frame_never_raises
    (g : Game.t) (r : bool) (keys : Keys) (rnd : Name -> nat)
    (Hreach : reachable g) :
  exists g', Game.frame r keys rnd g = Ok g' /\ reachable g'.
Proof.
  destruct (frame_safe r keys rnd g (safe_reachable g Hreach)) as [g' [Hg' _]].
  exists g'. split; [exact Hg'|].
  exact (reachable_frame g g' r keys rnd Hreach Hg').
Qed.

Lemma frame_never_raises_witness :
  exists g', Game.frame true (mkKeys true false true false) (fun _ => 7%nat) game0
             = Ok g'.
Proof.
  destruct (frame_never_raises game0 true (mkKeys true false true false)
              (fun _ => 7%nat) (reachable_init game0 init_ok)) as [g' [H _]].
  exists g'. exact H.
Defined.

(** X4.  Chase mode is never entered: in every reachable state each
    adversary is in pen, leaving, scatter, dead or entering mode, so its
    update succeeds, and when it retargets it takes its scatter corner; the
    chase formulas of [update_target], the raising one included, are not
    run. *)
Theorem chase_mode_never_entered
    (g : Game.t) (n : Name) (pac : Pacman.t) (bl : Ghost.t) (rnd : nat)
    (Hreach : reachable g) :
  let gh := Game.get_ghost g n in
  In (Ghost.mode gh) [Pen; Leaving; Scatter; Dead; Entering]
  /\ (exists gh', Ghost.update pac bl rnd gh = Ok gh' /\ Ghost.mode gh' <> Chase)
  /\ (Ghost.mode gh = Scatter ->
      Ghost.update_target pac bl gh = Ok (Ghost.with_target gh (Ghost.scatter_target gh))).
Proof.
  intro gh.
  destruct (safe_reachable g Hreach) as [_ [Hm _]]. specialize (Hm n).
  fold gh in Hm.
  split; [|split].
  - destruct (Ghost.mode gh); simpl; tauto.
  - now apply ghost_update_total.
  - intro Hsc. unfold Ghost.update_target. destruct (Pacman.get_tile pac).
    now rewrite Hsc.
Qed.

Lemma chase_mode_never_entered_witness :
  Ghost.mode (Game.get_ghost game0 Clyde) = Pen
  /\ exists gh',
       Ghost.update (Game.pacman game0) (Game.blinky game0) 0
         (Game.get_ghost game0 Clyde) = Ok gh'.
Proof.
  destruct (chase_mode_never_entered game0 Clyde (Game.pacman game0)
              (Game.blinky game0) 0%nat (reachable_init game0 init_ok))
    as (_ & [gh' [H _]] & _).
  split; [reflexivity|]. exists gh'. exact H.
Defined.

(** ** One frame of an adversary, by mode *)

Lemma tick_fright_fields (gh : Ghost.t) :
  Ghost.name (tick_fright gh) = Ghost.name gh
  /\ Ghost.scatter_target (tick_fright gh) = Ghost.scatter_target gh
  /\ Ghost.start_tile (tick_fright gh) = Ghost.start_tile gh
  /\ Ghost.x (tick_fright gh) = Ghost.x gh
  /\ Ghost.y (tick_fright gh) = Ghost.y gh
  /\ Ghost.mode (tick_fright gh) = Ghost.mode gh
  /\ Ghost.dir (tick_fright gh) = Ghost.dir gh.
Proof.
  unfold tick_fright. destruct (Ghost.frightened gh); [|repeat split].
  destruct (_ <=? 0); repeat split.
Qed.

Lemma name_seek (gh : Ghost.t) :
  Ghost.name (Ghost.seek_target gh) = Ghost.name gh.
Proof.
  unfold Ghost.seek_target. destruct (Ghost.get_tile gh).
  destruct (centered _ _ _ _); reflexivity.
Qed.

Lemma name_random (rnd : nat) (gh : Ghost.t) :
  Ghost.name (Ghost.move_randomly rnd gh) = Ghost.name gh.
Proof.
  unfold Ghost.move_randomly. destruct (Ghost.get_tile gh).
  destruct (centered _ _ _ _); [|reflexivity].
  destruct (Ghost.possible_dirs gh); reflexivity.
Qed.

Lemma update_target_name (pac : Pacman.t) (bl gh gh' : Ghost.t) :
  Ghost.update_target pac bl gh = Ok gh' -> Ghost.name gh' = Ghost.name gh.
Proof.
  unfold Ghost.update_target. destruct (Pacman.get_tile pac).
  destruct (Ghost.mode gh);
    try (intro H; injection H as <-; reflexivity);
    destruct (Ghost.name gh) eqn:E;
    try destruct (Ghost.get_tile bl);
    intro H; try discriminate; injection H as <-; exact E.
Qed.

(** X5.  The mode machine of one adversary update.  A penned adversary
    stays penned; a leaving one keeps heading up while its tile row number
    is greater than 11 and otherwise switches to scatter heading left
    without moving that frame; scatter and chase are kept; a dead one turns to
    entering, heading down and not moving, exactly on tile (13, 11) and is
    dead otherwise; an entering one heads down until its row is 14 or
    more, where it is reset to its start state (scatter for the leader, pen
    for the others).  The name is never changed. *)
Theorem adversary_mode_transitions
    (pac : Pacman.t) (bl : Ghost.t) (rnd : nat) (gh gh' : Ghost.t)
    (Hup : Ghost.update pac bl rnd gh = Ok gh') :
  let col := tile_of (Ghost.x gh) in
  let row := tile_of (Ghost.y gh) in
  Ghost.name gh' = Ghost.name gh
  /\ match Ghost.mode gh with
     | Pen => Ghost.mode gh' = Pen
     | Leaving =>
         if row >? 11 then Ghost.mode gh' = Leaving /\ Ghost.dir gh' = UP
         else Ghost.mode gh' = Scatter /\ Ghost.dir gh' = LEFT
              /\ Ghost.x gh' = Ghost.x gh /\ Ghost.y gh' = Ghost.y gh
     | Scatter => Ghost.mode gh' = Scatter
     | Chase => Ghost.mode gh' = Chase
     | Dead =>
         if (col =? 13) && (row =? 11)
         then Ghost.mode gh' = Entering /\ Ghost.dir gh' = DOWN
              /\ Ghost.x gh' = Ghost.x gh /\ Ghost.y gh' = Ghost.y gh
         else Ghost.mode gh' = Dead
     | Entering =>
         if row >=? 14 then gh' = Ghost.reset gh
         else Ghost.mode gh' = Entering /\ Ghost.dir gh' = DOWN
     end.
Proof.
  intros col row. rewrite ghost_update_unfold in Hup. cbv zeta in Hup.
  fold col row in Hup.
  destruct (tick_fright_fields gh) as (Hn & Hsc & Hst & Hx & Hy & Hm & _).
  rewrite <- Hn, <- Hm, <- Hx, <- Hy.
  assert (Hreset : forall m, Ghost.reset (Ghost.with_mode (tick_fright gh) m)
                             = Ghost.reset gh).
  { intro m. unfold Ghost.reset. cbn. now rewrite Hn, Hsc, Hst. }
  revert Hup Hreset. generalize (tick_fright gh). intros g Hup Hreset.
  destruct (Ghost.mode g) eqn:E.
  - injection Hup as <-. rewrite mode_move.
    destruct (_ =? 0); split; reflexivity || exact E.
  - destruct (row >? 11); injection Hup as <-.
    + split; [reflexivity|]. split; [exact E | reflexivity].
    + split; [reflexivity|]. repeat split.
  - destruct (Ghost.frightened g).
    + injection Hup as <-. rewrite mode_random, name_random. now split.
    + inv_bind Hup. injection Hup as <-. rewrite mode_seek, name_seek.
      rewrite (update_target_mode _ _ _ _ Ha), (update_target_name _ _ _ _ Ha).
      now split.
  - destruct (Ghost.frightened g).
    + injection Hup as <-. rewrite mode_random, name_random. now split.
    + inv_bind Hup. injection Hup as <-. rewrite mode_seek, name_seek.
      rewrite (update_target_mode _ _ _ _ Ha), (update_target_name _ _ _ _ Ha).
      now split.
  - destruct ((col =? 13) && (row =? 11)); injection Hup as <-.
    + split; [reflexivity|]. repeat split.
    + rewrite mode_seek, name_seek. now split.
  - destruct (row >=? 14); injection Hup as <-.
    + split; [reflexivity|]. apply Hreset.
    + split; [reflexivity|]. split; [exact E | reflexivity].
Qed.

Lemma adversary_mode_transitions_witness :
  Ghost.init Pinky (13, 14) (2, 0)
  = Ghost.reset (Ghost.with_mode (Ghost.init Pinky (13, 14) (2, 0)) Entering).
Proof.
  assert (H : Ghost.update (Pacman.init (13, 23)) (Ghost.init Blinky (13, 11) (25, 0)) 0
                (Ghost.with_mode (Ghost.init Pinky (13, 14) (2, 0)) Entering)
              = Ok (Ghost.init Pinky (13, 14) (2, 0)))
    by (vm_compute; reflexivity).
  exact (proj2 (adversary_mode_transitions _ _ _ _ _ H)).
Defined.

(** ** An adversary back in the pen *)

Lemma release_rule_released (m n : Name) (thr secs : Z) (g : Game.t) :
  Game.released n g = true ->
  Game.get_ghost (Game.release_rule m thr secs g) n = Game.get_ghost g n
  /\ Game.released n (Game.release_rule m thr secs g) = true.
Proof.
  intro Hr. destruct (name_eqb m n) eqn:E.
  - apply name_eqb_eq in E. subst m.
    unfold Game.release_rule. rewrite Hr. cbn [negb andb]. now split.
  - destruct (release_rule_obs m thr secs g n) as (_ & _ & Ho).
    destruct Ho as [Ho1 Ho2].
    + intro Heq. subst m. destruct n; discriminate.
    + rewrite Ho1, Ho2. now split.
Qed.

Lemma release_ghosts_released (n : Name) (g : Game.t) :
  Game.released n g = true ->
  Game.get_ghost (Game.release_ghosts g) n = Game.get_ghost g n
  /\ Game.released n (Game.release_ghosts g) = true.
Proof.
  intro Hr. unfold Game.release_ghosts.
  set (g0 := Game.with_ghost_release_timer g (Game.ghost_release_timer g + 1)).
  assert (H0 : Game.released n g0 = true /\ Game.get_ghost g0 n = Game.get_ghost g n).
  { split; [exact Hr | destruct n; reflexivity]. }
  destruct H0 as [Hr0 Hg0]. rewrite <- Hg0. clearbody g0.
  destruct (release_rule_released Pinky n 7 4 g0 Hr0) as [Hg1 Hr1].
  destruct (release_rule_released Inky n 17 8 _ Hr1) as [Hg2 Hr2].
  destruct (release_rule_released Clyde n 32 12 _ Hr2) as [Hg3 Hr3].
  split; [congruence | exact Hr3].
Qed.

Lemma init_pen (n : Name) (start scatter : Z * Z) :
  n <> Blinky ->
  Ghost.mode (Ghost.init n start scatter) = Pen
  /\ Ghost.frightened (Ghost.init n start scatter) = false.
Proof. destruct n; [congruence | | |]; intros _; split; reflexivity. Qed.

(** X6.  An adversary other than the leader that is in the pen, not
    frightened, and already named in the released set is never let out
    again: after a playing tick it is still penned and not frightened, and
    as long as the level has not changed it is still in the released set.
    (An eaten adversary comes back to exactly this state, so it stays in
    the pen until the player dies or the level ends.) *)
Theorem returned_adversary_stays_penned
    (rnd : Name -> nat) (g g' : Game.t) (n : Name)
    (Hname : n <> Blinky)
    (Hrel : Game.released n g = true)
    (Hpen : Ghost.mode (Game.get_ghost g n) = Pen)
    (Hcalm : Ghost.frightened (Game.get_ghost g n) = false)
    (Htick : Game.update_game rnd g = Ok g') :
  Ghost.mode (Game.get_ghost g' n) = Pen
  /\ Ghost.frightened (Game.get_ghost g' n) = false
  /\ (Game.level g' = Game.level g -> Game.released n g' = true).
Proof.
  unfold Game.update_game in Htick. inv_bind Htick. rename a into g1.
  fold (pac_rect g1) in Htick. inv_bind Htick. rename a into r.
  pose proof (before_collisions_free Game.level rnd g g1 ltac:(tick_free) Ha) as Hl1.
  rewrite before_collisions_split in Ha. inv_bind Ha. rename a into ge.
  (* the pellet stage *)
  assert (Hge : Game.get_ghost ge n = Game.get_ghost g n).
  { destruct (player_stage_ghost g ge n Ha1) as [-> | ->]; [reflexivity|].
    now apply frighten_keeps. }
  assert (Hre : Game.ghosts_released ge = Game.ghosts_released g)
    by (apply (player_stage_keeps Game.ghosts_released g ge); [player_stage_free | exact Ha1]).
  (* the power countdown *)
  assert (Hgp : Ghost.mode (Game.get_ghost (Game.update_power ge) n) = Pen
                /\ Ghost.frightened (Game.get_ghost (Game.update_power ge) n) = false).
  { apply (update_power_ghost
             (fun gh => Ghost.mode gh = Pen /\ Ghost.frightened gh = false)).
    - intros gh [H1 _]. split; [exact H1 | reflexivity].
    - rewrite Hge. now split. }
  assert (Hrp : Game.released n (Game.update_power ge) = true).
  { unfold Game.released.
    rewrite (update_power_keeps Game.ghosts_released)
      by (try (intros ? [] ?; reflexivity); intros; reflexivity).
    rewrite Hre. exact Hrel. }
  (* the release rules *)
  destruct (release_ghosts_released n _ Hrp) as [Hgr Hrr].
  rewrite <- Hgr in Hgp. destruct Hgp as [Hmr Hfr].
  (* the adversaries' own updates *)
  destruct (update_ghosts_each rnd _ g1 Ha n) as [bl Hup].
  destruct (ghost_update_pen (Game.pacman (Game.release_ghosts (Game.update_power ge)))
              bl (rnd n) _ Hmr Hfr) as [gh' (Hup' & Hm1 & Hf1)].
  rewrite Hup in Hup'. injection Hup' as Hgh. rewrite <- Hgh in Hm1, Hf1.
  assert (Hr1 : Game.ghosts_released g1
                = Game.ghosts_released (Game.release_ghosts (Game.update_power ge)))
    by (apply (update_ghosts_free Game.ghosts_released rnd ltac:(ghost_free) _ _ _ Ha)).
  (* the collision loop *)
  assert (Hgc : Game.get_ghost (fst r) n = Game.get_ghost g1 n).
  { destruct (check_collisions_ghost _ n _ _ _ Ha0) as [Hs | [_ Hfr1]];
      [exact Hs | congruence]. }
  pose proof (check_collisions_free Game.ghosts_released _ ltac:(collision_free) _ _ _ Ha0)
    as Hrc.
  pose proof (check_collisions_free Game.level _ ltac:(collision_free) _ _ _ Ha0) as Hlc.
  assert (Hend : Ghost.mode (Game.get_ghost (fst r) n) = Pen
                 /\ Ghost.frightened (Game.get_ghost (fst r) n) = false
                 /\ Game.released n (fst r) = true).
  { rewrite Hgc. split; [exact Hm1|]. split; [exact Hf1|].
    unfold Game.released in *. now rewrite Hrc, Hr1. }
  destruct (snd r).
  - injection Htick as <-. destruct Hend as (H1 & H2 & H3). auto.
  - unfold Game.check_level_completion in Htick.
    destruct (_ >=? _).
    + unfold Game.reset_level in Htick. inv_bind Htick. inv_bind Ha2. inv_bind Ha2.
      injection Ha2 as <-. injection Htick as <-.
      split; [|split].
      * destruct n; [congruence | | |]; reflexivity.
      * destruct n; [congruence | | |]; reflexivity.
      * cbn [Game.level Game.with_state_timer Game.with_state Game.with_level].
        intro Hl. exfalso. rewrite Hlc, Hl1 in Hl. lia.
    + injection Htick as <-. destruct Hend as (H1 & H2 & H3). auto.
Qed.

Lemma returned_adversary_stays_penned_witness :
  Game.update_game rnd0 returned_game = Ok returned_next
  /\ Ghost.mode (Game.get_ghost returned_next Pinky) = Pen.
Proof.
  assert (H : Game.update_game rnd0 returned_game = Ok returned_next)
    by (vm_compute; reflexivity).
  assert (Hn : Pinky <> Blinky) by discriminate.
  split; [exact H|].
  exact (proj1 (returned_adversary_stays_penned rnd0 returned_game returned_next
                  Pinky Hn eq_refl eq_refl eq_refl H)).
Defined.

(** ** Random movement *)

Lemma choice_in (rnd : nat) (l : list Dir) (d : Dir) :
  l <> [] -> In (choice rnd l d) l.
Proof.
  intro H. unfold choice. apply nth_In.
  apply Nat.mod_upper_bound. destruct l; [congruence | discriminate].
Qed.

Lemma neg_dir_fixed (d : Dir) : d = neg_dir d -> d = NODIR.
Proof.
  destruct d as [a b]. unfold neg_dir, NODIR. cbn.
  intros [= Ha Hb]. f_equal; lia.
Qed.

(** X7.  A frightened adversary never turns back: the direction after
    [move_randomly] is not the reverse of a non-zero direction before it;
    it is either the direction before or one of the four cardinals, and the
    position then advances by that direction times the speed (with the
    tunnel rule), whatever index the random draw gives.  Off a tile centre
    the direction is kept. *)
Theorem move_randomly_never_reverses
    (rnd : nat) (gh : Ghost.t)
    (Hmoving : Ghost.dir gh <> NODIR) :
  let gh' := Ghost.move_randomly rnd gh in
  Ghost.dir gh' <> neg_dir (Ghost.dir gh)
  /\ (Ghost.dir gh' = Ghost.dir gh \/ In (Ghost.dir gh') [UP; DOWN; LEFT; RIGHT])
  /\ (centered (Ghost.x gh) (Ghost.y gh) (tile_of (Ghost.x gh)) (tile_of (Ghost.y gh))
      = false -> Ghost.dir gh' = Ghost.dir gh)
  /\ Ghost.y gh' = Ghost.y gh + snd (Ghost.dir gh') * Ghost.speed gh
  /\ Ghost.x gh'
     = tunnel_wrap (tile_of (Ghost.y gh'))
         (Ghost.x gh + fst (Ghost.dir gh') * Ghost.speed gh)
         (Ghost.x gh + fst (Ghost.dir gh') * Ghost.speed gh)
  /\ Ghost.mode gh' = Ghost.mode gh.
Proof.
  intro gh'. unfold gh', Ghost.move_randomly, Ghost.get_tile.
  assert (Hkeep : Ghost.dir gh <> neg_dir (Ghost.dir gh)).
  { intro H. apply Hmoving. now apply neg_dir_fixed. }
  destruct (centered _ _ _ _).
  - destruct (Ghost.possible_dirs gh) as [|d ds] eqn:Ep.
    + repeat split; auto; discriminate.
    + assert (Hin : In (choice rnd (d :: ds) (Ghost.dir gh)) (Ghost.possible_dirs gh)).
      { rewrite Ep. apply choice_in. discriminate. }
      unfold Ghost.possible_dirs in Hin. apply filter_In in Hin as [Hc Hrev].
      split; [|split; [|split; [|repeat split]]].
      * cbn [Ghost.dir Ghost.move_in_direction Ghost.with_pos Ghost.with_dir].
        intro Heq. rewrite Heq in Hrev.
        assert (Ht : dir_eqb (neg_dir (Ghost.dir gh)) (neg_dir (Ghost.dir gh)) = true)
          by (now apply dir_eqb_eq).
        rewrite Ht in Hrev. discriminate.
      * right. exact Hc.
      * discriminate.
  - repeat split; auto.
Qed.

Lemma move_randomly_never_reverses_witness :
  Ghost.dir (Ghost.init Blinky (13, 11) (25, 0)) = UP
  /\ Ghost.dir (Ghost.move_randomly 1 (Ghost.init Blinky (13, 11) (25, 0))) <> DOWN.
Proof.
  assert (H : Ghost.dir (Ghost.init Blinky (13, 11) (25, 0)) <> NODIR) by discriminate.
  split; [reflexivity|].
  exact (proj1 (move_randomly_never_reverses 1 (Ghost.init Blinky (13, 11) (25, 0)) H)).
Defined.

(** ** Score, high score and lives across a frame *)

Lemma py_get_In {A : Type} (l : list A) (i : Z) (a : A) :
  py_get l i = Ok a -> In a l.
Proof.
  intro H. apply py_get_nth in H as [n [_ Hn]]. now apply nth_error_In in Hn.
Qed.

Lemma score_gain_pos (k v : Z) : Game.score_gain k = Ok v -> 200 <= v <= 1600.
Proof.
  unfold Game.score_gain. intro H. apply py_get_In in H.
  unfold GHOST_EAT_SCORES in H. simpl in H. lia.
Qed.

Lemma check_collisions_score (rect : Rect) (names : list Name) :
  forall g r,
    Game.check_collisions rect names g = Ok r ->
    Game.score g <= Game.score (fst r).
Proof.
  induction names as [|n rest IH]; intros g r H; simpl in H.
  - injection H as <-. simpl. lia.
  - destruct (mode_eqb _ Dead); [now apply IH|].
    destruct (colliderect rect _); [|now apply IH].
    destruct (Ghost.frightened _).
    + inv_bind H. apply IH in H.
      unfold Game.eat_ghost in Ha. inv_bind Ha. injection Ha as <-.
      apply score_gain_pos in Ha0.
      replace (Game.score g)
        with (Game.score (Game.set_ghost g n (Ghost.die (Game.get_ghost g n))))
        by (destruct n; reflexivity).
      revert H. generalize (Game.set_ghost g n (Ghost.die (Game.get_ghost g n))).
      intros g0 H. cbn in H. lia.
    + injection H as <-. cbn. lia.
Qed.

Lemma player_stage_score (g ge : Game.t) :
  player_stage g = Ok ge -> Game.score g <= Game.score ge.
Proof.
  intro H. unfold player_stage in H. inv_bind H.
  unfold Game.move_pacman in Ha. inv_bind Ha. injection Ha as <-.
  unfold Game.eat_pellet in H.
  destruct (Pacman.get_tile _) as [col row].
  inv_bind H.
  destruct (Ascii.eqb a "."); [|destruct (Ascii.eqb a "o")].
  - inv_bind H. injection H as <-. cbn. unfold DOT_SCORE. lia.
  - inv_bind H. injection H as <-.
    rewrite (frighten_ghosts_free Game.score) by ghost_free.
    cbn. unfold POWER_DOT_SCORE. lia.
  - injection H as <-. cbn. lia.
Qed.

Lemma reset_level_keeps (g g' : Game.t) :
  Game.reset_level g = Ok g' ->
  Game.score g' = Game.score g
  /\ Game.high_score g' = Game.high_score g
  /\ Game.lives g' = Game.lives g
  /\ Game.level g' = Game.level g
  /\ Game.state g' = Game.state g
  /\ Game.state_timer g' = Game.state_timer g.
Proof.
  intro H. unfold Game.reset_level in H. inv_bind H. inv_bind H.
  injection H as <-. repeat split.
Qed.

(** A field written by nothing in a playing tick: not by the stages before
    the collision loop, not by that loop, not by the level change. *)
Lemma update_game_keeps {A : Type} (proj : Game.t -> A)
    (rnd : Name -> nat) (g g' : Game.t) :
  tick_free proj -> collision_free proj ->
  (forall g0 v, proj (Game.with_level g0 v) = proj g0) ->
  (forall g0 g1, Game.reset_level g0 = Ok g1 -> proj g1 = proj g0) ->
  Game.update_game rnd g = Ok g' -> proj g' = proj g.
Proof.
  intros Ht Hc Hl Hr H.
  unfold Game.update_game in H. inv_bind H. rename a into g1.
  fold (pac_rect g1) in H. inv_bind H. rename a into r.
  pose proof (before_collisions_free proj rnd g g1 Ht Ha) as H1.
  pose proof (check_collisions_free proj _ Hc _ _ _ Ha0) as H2.
  destruct (snd r); [injection H as <-; congruence|].
  unfold Game.check_level_completion in H.
  destruct (_ >=? _); [|injection H as <-; congruence].
  inv_bind H. injection H as <-.
  destruct Hc as (_ & _ & _ & Hst & Htm).
  rewrite Htm, Hst, (Hr _ _ Ha1), Hl. congruence.
Qed.

Lemma handle_input_keeps {A : Type} (proj : Game.t -> A) (keys : Keys) (g : Game.t) :
  (forall g0 v, proj (Game.with_pacman g0 v) = proj g0) ->
  proj (Game.handle_input keys g) = proj g.
Proof.
  intro Hp. unfold Game.handle_input.
  destruct (phase_eqb _ PLAYING); [|reflexivity].
  destruct (K_UP keys); [apply Hp|]. destruct (K_DOWN keys); [apply Hp|].
  destruct (K_LEFT keys); [apply Hp|]. destruct (K_RIGHT keys); [apply Hp|].
  reflexivity.
Qed.

Lemma update_game_score (rnd : Name -> nat) (g g' : Game.t) :
  Game.update_game rnd g = Ok g' -> Game.score g <= Game.score g'.
Proof.
  intro H.
  unfold Game.update_game in H. inv_bind H. rename a into g1.
  fold (pac_rect g1) in H. inv_bind H. rename a into r.
  pose proof (check_collisions_score _ _ _ _ Ha0) as H2.
  assert (H1 : Game.score g <= Game.score g1).
  { rewrite before_collisions_split in Ha. inv_bind Ha.
    rewrite (update_ghosts_free Game.score rnd ltac:(ghost_free) _ _ _ Ha).
    rewrite release_ghosts_free, update_power_free by schedule_free.
    now apply player_stage_score. }
  destruct (snd r); [injection H as <-; lia|].
  unfold Game.check_level_completion in H.
  destruct (_ >=? _); [|injection H as <-; lia].
  inv_bind H. injection H as <-.
  destruct (reset_level_keeps _ _ Ha1) as (Hs & _).
  revert Hs. generalize a. intros g3 Hs.
  change (Game.score g <= Game.score g3). rewrite Hs.
  change (Game.score g <= Game.score (fst r)). lia.
Qed.

Lemma reset_positions_keeps (g : Game.t) :
  Game.score (Game.reset_positions g) = Game.score g
  /\ Game.maze (Game.reset_positions g) = Game.maze g
  /\ Game.pellets_eaten (Game.reset_positions g) = Game.pellets_eaten g
  /\ Game.level (Game.reset_positions g) = Game.level g
  /\ Game.ghost_eat_count (Game.reset_positions g) = Game.ghost_eat_count g
  /\ Game.lives (Game.reset_positions g) = Game.lives g
  /\ Game.high_score (Game.reset_positions g) = Game.high_score g
  /\ Game.state (Game.reset_positions g) = Game.state g
  /\ Game.state_timer (Game.reset_positions g) = Game.state_timer g.
Proof. repeat split. Qed.

(** The three phases in which nothing is played. *)
Lemma update_idle (rnd : Name -> nat) (g g' : Game.t) :
  Game.state g <> PLAYING ->
  Game.update rnd g = Ok g' ->
  Game.score g' = Game.score g
  /\ Game.maze g' = Game.maze g
  /\ Game.pellets_eaten g' = Game.pellets_eaten g
  /\ Game.level g' = Game.level g
  /\ Game.ghost_eat_count g' = Game.ghost_eat_count g.
Proof.
  intros Hst H. unfold Game.update in H.
  destruct (Game.state g); [| congruence | |].
  - destruct (_ <=? 0); injection H as <-; repeat split.
  - destruct (_ <=? 0); [|injection H as <-; repeat split].
    destruct (_ <=? 0).
    + destruct (_ >? _); injection H as <-; repeat split.
    + injection H as <-.
      match goal with
      | |- context [Game.reset_positions ?x] =>
          pose proof (reset_positions_keeps x) as Hx;
          revert Hx; generalize (Game.reset_positions x)
      end.
      intros g1 (H1 & H2 & H3 & H4 & H5 & _).
      split; [exact H1|]. split; [exact H2|]. split; [exact H3|].
      split; [exact H4 | exact H5].
  - injection H as <-. repeat split.
Qed.

Lemma restart_cases (g g1 : Game.t) :
  Game.restart g = Ok g1 ->
  (Game.state g <> GAME_OVER /\ g1 = g)
  \/ (Game.state g = GAME_OVER
      /\ Game.state g1 = READY /\ Game.state_timer g1 = READY_TIME
      /\ Game.score g1 = 0 /\ Game.lives g1 = START_LIVES /\ Game.level g1 = 1
      /\ Game.high_score g1 = Game.high_score g).
Proof.
  unfold Game.restart. intro H.
  destruct (Game.state g) eqn:E; cbn [phase_eqb] in H;
    try (left; split; [discriminate | now injection H as <-]).
  right. split; [reflexivity|].
  inv_bind H. injection H as <-.
  destruct (reset_level_keeps _ _ Ha) as (Hs & Hh & Hl & Hv & _).
  revert Hs Hh Hl Hv. generalize a. intros g3 Hs Hh Hl Hv.
  split; [reflexivity|]. split; [reflexivity|].
  split; [exact Hs|]. split; [exact Hl|]. split; [exact Hv|]. exact Hh.
Qed.

(** X8.  The score never goes down while a game is on: a frame in which
    the game is not restarted leaves the score at least as high as it was,
    and outside the playing phase leaves it exactly as it was. *)
Theorem score_never_decreases
    (keys : Keys) (rnd : Name -> nat) (g g' : Game.t)
    (Hframe : Game.frame false keys rnd g = Ok g') :
  Game.score g <= Game.score g'
  /\ (Game.state g <> PLAYING -> Game.score g' = Game.score g).
Proof.
  unfold Game.frame in Hframe. cbn [bind] in Hframe.
  pose proof (handle_input_keeps Game.score keys g (fun _ _ => eq_refl)) as Hs.
  pose proof (handle_input_keeps Game.state keys g (fun _ _ => eq_refl)) as Hst.
  revert Hframe Hs Hst. generalize (Game.handle_input keys g).
  intros g1 Hframe Hs Hst. rewrite <- Hs, <- Hst.
  destruct (Game.state g1) eqn:E.
  - destruct (update_idle rnd g1 g') as [H _]; [congruence | exact Hframe|].
    split; [lia | auto].
  - unfold Game.update in Hframe. rewrite E in Hframe.
    split; [now apply (update_game_score rnd) | congruence].
  - destruct (update_idle rnd g1 g') as [H _]; [congruence | exact Hframe|].
    split; [lia | auto].
  - destruct (update_idle rnd g1 g') as [H _]; [congruence | exact Hframe|].
    split; [lia | auto].
Qed.

Lemma score_never_decreases_witness :
  Game.score game0 <= Game.score frame_one.
Proof.
  assert (H : Game.frame false no_keys rnd0 game0 = Ok frame_one)
    by (vm_compute; reflexivity).
  exact (proj1 (score_never_decreases no_keys rnd0 game0 frame_one H)).
Defined.

(** X9.  The high score is written in one place only: a frame changes it
    only when the dying countdown runs out on the last life, and then it
    becomes the larger of the old high score and the score.  No frame
    lowers it, and a restart keeps it. *)
Theorem high_score_only_at_game_over
    (r : bool) (keys : Keys) (rnd : Name -> nat) (g g' : Game.t)
    (Hframe : Game.frame r keys rnd g = Ok g') :
  Game.high_score g <= Game.high_score g'
  /\ (Game.high_score g' <> Game.high_score g ->
      Game.state g = DYING /\ Game.state g' = GAME_OVER
      /\ Game.high_score g' = Game.score g)
  /\ (Game.state g = DYING -> Game.state g' = GAME_OVER ->
      Game.high_score g' = Z.max (Game.high_score g) (Game.score g)).
Proof.
  unfold Game.frame in Hframe. inv_bind Hframe. rename a into g0.
  assert (H0 : Game.high_score g0 = Game.high_score g
               /\ (Game.state g = DYING ->
                   Game.state g0 = DYING /\ Game.score g0 = Game.score g)
               /\ (Game.state g0 = DYING -> Game.state g = DYING)).
  { destruct r; [|injection Ha as <-; tauto].
    destruct (restart_cases g g0 Ha) as [[_ ->] | (E & E1 & _ & _ & _ & _ & Hh)];
      [tauto|].
    split; [exact Hh|]. split; congruence. }
  destruct H0 as (Hh0 & Hd0 & Hd0').
  pose proof (handle_input_keeps Game.high_score keys g0 (fun _ _ => eq_refl)) as Hh.
  pose proof (handle_input_keeps Game.state keys g0 (fun _ _ => eq_refl)) as Hst.
  pose proof (handle_input_keeps Game.score keys g0 (fun _ _ => eq_refl)) as Hsc.
  revert Hframe Hh Hst Hsc. generalize (Game.handle_input keys g0).
  intros g1 Hframe Hh Hst Hsc.
  assert (Hcore :
    (Game.high_score g' = Game.high_score g1 /\ ~ (Game.state g1 = DYING /\ Game.state g' = GAME_OVER))
    \/ (Game.state g1 = DYING /\ Game.state g' = GAME_OVER
        /\ Game.high_score g' = Z.max (Game.high_score g1) (Game.score g1))).
  { unfold Game.update in Hframe. destruct (Game.state g1) eqn:E.
    - left. split; [|intros [? _]; discriminate].
      destruct (_ <=? 0); injection Hframe as <-; reflexivity.
    - left. split; [|intros [? _]; discriminate].
      apply (update_game_keeps Game.high_score rnd g1 g'); try exact Hframe.
      + tick_free.
      + collision_free.
      + reflexivity.
      + intros ? ? Hr. apply (reset_level_keeps _ _ Hr).
    - destruct (_ <=? 0);
        [|left; injection Hframe as <-; split; [reflexivity|]; intros [_ H];
          cbn in H; congruence].
      destruct (_ <=? 0).
      + right. split; [reflexivity|].
        destruct (_ >? _) eqn:Eg; injection Hframe as <-;
          (split; [reflexivity|]); cbn in *.
        * rewrite Z.gtb_ltb in Eg. apply Z.ltb_lt in Eg. lia.
        * rewrite Z.gtb_ltb in Eg. apply Z.ltb_ge in Eg. lia.
      + left. injection Hframe as <-. split; [reflexivity|].
        intros [_ H]. discriminate H.
    - left. split; [|intros [? _]; discriminate].
      injection Hframe as <-. reflexivity. }
  rewrite Hh, Hst, Hsc in Hcore. clear Hframe.
  destruct Hcore as [[Heq Hno] | (Hd & Hg & Hmax)].
  - rewrite Heq, Hh0. split; [lia|]. split; [congruence|].
    intros Hd Hg. exfalso. apply Hno. split; [apply Hd0; exact Hd | exact Hg].
  - pose proof (Hd0' Hd) as Hdg. destruct (Hd0 Hdg) as [_ Hs0].
    rewrite Hh0, Hs0 in Hmax. rewrite Hmax.
    split; [lia|]. split; [|auto].
    intro Hne. split; [exact Hdg|]. split; [exact Hg | lia].
Qed.

Lemma high_score_only_at_game_over_witness :
  Game.high_score last_breath_next = 70.
Proof.
  assert (H : Game.frame false no_keys rnd0 last_breath = Ok last_breath_next)
    by (vm_compute; reflexivity).
  destruct (high_score_only_at_game_over false no_keys rnd0 _ _ H) as (_ & _ & Hmax).
  rewrite (Hmax eq_refl eq_refl). reflexivity.
Defined.

(** ** The phases in which nothing is played *)

Lemma with_state_timer_twice (g : Game.t) (a b : Z) :
  Game.with_state_timer (Game.with_state_timer g a) b = Game.with_state_timer g b.
Proof. reflexivity. Qed.

Lemma with_state_timer_same (g : Game.t) :
  Game.with_state_timer g (Game.state_timer g) = g.
Proof. destruct g; reflexivity. Qed.

Lemma frames_app (l1 l2 : list (bool * Keys * (Name -> nat))) (g : Game.t) :
  frames (l1 ++ l2) g = (g1 <- frames l1 g ;; frames l2 g1).
Proof.
  revert g. induction l1 as [|[[r keys] rnd] l1 IH]; intro g; simpl; [reflexivity|].
  destruct (Game.frame r keys rnd g); simpl; [apply IH | reflexivity].
Qed.

Lemma restart_ignored (g : Game.t) :
  Game.state g <> GAME_OVER -> Game.restart g = Ok g.
Proof.
  intro H. unfold Game.restart. destruct (Game.state g); try reflexivity. congruence.
Qed.

Lemma input_ignored (keys : Keys) (g : Game.t) :
  Game.state g <> PLAYING -> Game.handle_input keys g = g.
Proof.
  intro H. unfold Game.handle_input. destruct (Game.state g); try reflexivity.
  congruence.
Qed.

Lemma frame_not_playing (r : bool) (keys : Keys) (rnd : Name -> nat) (g : Game.t) :
  Game.state g = READY \/ Game.state g = DYING ->
  Game.frame r keys rnd g = Game.update rnd g.
Proof.
  intro Hst. unfold Game.frame.
  assert (Hr : (if r then Game.restart g else Ok g) = Ok g).
  { destruct r; [|reflexivity]. apply restart_ignored.
    destruct Hst as [-> | ->]; discriminate. }
  rewrite Hr. cbn [bind]. rewrite input_ignored; [reflexivity|].
  destruct Hst as [-> | ->]; discriminate.
Qed.

(** A frame of the ready or the dying phase before the countdown ends only
    counts down: keys and R are ignored. *)
Lemma waiting_frame (r : bool) (keys : Keys) (rnd : Name -> nat) (g : Game.t) :
  Game.state g = READY \/ Game.state g = DYING ->
  1 < Game.state_timer g ->
  Game.frame r keys rnd g = Ok (Game.with_state_timer g (Game.state_timer g - 1)).
Proof.
  intros Hst Ht. rewrite frame_not_playing by exact Hst.
  assert (Hle : (Game.state_timer g - 1 <=? 0) = false) by (apply Z.leb_gt; lia).
  unfold Game.update.
  destruct Hst as [Hst | Hst]; rewrite Hst; cbv beta iota zeta;
    change (Game.state_timer (Game.with_state_timer g (Game.state_timer g - 1)))
      with (Game.state_timer g - 1);
    rewrite Hle; reflexivity.
Qed.

Lemma waiting_frames (inputs : list (bool * Keys * (Name -> nat))) :
  forall g,
    Game.state g = READY \/ Game.state g = DYING ->
    Z.of_nat (List.length inputs) < Game.state_timer g ->
    frames inputs g
    = Ok (Game.with_state_timer g (Game.state_timer g - Z.of_nat (List.length inputs))).
Proof.
  induction inputs as [|[[r keys] rnd] rest IH]; intros g Hst Hlen.
  - simpl. rewrite Z.sub_0_r. now rewrite with_state_timer_same.
  - cbn [frames]. rewrite waiting_frame; [|exact Hst|cbn [List.length] in Hlen; lia].
    cbn [bind]. rewrite IH.
    + rewrite with_state_timer_twice. f_equal. f_equal.
      cbn [List.length Game.state_timer Game.with_state_timer]. lia.
    + exact Hst.
    + cbn [List.length Game.state_timer Game.with_state_timer] in *. lia.
Qed.

Lemma ready_last_frame (r : bool) (keys : Keys) (rnd : Name -> nat) (g : Game.t) :
  Game.state g = READY ->
  Game.state_timer g <= 1 ->
  Game.frame r keys rnd g
  = Ok (Game.with_state (Game.with_state_timer g (Game.state_timer g - 1)) PLAYING).
Proof.
  intros Hst Ht. rewrite frame_not_playing by (left; exact Hst).
  assert (Hle : (Game.state_timer g - 1 <=? 0) = true) by (apply Z.leb_le; lia).
  unfold Game.update. rewrite Hst. cbv beta iota zeta.
  change (Game.state_timer (Game.with_state_timer g (Game.state_timer g - 1)))
    with (Game.state_timer g - 1).
  rewrite Hle. reflexivity.
Qed.

(** X10.  The ready phase lasts exactly as many frames as its countdown
    says and nothing but the countdown changes in it: after one frame fewer
    the state is the one it started from with the countdown at 1, and the
    next frame switches to playing with the countdown at 0.  Keys held and
    R pressed during the phase have no effect (in particular no turn is
    buffered). *)
Theorem ready_phase_lasts_its_countdown
    (inputs : list (bool * Keys * (Name -> nat))) (last : bool * Keys * (Name -> nat))
    (g : Game.t)
    (Hphase : Game.state g = READY)
    (Hlen : Z.of_nat (List.length inputs) + 1 = Game.state_timer g) :
  frames inputs g = Ok (Game.with_state_timer g 1)
  /\ frames (inputs ++ [last]) g
     = Ok (Game.with_state (Game.with_state_timer g 0) PLAYING).
Proof.
  assert (H1 : frames inputs g = Ok (Game.with_state_timer g 1)).
  { rewrite waiting_frames; [|left; exact Hphase|lia].
    f_equal. f_equal. lia. }
  split; [exact H1|].
  rewrite frames_app, H1. cbn [bind]. destruct last as [[r keys] rnd].
  cbn [frames]. rewrite ready_last_frame; [reflexivity | exact Hphase |].
  cbn [Game.state_timer Game.with_state_timer]. lia.
Qed.

Lemma ready_phase_lasts_its_countdown_witness :
  frames (repeat (true, mkKeys true false false false, rnd0) 120) game0
  = Ok playing_start.
Proof.
  exact (proj2 (ready_phase_lasts_its_countdown
                  (repeat (true, mkKeys true false false false, rnd0) 119)
                  (true, mkKeys true false false false, rnd0)
                  game0 eq_refl eq_refl)).
Defined.

Lemma reset_positions_round (g : Game.t) :
  Game.pacman (Game.reset_positions g) = Pacman.reset (Game.pacman g)
  /\ Game.ghosts_released (Game.reset_positions g) = []
  /\ Game.ghost_release_timer (Game.reset_positions g) = 0
  /\ Game.power_mode (Game.reset_positions g) = false
  /\ Game.power_timer (Game.reset_positions g) = 0.
Proof. repeat split. Qed.

Lemma dying_last_frame (r : bool) (keys : Keys) (rnd : Name -> nat) (g : Game.t) :
  Game.state g = DYING ->
  Game.state_timer g <= 1 ->
  exists g',
    Game.frame r keys rnd g = Ok g'
    /\ Game.lives g' = Game.lives g - 1
    /\ Game.score g' = Game.score g
    /\ Game.maze g' = Game.maze g
    /\ Game.pellets_eaten g' = Game.pellets_eaten g
    /\ Game.level g' = Game.level g
    /\ (Game.lives g <= 1 ->
        Game.state g' = GAME_OVER
        /\ Game.high_score g' = Z.max (Game.high_score g) (Game.score g)
        /\ Game.pacman g' = Game.pacman g
        /\ forall n, Game.get_ghost g' n = Game.get_ghost g n)
    /\ (1 < Game.lives g ->
        Game.state g' = READY
        /\ Game.state_timer g' = READY_TIME
        /\ Game.high_score g' = Game.high_score g
        /\ Game.pacman g' = Pacman.reset (Game.pacman g)
        /\ (forall n, Game.get_ghost g' n = Ghost.reset (Game.get_ghost g n))
        /\ Game.ghosts_released g' = []
        /\ Game.ghost_release_timer g' = 0
        /\ Game.power_mode g' = false
        /\ Game.power_timer g' = 0).
Proof.
  intros Hst Ht.
  assert (Hle : (Game.state_timer g - 1 <=? 0) = true) by (apply Z.leb_le; lia).
  rewrite frame_not_playing by (right; exact Hst).
  unfold Game.update. rewrite Hst. cbv beta iota zeta.
  change (Game.state_timer (Game.with_state_timer g (Game.state_timer g - 1)))
    with (Game.state_timer g - 1).
  rewrite Hle.
  set (g1 := Game.with_state_timer g (Game.state_timer g - 1)).
  change (Game.lives (Game.with_lives g1 (Game.lives g1 - 1)))
    with (Game.lives g - 1).
  destruct (Game.lives g - 1 <=? 0) eqn:El.
  - apply Z.leb_le in El.
    change (Game.score (Game.with_state (Game.with_lives g1 (Game.lives g1 - 1)) GAME_OVER))
      with (Game.score g).
    change (Game.high_score (Game.with_state (Game.with_lives g1 (Game.lives g1 - 1)) GAME_OVER))
      with (Game.high_score g).
    destruct (Game.score g >? Game.high_score g) eqn:Eg;
      rewrite Z.gtb_ltb in Eg;
      [apply Z.ltb_lt in Eg | apply Z.ltb_ge in Eg];
      (eexists; split; [reflexivity|]);
      (split; [reflexivity|]); (split; [reflexivity|]); (split; [reflexivity|]);
      (split; [reflexivity|]); (split; [reflexivity|]);
      (split; [|intro; exfalso; lia]); intros _;
      (split; [reflexivity|]);
      (split; [subst g1;
               cbn [Game.high_score Game.score Game.with_high_score Game.with_state
                    Game.with_lives Game.with_state_timer]; lia|]);
      (split; [reflexivity|]); intros []; reflexivity.
  - apply Z.leb_gt in El.
    destruct (reset_positions_keeps (Game.with_lives g1 (Game.lives g1 - 1)))
      as (K1 & K2 & K3 & K4 & _ & K6 & K7 & _).
    destruct (reset_positions_round (Game.with_lives g1 (Game.lives g1 - 1)))
      as (R1 & R2 & R3 & R4 & R5).
    pose proof (reset_positions_get (Game.with_lives g1 (Game.lives g1 - 1))) as G.
    revert K1 K2 K3 K4 K6 K7 R1 R2 R3 R4 R5 G.
    generalize (Game.reset_positions (Game.with_lives g1 (Game.lives g1 - 1))).
    intros g2 K1 K2 K3 K4 K6 K7 R1 R2 R3 R4 R5 G.
    eexists. split; [reflexivity|].
    split; [exact K6|]. split; [exact K1|]. split; [exact K2|].
    split; [exact K3|]. split; [exact K4|].
    split; [intro; exfalso; lia|]. intros _.
    split; [reflexivity|]. split; [reflexivity|]. split; [exact K7|].
    split; [exact R1|].
    split; [intro n; transitivity (Game.get_ghost g2 n);
            [destruct n; reflexivity | rewrite (G n); destruct n; reflexivity]|].
    split; [exact R2|]. split; [exact R3|]. split; [exact R4 | exact R5].
Qed.

(** X11.  Dying costs exactly one life and takes exactly the frames of its
    countdown: until then nothing but the countdown changes; the last frame
    takes one life and keeps score, maze, pellet counter and level; on the
    last life the phase becomes game over with the high score raised to the
    score if that is higher and nobody moved; otherwise the phase becomes
    ready with its full countdown, the player and every adversary are reset
    to their start state, the released set and the release timer are
    cleared and power mode is off.  Keys and R are ignored throughout. *)
Theorem dying_phase_costs_one_life
    (inputs : list (bool * Keys * (Name -> nat))) (last : bool * Keys * (Name -> nat))
    (g : Game.t)
    (Hphase : Game.state g = DYING)
    (Hlen : Z.of_nat (List.length inputs) + 1 = Game.state_timer g) :
  frames inputs g = Ok (Game.with_state_timer g 1)
  /\ exists g',
       frames (inputs ++ [last]) g = Ok g'
       /\ Game.lives g' = Game.lives g - 1
       /\ Game.score g' = Game.score g
       /\ Game.maze g' = Game.maze g
       /\ Game.pellets_eaten g' = Game.pellets_eaten g
       /\ Game.level g' = Game.level g
       /\ (Game.lives g <= 1 ->
           Game.state g' = GAME_OVER
           /\ Game.high_score g' = Z.max (Game.high_score g) (Game.score g)
           /\ Game.pacman g' = Game.pacman g
           /\ forall n, Game.get_ghost g' n = Game.get_ghost g n)
       /\ (1 < Game.lives g ->
           Game.state g' = READY
           /\ Game.state_timer g' = READY_TIME
           /\ Game.high_score g' = Game.high_score g
           /\ Game.pacman g' = Pacman.reset (Game.pacman g)
           /\ (forall n, Game.get_ghost g' n = Ghost.reset (Game.get_ghost g n))
           /\ Game.ghosts_released g' = []
           /\ Game.ghost_release_timer g' = 0
           /\ Game.power_mode g' = false
           /\ Game.power_timer g' = 0).
Proof.
  assert (H1 : frames inputs g = Ok (Game.with_state_timer g 1)).
  { rewrite waiting_frames; [|right; exact Hphase|lia].
    f_equal. f_equal. lia. }
  split; [exact H1|].
  rewrite frames_app, H1. cbn [bind]. destruct last as [[r keys] rnd].
  cbn [frames].
  destruct (dying_last_frame r keys rnd (Game.with_state_timer g 1))
    as [g' (Hf & Hrest)]; [exact Hphase | cbn; lia |].
  exists g'. split; [rewrite Hf; reflexivity|].
  revert Hrest. generalize g'. intros g2 Hrest.
  destruct Hrest as (A1 & A2 & A3 & A4 & A5 & A6 & A7).
  split; [exact A1|]. split; [exact A2|]. split; [exact A3|].
  split; [exact A4|]. split; [exact A5|].
  split; [exact A6 | exact A7].
Qed.

Lemma dying_phase_costs_one_life_witness :
  exists g',
    frames (repeat (false, no_keys, rnd0) 120) (Game.pacman_dies playing0) = Ok g'
    /\ Game.lives g' = 2 /\ Game.state g' = READY.
Proof.
  destruct (dying_phase_costs_one_life
              (repeat (false, no_keys, rnd0) 119) (false, no_keys, rnd0)
              (Game.pacman_dies playing0) eq_refl eq_refl)
    as (_ & g' & Hf & Hl & _ & _ & _ & _ & _ & Hready).
  exists g'. split; [exact Hf|]. split; [exact Hl|].
  apply Hready. reflexivity.
Defined.

(** X12.  Game over is left only through R.  Without R a frame of the
    game-over phase changes nothing, whatever keys are held.  With R, and
    the stored layout intact, the same frame starts a new game: score 0,
    full lives, level 1, a fresh round on the level-start maze with the
    player on its start tile, the high score kept, and the ready countdown
    already one frame down because the update of that frame has run.  In
    any other phase R does nothing. *)
Theorem game_over_until_restart
    (keys : Keys) (rnd : Name -> nat) (g : Game.t)
    (Hphase : Game.state g = GAME_OVER)
    (Hlayout : Game.original_maze g = Game.initial_maze) :
  Game.frame false keys rnd g = Ok g
  /\ (exists g',
        Game.frame true keys rnd g = Ok g'
        /\ Game.state g' = READY
        /\ Game.state_timer g' = READY_TIME - 1
        /\ Game.score g' = 0
        /\ Game.lives g' = START_LIVES
        /\ Game.level g' = 1
        /\ Game.high_score g' = Game.high_score g
        /\ Game.maze g' = level_start_maze
        /\ Game.pellets_eaten g' = 0
        /\ Game.pacman g' = Pacman.init (13, 23)
        /\ Game.ghosts_released g' = [])
  /\ (forall g0, Game.state g0 <> GAME_OVER ->
                 Game.frame true keys rnd g0 = Game.frame false keys rnd g0).
Proof.
  split; [|split].
  - unfold Game.frame, Game.handle_input, Game.update. cbn [bind].
    rewrite Hphase. cbn [phase_eqb]. now rewrite Hphase.
  - unfold Game.frame, Game.restart. rewrite Hphase. cbn [phase_eqb].
    assert (Ho : Game.original_maze
                   (Game.with_level (Game.with_lives (Game.with_score g 0) START_LIVES) 1)
                 = Game.initial_maze) by exact Hlayout.
    destruct (reset_level_spec _ Ho)
      as [g3 (Hr & _ & Hmz & Hpac & _ & _ & _ & _ & Hpe & _ & _ & _ & _ & Hrel & _ & _
              & Hlv & Hli & Hsc & Hhs & _)].
    rewrite Hr. cbn [bind].
    revert Hmz Hpac Hpe Hrel Hlv Hli Hsc Hhs. generalize g3.
    intros g4 Hmz Hpac Hpe Hrel Hlv Hli Hsc Hhs.
    eexists. split; [reflexivity|].
    split; [reflexivity|]. split; [reflexivity|].
    split; [exact Hsc|]. split; [exact Hli|]. split; [exact Hlv|].
    split; [exact Hhs|]. split; [exact Hmz|]. split; [exact Hpe|].
    split; [exact Hpac | exact Hrel].
  - intros g0 Hne. unfold Game.frame, Game.restart.
    destruct (Game.state g0); try reflexivity. congruence.
Qed.

Lemma game_over_until_restart_witness :
  Game.frame false (mkKeys false true false false) rnd0
    (Game.with_state game0 GAME_OVER)
  = Ok (Game.with_state game0 GAME_OVER).
Proof.
  exact (proj1 (game_over_until_restart (mkKeys false true false false) rnd0
                  (Game.with_state game0 GAME_OVER) eq_refl eq_refl)).
Defined.

(** ** The maze only loses pellets *)

Lemma Forall2_nth_right {A B : Type} (P : A -> B -> Prop) (l0 : list A) (l : list B) :
  Forall2 P l0 l ->
  forall n b, nth_error l n = Some b ->
              exists a, nth_error l0 n = Some a /\ P a b.
Proof.
  induction 1 as [|a b l0 l Hab Hrest IH]; intros [|n] b' Hn; simpl in *;
    try discriminate.
  - injection Hn as <-. eauto.
  - now apply IH.
Qed.

Lemma Forall2_replace {A B : Type} (P : A -> B -> Prop) (l0 : list A) (l : list B) :
  Forall2 P l0 l ->
  forall n a v, nth_error l0 n = Some a -> P a v ->
                Forall2 P l0 (replace_nth l n v).
Proof.
  induction 1 as [|a b l0 l Hab Hrest IH]; intros [|n] a' v Hn Hv; simpl in *;
    try discriminate.
  - injection Hn as <-. now constructor.
  - constructor; [exact Hab|]. now apply (IH n a').
Qed.

Lemma eaten_from_refl (m : Maze) : eaten_from m m.
Proof.
  unfold eaten_from. induction m as [|r m IH]; constructor; [|exact IH].
  induction r as [|c r IHr]; constructor; [now left | exact IHr].
Qed.

Lemma maze_set_eaten (m0 m m' : Maze) (row col : Z) (c : ascii) :
  eaten_from m0 m ->
  maze_get m row col = Ok c ->
  is_pellet c = true ->
  maze_set m row col " "%char = Ok m' ->
  eaten_from m0 m'.
Proof.
  unfold maze_get, maze_set. intros He Hg Hp Hs.
  inv_bind Hg. rewrite Ha in Hs. cbn [bind] in Hs.
  apply py_get_nth in Ha as [n [Hn Hr]].
  apply py_get_nth in Hg as [k [Hk Hcell]].
  unfold py_set in Hs. rewrite Hk in Hs. cbn [bind] in Hs. rewrite Hn in Hs.
  injection Hs as <-.
  destruct (Forall2_nth_right _ _ _ He n a Hr) as [r0 [Hr0 Hrow]].
  destruct (Forall2_nth_right _ _ _ Hrow k c Hcell) as [c0 [Hc0 Hok]].
  apply (Forall2_replace _ _ _ He n r0); [exact Hr0|].
  apply (Forall2_replace _ _ _ Hrow k c0); [exact Hc0|].
  right. split; [|reflexivity].
  destruct Hok as [-> | [_ ->]]; [exact Hp | discriminate Hp].
Qed.

Lemma eat_pellet_eaten (m0 : Maze) (g g' : Game.t) :
  eaten_from m0 (Game.maze g) ->
  Game.eat_pellet g = Ok g' ->
  eaten_from m0 (Game.maze g').
Proof.
  intros He H. unfold Game.eat_pellet in H.
  destruct (Pacman.get_tile (Game.pacman g)) as [col row].
  inv_bind H. rename a into c.
  destruct (Ascii.eqb c ".") eqn:E1; [|destruct (Ascii.eqb c "o") eqn:E2].
  - inv_bind H. injection H as <-.
    apply (maze_set_eaten m0 (Game.maze g) a row col c He Ha); [|exact Ha0].
    unfold is_pellet. now rewrite E1.
  - inv_bind H. injection H as <-.
    rewrite (frighten_ghosts_free Game.maze) by ghost_free.
    apply (maze_set_eaten m0 (Game.maze g) a row col c He Ha); [|exact Ha0].
    unfold is_pellet. now rewrite E1, E2.
  - now injection H as <-.
Qed.

Lemma start_maze_eaten : eaten_from Game.initial_maze level_start_maze.
Proof.
  apply (maze_set_eaten Game.initial_maze Game.initial_maze level_start_maze
           23 13 "."%char).
  - apply eaten_from_refl.
  - vm_compute. reflexivity.
  - reflexivity.
  - vm_compute. reflexivity.
Qed.

Lemma update_game_eaten (rnd : Name -> nat) (g g' : Game.t) :
  Game.original_maze g = Game.initial_maze ->
  eaten_from Game.initial_maze (Game.maze g) ->
  Game.update_game rnd g = Ok g' ->
  eaten_from Game.initial_maze (Game.maze g').
Proof.
  intros Ho He H.
  unfold Game.update_game in H. inv_bind H. rename a into g1.
  fold (pac_rect g1) in H. inv_bind H. rename a into r.
  pose proof (before_collisions_free Game.original_maze rnd g g1 ltac:(tick_free) Ha)
    as Ho1.
  pose proof (check_collisions_free Game.original_maze _ ltac:(collision_free) _ _ _ Ha0)
    as Hor.
  pose proof (check_collisions_free Game.maze _ ltac:(collision_free) _ _ _ Ha0) as Hmr.
  assert (He1 : eaten_from Game.initial_maze (Game.maze g1)).
  { rewrite before_collisions_split in Ha. inv_bind Ha. rename a into ge.
    rewrite (update_ghosts_free Game.maze rnd ltac:(ghost_free) _ _ _ Ha).
    rewrite release_ghosts_free, update_power_free by schedule_free.
    unfold player_stage in Ha1. inv_bind Ha1.
    apply (eat_pellet_eaten _ a ge); [|exact Ha1].
    unfold Game.move_pacman in Ha2. inv_bind Ha2. injection Ha2 as <-. exact He. }
  destruct (snd r); [injection H as <-; now rewrite Hmr|].
  unfold Game.check_level_completion in H.
  destruct (_ >=? _); [|injection H as <-; now rewrite Hmr].
  inv_bind H. injection H as <-.
  assert (Ho2 : Game.original_maze (Game.with_level (fst r) (Game.level (fst r) + 1))
                = Game.initial_maze).
  { change (Game.original_maze (fst r) = Game.initial_maze). congruence. }
  destruct (reset_level_spec _ Ho2) as [g3 (Hr3 & _ & Hmz & _)].
  rewrite Hr3 in Ha1. injection Ha1 as <-.
  change (eaten_from Game.initial_maze (Game.maze g3)).
  rewrite Hmz. exact start_maze_eaten.
Qed.

Lemma eaten_reachable (g : Game.t) :
  reachable g -> eaten_from Game.initial_maze (Game.maze g).
Proof.
  induction 1 as [g Hinit | g g' r keys rnd Hr IH Hf].
  - destruct (reset_level_spec Game.blank eq_refl) as [g3 (Hr3 & _ & Hmz & _)].
    unfold Game.init in Hinit. rewrite Hr3 in Hinit. injection Hinit as <-.
    rewrite Hmz. exact start_maze_eaten.
  - pose proof (player_inv_reachable g Hr) as (_ & Ho & _).
    unfold Game.frame in Hf. inv_bind Hf. rename a into g0.
    assert (H0 : Game.original_maze g0 = Game.initial_maze
                 /\ eaten_from Game.initial_maze (Game.maze g0)).
    { destruct r; [|injection Ha as <-; now split].
      unfold Game.restart in Ha.
      destruct (phase_eqb _ GAME_OVER); [|injection Ha as <-; now split].
      inv_bind Ha. injection Ha as <-.
      assert (Ho2 : Game.original_maze
                      (Game.with_level (Game.with_lives (Game.with_score g 0) START_LIVES) 1)
                    = Game.initial_maze) by exact Ho.
      destruct (reset_level_spec _ Ho2)
        as [g3 (Hr3 & _ & Hmz & _ & _ & _ & _ & _ & _ & _ & _ & _ & _ & _ & Ho3 & _)].
      rewrite Hr3 in Ha0. injection Ha0 as <-.
      split; [exact Ho3|].
      change (eaten_from Game.initial_maze (Game.maze g3)).
      rewrite Hmz. exact start_maze_eaten. }
    destruct H0 as [Ho0 He0].
    pose proof (handle_input_keeps Game.maze keys g0 (fun _ _ => eq_refl)) as Hm.
    pose proof (handle_input_keeps Game.original_maze keys g0 (fun _ _ => eq_refl)) as Hom.
    rewrite <- Hm in He0. rewrite <- Hom in Ho0.
    revert Hf He0 Ho0. generalize (Game.handle_input keys g0). intros g1 Hf He1 Ho1.
    destruct (Game.state g1) eqn:E.
    + destruct (update_idle rnd g1 g') as (_ & Hmz & _);
        [congruence | exact Hf | now rewrite Hmz].
    + unfold Game.update in Hf. rewrite E in Hf.
      now apply (update_game_eaten rnd g1 g').
    + destruct (update_idle rnd g1 g') as (_ & Hmz & _);
        [congruence | exact Hf | now rewrite Hmz].
    + destruct (update_idle rnd g1 g') as (_ & Hmz & _);
        [congruence | exact Hf | now rewrite Hmz].
Qed.

(** X13.  The maze only ever loses pellets.  In every reachable state
    the maze has the rows and columns of the layout, and each of its cells
    holds either the character the layout has there or a blank where the
    layout has a pellet: walls and the gate never move or vanish and no
    pellet is put back except by starting the level again. *)
Theorem maze_only_loses_pellets
    (g : Game.t) (row col : Z) (c : ascii)
    (Hreach : reachable g)
    (Hcell : maze_get (Game.maze g) row col = Ok c) :
  eaten_from Game.initial_maze (Game.maze g)
  /\ exists c0,
       maze_get Game.initial_maze row col = Ok c0
       /\ (c = c0 \/ (is_pellet c0 = true /\ c = " "%char)).
Proof.
  pose proof (eaten_reachable g Hreach) as He. split; [exact He|].
  unfold maze_get in Hcell. inv_bind Hcell. rename a into r.
  apply py_get_nth in Ha as [n [Hn Hr]].
  apply py_get_nth in Hcell as [k [Hk Hc]].
  destruct (Forall2_nth_right _ _ _ He n r Hr) as [r0 [Hr0 Hrow]].
  destruct (Forall2_nth_right _ _ _ Hrow k c Hc) as [c0 [Hc0 Hok]].
  exists c0. split; [|exact Hok].
  unfold maze_get, py_get.
  rewrite (Forall2_length He), Hn, Hr0. cbn [bind].
  now rewrite (Forall2_length Hrow), Hk, Hc0.
Qed.

Lemma maze_only_loses_pellets_witness :
  exists c0,
    maze_get Game.initial_maze 23 13 = Ok c0
    /\ (" "%char = c0 \/ (is_pellet c0 = true /\ " "%char = " "%char)).
Proof.
  assert (H : maze_get (Game.maze game0) 23 13 = Ok " "%char)
    by (vm_compute; reflexivity).
  exact (proj2 (maze_only_loses_pellets game0 23 13 " "%char
                  (reachable_init game0 init_ok) H)).
Defined.

(** ** The collision box *)

(** X14.  Two 16 x 16 bodies collide exactly when their truncated pixel
    corners are less than 16 apart on both axes; the test is symmetric; for
    positions at least 8 pixels inside the screen's top and left, centres at
    most 15 pixels apart on both axes always collide and centres 16 or more
    pixels apart on either axis never do (so agents on the centres of
    neighbouring tiles, 20 pixels apart, do not touch). *)
Theorem collision_needs_less_than_16_pixels (x1 y1 x2 y2 : Z) :
  let corner := fun v => Z.quot (v - 8 * SUB) SUB in
  (colliderect (body_rect x1 y1) (body_rect x2 y2) = true
   <-> Z.abs (corner x1 - corner x2) < 16 /\ Z.abs (corner y1 - corner y2) < 16)
  /\ colliderect (body_rect x1 y1) (body_rect x2 y2)
     = colliderect (body_rect x2 y2) (body_rect x1 y1)
  /\ (8 * SUB <= x1 -> 8 * SUB <= x2 -> 8 * SUB <= y1 -> 8 * SUB <= y2 ->
      (Z.abs (x1 - x2) <= 15 * SUB -> Z.abs (y1 - y2) <= 15 * SUB ->
       colliderect (body_rect x1 y1) (body_rect x2 y2) = true)
      /\ (16 * SUB <= Z.abs (x1 - x2) \/ 16 * SUB <= Z.abs (y1 - y2) ->
          colliderect (body_rect x1 y1) (body_rect x2 y2) = false)).
Proof.
  intro corner.
  assert (Hiff : forall a b c d,
             colliderect (body_rect a b) (body_rect c d) = true
             <-> Z.abs (corner a - corner c) < 16 /\ Z.abs (corner b - corner d) < 16).
  { intros a b c d. unfold colliderect, body_rect, corner.
    cbn [left top width height]. cbn [Z.eqb orb negb andb].
    rewrite !andb_true_iff, !Z.ltb_lt, !Z.gtb_ltb, !Z.ltb_lt. lia. }
  split; [apply Hiff|]. split.
  - destruct (colliderect (body_rect x1 y1) (body_rect x2 y2)) eqn:E1;
      destruct (colliderect (body_rect x2 y2) (body_rect x1 y1)) eqn:E2;
      try reflexivity.
    + apply Hiff in E1. assert (H : colliderect (body_rect x2 y2) (body_rect x1 y1) = true)
        by (apply Hiff; lia). congruence.
    + apply Hiff in E2. assert (H : colliderect (body_rect x1 y1) (body_rect x2 y2) = true)
        by (apply Hiff; lia). congruence.
  - intros Hx1 Hx2 Hy1 Hy2.
    assert (Hq : forall v, 8 * SUB <= v -> corner v = (v - 8 * SUB) / SUB).
    { intros v Hv. unfold corner. apply Z.quot_div_nonneg; unfold SUB in *; lia. }
    split.
    + intros Hdx Hdy. apply Hiff.
      rewrite !Hq by assumption. unfold SUB in *.
      split; Z.div_mod_to_equations; lia.
    + intros Hfar.
      destruct (colliderect (body_rect x1 y1) (body_rect x2 y2)) eqn:E; [|reflexivity].
      apply Hiff in E. rewrite !Hq in E by assumption. unfold SUB in *.
      exfalso. destruct E as [Ex Ey].
      destruct Hfar as [Hfar | Hfar]; Z.div_mod_to_equations; lia.
Qed.

(** ** Respawn and release *)

(** X15.  Dying does not reset the pellet counter but does clear the
    released set: after [reset_positions] no adversary is marked released
    and the pellet counter is what it was, so the release rules applied to
    the respawned state at once let out every adversary whose pellet
    threshold is already met, heading up. *)
Theorem respawn_releases_by_pellets
    (g : Game.t) (n : Name) (thr secs : Z)
    (Hrule : In (n, thr, secs) release_schedule)
    (Hname : Ghost.name (Game.get_ghost g n) = n)
    (Hpellets : thr <= Game.pellets_eaten g) :
  let g0 := Game.reset_positions g in
  let g1 := Game.release_ghosts g0 in
  Game.pellets_eaten g0 = Game.pellets_eaten g
  /\ (forall m, Game.released m g0 = false)
  /\ Ghost.mode (Game.get_ghost g0 n) = Pen
  /\ Ghost.mode (Game.get_ghost g1 n) = Leaving
  /\ Ghost.dir (Game.get_ghost g1 n) = UP
  /\ Game.released n g1 = true.
Proof.
  intros g0 g1.
  assert (Hnb : name_eqb n Blinky = false).
  { destruct Hrule as [[= <- _ _] | [[= <- _ _] | [[= <- _ _] | []]]]; reflexivity. }
  assert (Hpe : Game.pellets_eaten g0 = Game.pellets_eaten g) by reflexivity.
  assert (Hrel : forall m, Game.released m g0 = false) by reflexivity.
  assert (Hg0 : Game.get_ghost g0 n = Ghost.reset (Game.get_ghost g n))
    by apply reset_positions_get.
  assert (Hpen : Ghost.mode (Game.get_ghost g0 n) = Pen).
  { rewrite Hg0. unfold Ghost.reset. cbn [Ghost.mode]. now rewrite Hname, Hnb. }
  destruct (release_ghosts_entry n thr secs g0 Hrule (Hrel n)) as [Hget Hmark].
  assert (Hdue : release_due thr secs g0 = true).
  { apply release_due_spec. left. rewrite Hpe. exact Hpellets. }
  rewrite Hdue in Hget, Hmark. fold g1 in Hget, Hmark.
  split; [exact Hpe|]. split; [exact Hrel|]. split; [exact Hpen|].
  rewrite Hget. unfold Ghost.release. rewrite Hpen. cbn [mode_eqb].
  split; [reflexivity|]. split; [reflexivity | exact Hmark].
Qed.

Lemma respawn_releases_by_pellets_witness :
  Ghost.mode (Game.get_ghost (Game.release_ghosts (Game.reset_positions seven_eaten))
                Pinky) = Leaving.
Proof.
  assert (Hin : In (Pinky, 7, 4) release_schedule) by (left; reflexivity).
  assert (Hp : 7 <= Game.pellets_eaten seven_eaten) by (vm_compute; discriminate).
  destruct (respawn_releases_by_pellets seven_eaten Pinky 7 4 Hin eq_refl Hp)
    as (_ & _ & _ & H & _).
  exact H.
Defined.

(** ** Frightened adversaries and the power countdown *)

Lemma player_stage_power (g ge : Game.t) :
  player_stage g = Ok ge ->
  (Game.power_mode ge = Game.power_mode g
   /\ Game.power_timer ge = Game.power_timer g
   /\ forall n, Game.get_ghost ge n = Game.get_ghost g n)
  \/ (Game.power_mode ge = true
      /\ Game.power_timer ge = POWER_PELLET_TIME
      /\ forall n, Game.get_ghost ge n = Ghost.frighten (Game.get_ghost g n)).
Proof.
  intro H. unfold player_stage in H. inv_bind H.
  unfold Game.move_pacman in Ha. inv_bind Ha. injection Ha as <-.
  unfold Game.eat_pellet in H.
  destruct (Pacman.get_tile _) as [col row].
  inv_bind H.
  destruct (Ascii.eqb a "."); [|destruct (Ascii.eqb a "o")].
  - inv_bind H. injection H as <-. left.
    split; [reflexivity|]. split; [reflexivity|]. intros []; reflexivity.
  - inv_bind H. injection H as <-. right.
    rewrite (frighten_ghosts_free Game.power_mode) by ghost_free.
    rewrite (frighten_ghosts_free Game.power_timer) by ghost_free.
    split; [reflexivity|]. split; [reflexivity|].
    intro n. rewrite frighten_ghosts_get. destruct n; reflexivity.
  - injection H as <-. left.
    split; [reflexivity|]. split; [reflexivity|]. intros []; reflexivity.
Qed.

Lemma fright_stage (g ge : Game.t) :
  (forall n, Ghost.mode (Game.get_ghost g n) <> Chase) ->
  fright_inv g -> player_stage g = Ok ge -> fright_inv ge.
Proof.
  intros Hc Hinv H n.
  destruct (player_stage_power g ge H) as [(Hpm & Hpt & Hg) | (Hpm & Hpt & Hg)];
    rewrite Hpm, Hpt, Hg.
  - apply Hinv.
  - specialize (Hinv n). specialize (Hc n). unfold fright_ok in *.
    unfold Ghost.frighten.
    destruct (Ghost.mode (Game.get_ghost g n)) eqn:E; try congruence;
      try (intro Hf; destruct (Hinv Hf) as (_ & _ & _ & Hm & _); discriminate Hm).
    intros _. cbn. unfold POWER_PELLET_TIME, FPS. repeat split; try lia. exact E.
Qed.

Lemma update_power_expiry (g : Game.t) (n : Name) :
  Game.power_mode g = true ->
  Game.power_timer g - 1 <= 0 ->
  Ghost.frightened (Game.get_ghost (Game.update_power g) n) = false.
Proof.
  intros Hpm Ht. unfold Game.update_power. rewrite Hpm.
  change (Game.power_timer (Game.with_power_timer g (Game.power_timer g - 1)))
    with (Game.power_timer g - 1).
  assert (Hle : (Game.power_timer g - 1 <=? 0) = true) by (apply Z.leb_le; lia).
  rewrite Hle.
  set (calm := fun gh : Ghost.t =>
                 if Ghost.frightened gh then Ghost.unfrighten gh else gh).
  set (f := fun (g0 : Game.t) (m : Name) =>
              Game.set_ghost g0 m (calm (Game.get_ghost g0 m))).
  assert (Hstep : forall l g0,
    fold_left
      (fun g1 m =>
         let gh := Game.get_ghost g1 m in
         if Ghost.frightened gh then Game.set_ghost g1 m (Ghost.unfrighten gh) else g1)
      l g0
    = fold_left f l g0).
  { induction l as [|m l IH]; intro g0; simpl; [reflexivity|].
    rewrite IH. f_equal. unfold f, calm.
    destruct (Ghost.frightened (Game.get_ghost g0 m)); [reflexivity|].
    now rewrite set_ghost_same. }
  rewrite Hstep.
  assert (Hget : forall g0,
             Game.get_ghost (fold_left f Game.ghosts g0) n = calm (Game.get_ghost g0 n)).
  { intro g0. unfold f, Game.ghosts. destruct n; reflexivity. }
  rewrite Hget. unfold calm.
  destruct (Ghost.frightened (Game.get_ghost _ n)) eqn:E; [reflexivity | exact E].
Qed.

Lemma fright_power (g : Game.t) :
  fright_inv g ->
  forall n, fright_ok (Game.power_mode (Game.update_power g))
              (Game.power_timer (Game.update_power g)) 1
              (Game.get_ghost (Game.update_power g) n).
Proof.
  intros Hinv n.
  destruct (Game.power_mode g) eqn:Hpm.
  - destruct (Z_le_gt_dec (Game.power_timer g - 1) 0) as [Hle | Hgt].
    + intro Hf. rewrite (update_power_expiry g n Hpm Hle) in Hf. discriminate.
    + assert (Hup : Game.update_power g
                    = Game.with_power_timer g (Game.power_timer g - 1)).
      { unfold Game.update_power. rewrite Hpm.
        change (Game.power_timer (Game.with_power_timer g (Game.power_timer g - 1)))
          with (Game.power_timer g - 1).
        assert (Hf : (Game.power_timer g - 1 <=? 0) = false) by (apply Z.leb_gt; lia).
        now rewrite Hf. }
      rewrite Hup.
      replace (Game.get_ghost (Game.with_power_timer g (Game.power_timer g - 1)) n)
        with (Game.get_ghost g n) by (destruct n; reflexivity).
      cbn [Game.power_mode Game.power_timer Game.with_power_timer].
      intro Hf. destruct (Hinv n Hf) as (_ & Ht & _ & Hm & Hs).
      rewrite Hpm. repeat split; try assumption; lia.
  - assert (Hup : Game.update_power g = g)
      by (unfold Game.update_power; now rewrite Hpm).
    rewrite Hup. intro Hf. destruct (Hinv n Hf) as (Hp & _). congruence.
Qed.

Lemma release_rule_pred (P : Ghost.t -> Prop) (m n : Name) (thr secs : Z) (g : Game.t) :
  (forall gh, P gh -> P (Ghost.release gh)) ->
  P (Game.get_ghost g n) -> P (Game.get_ghost (Game.release_rule m thr secs g) n).
Proof.
  intros Hrel Hp. unfold Game.release_rule.
  destruct (negb _ && _); [|exact Hp].
  replace (Game.get_ghost
             (Game.with_ghosts_released
                (Game.set_ghost g m (Ghost.release (Game.get_ghost g m)))
                (m :: Game.ghosts_released
                        (Game.set_ghost g m (Ghost.release (Game.get_ghost g m))))) n)
    with (Game.get_ghost (Game.set_ghost g m (Ghost.release (Game.get_ghost g m))) n)
    by (destruct n; reflexivity).
  rewrite get_set_ghost. destruct (name_eqb m n) eqn:E; [|exact Hp].
  apply name_eqb_eq in E. subst m. now apply Hrel.
Qed.

Lemma release_ghosts_pred (P : Ghost.t -> Prop) (n : Name) (g : Game.t) :
  (forall gh, P gh -> P (Ghost.release gh)) ->
  P (Game.get_ghost g n) -> P (Game.get_ghost (Game.release_ghosts g) n).
Proof.
  intros Hrel Hp. unfold Game.release_ghosts.
  repeat apply release_rule_pred; try exact Hrel.
  destruct n; exact Hp.
Qed.

Lemma release_ghosts_keeps {A : Type} (proj : Game.t -> A) (g : Game.t) :
  ghost_free proj ->
  (forall g0 v, proj (Game.with_ghost_release_timer g0 v) = proj g0) ->
  (forall g0 v, proj (Game.with_ghosts_released g0 v) = proj g0) ->
  proj (Game.release_ghosts g) = proj g.
Proof.
  intros Hg Ht Hr.
  assert (Hrule : forall m thr secs g0,
             proj (Game.release_rule m thr secs g0) = proj g0).
  { intros m thr secs g0. unfold Game.release_rule.
    destruct (negb _ && _); [|reflexivity]. now rewrite Hr, Hg. }
  unfold Game.release_ghosts. now rewrite !Hrule, Ht.
Qed.

Lemma release_keeps_fright (pm : bool) (pt lead : Z) (gh : Ghost.t) :
  fright_ok pm pt lead gh -> fright_ok pm pt lead (Ghost.release gh).
Proof.
  unfold fright_ok, Ghost.release. intros H.
  destruct (mode_eqb (Ghost.mode gh) Pen) eqn:E; [|exact H].
  cbn. intro Hf. destruct (H Hf) as (_ & _ & _ & Hm & _).
  rewrite Hm in E. discriminate.
Qed.

Lemma random_fields (rnd : nat) (gh : Ghost.t) :
  Ghost.frightened (Ghost.move_randomly rnd gh) = Ghost.frightened gh
  /\ Ghost.frightened_timer (Ghost.move_randomly rnd gh) = Ghost.frightened_timer gh
  /\ Ghost.speed (Ghost.move_randomly rnd gh) = Ghost.speed gh.
Proof.
  unfold Ghost.move_randomly. destruct (Ghost.get_tile gh).
  destruct (centered _ _ _ _); [|repeat split].
  destruct (Ghost.possible_dirs gh); repeat split.
Qed.

Lemma frightened_seek (gh : Ghost.t) :
  Ghost.frightened (Ghost.seek_target gh) = Ghost.frightened gh.
Proof.
  unfold Ghost.seek_target. destruct (Ghost.get_tile gh).
  destruct (centered _ _ _ _); reflexivity.
Qed.

Lemma update_target_frightened (pac : Pacman.t) (bl gh gh' : Ghost.t) :
  Ghost.update_target pac bl gh = Ok gh' ->
  Ghost.frightened gh' = Ghost.frightened gh.
Proof.
  unfold Ghost.update_target. destruct (Pacman.get_tile pac).
  destruct (Ghost.mode gh);
    try (intro H; injection H as <-; reflexivity);
    destruct (Ghost.name gh);
    try destruct (Ghost.get_tile bl);
    intro H; try discriminate; injection H as <-; reflexivity.
Qed.

Lemma ghost_update_calm (pac : Pacman.t) (bl : Ghost.t) (rnd : nat) (gh gh' : Ghost.t) :
  Ghost.frightened gh = false ->
  Ghost.update pac bl rnd gh = Ok gh' ->
  Ghost.frightened gh' = false.
Proof.
  intros Hf H. rewrite ghost_update_unfold in H. cbv zeta in H.
  destruct (tick_fright_keeps gh) as (_ & _ & Hsame).
  rewrite (Hsame Hf) in H.
  destruct (Ghost.mode gh).
  - injection H as <-. rewrite frightened_move.
    destruct (_ =? 0); exact Hf.
  - destruct (_ >? 11); injection H as <-; exact Hf.
  - rewrite Hf in H. inv_bind H. injection H as <-.
    rewrite frightened_seek, (update_target_frightened _ _ _ _ Ha). exact Hf.
  - rewrite Hf in H. inv_bind H. injection H as <-.
    rewrite frightened_seek, (update_target_frightened _ _ _ _ Ha). exact Hf.
  - destruct (_ && _); injection H as <-; [exact Hf|].
    rewrite frightened_seek. exact Hf.
  - destruct (_ >=? 14); injection H as <-; [reflexivity | exact Hf].
Qed.

Lemma ghost_update_flee (pac : Pacman.t) (bl : Ghost.t) (rnd : nat) (gh gh' : Ghost.t) :
  Ghost.frightened gh = true ->
  1 < Ghost.frightened_timer gh ->
  Ghost.mode gh = Scatter ->
  Ghost.update pac bl rnd gh = Ok gh' ->
  Ghost.frightened gh' = true
  /\ Ghost.frightened_timer gh' = Ghost.frightened_timer gh - 1
  /\ Ghost.mode gh' = Scatter
  /\ Ghost.speed gh' = Ghost.speed gh.
Proof.
  intros Hf Ht Hm H. rewrite ghost_update_unfold in H. cbv zeta in H.
  assert (Htick : tick_fright gh
                  = Ghost.with_frightened_timer gh (Ghost.frightened_timer gh - 1)).
  { unfold tick_fright. rewrite Hf.
    change (Ghost.frightened_timer
              (Ghost.with_frightened_timer gh (Ghost.frightened_timer gh - 1)))
      with (Ghost.frightened_timer gh - 1).
    assert (Hl : (Ghost.frightened_timer gh - 1 <=? 0) = false)
      by (apply Z.leb_gt; lia).
    now rewrite Hl. }
  rewrite Htick in H.
  change (Ghost.mode (Ghost.with_frightened_timer gh (Ghost.frightened_timer gh - 1)))
    with (Ghost.mode gh) in H.
  change (Ghost.frightened
            (Ghost.with_frightened_timer gh (Ghost.frightened_timer gh - 1)))
    with (Ghost.frightened gh) in H.
  rewrite Hm, Hf in H. injection H as <-.
  destruct (random_fields rnd
              (Ghost.with_frightened_timer gh (Ghost.frightened_timer gh - 1)))
    as (R1 & R2 & R3).
  rewrite mode_random, R1, R2, R3. repeat split; assumption.
Qed.

Lemma fright_ghost_update (pm : bool) (pt : Z)
    (pac : Pacman.t) (bl : Ghost.t) (rnd : nat) (gh gh' : Ghost.t) :
  fright_ok pm pt 1 gh ->
  Ghost.update pac bl rnd gh = Ok gh' ->
  fright_ok pm pt 0 gh'.
Proof.
  intros Hok H Hf'.
  destruct (Ghost.frightened gh) eqn:Hf.
  - destruct (Hok Hf) as (Hpm & Ht & Hpos & Hm & Hs).
    destruct (ghost_update_flee pac bl rnd gh gh' Hf ltac:(lia) Hm H)
      as (_ & Ht' & Hm' & Hs').
    repeat split; try assumption; try lia; congruence.
  - rewrite (ghost_update_calm pac bl rnd gh gh' Hf H) in Hf'. discriminate.
Qed.

Lemma fright_update_game (rnd : Name -> nat) (g g' : Game.t) :
  (forall n, Ghost.mode (Game.get_ghost g n) <> Chase) ->
  fright_inv g -> Game.update_game rnd g = Ok g' -> fright_inv g'.
Proof.
  intros Hc Hinv H.
  unfold Game.update_game in H. inv_bind H. rename a into g1.
  fold (pac_rect g1) in H. inv_bind H. rename a into r.
  assert (H1 : fright_inv g1).
  { rewrite before_collisions_split in Ha. inv_bind Ha. rename a into ge.
    pose proof (fright_stage g ge Hc Hinv Ha1) as Hinv_e.
    pose proof (fright_power ge Hinv_e) as Hinv_p.
    set (gp := Game.update_power ge) in *.
    assert (Hinv_s : forall n,
               fright_ok (Game.power_mode gp) (Game.power_timer gp) 1
                 (Game.get_ghost (Game.release_ghosts gp) n)).
    { intro n. apply release_ghosts_pred; [apply release_keeps_fright | apply Hinv_p]. }
    assert (Hpm : Game.power_mode g1 = Game.power_mode gp).
    { rewrite (update_ghosts_free Game.power_mode rnd ltac:(ghost_free) _ _ _ Ha).
      apply release_ghosts_keeps; [ghost_free | reflexivity | reflexivity]. }
    assert (Hpt : Game.power_timer g1 = Game.power_timer gp).
    { rewrite (update_ghosts_free Game.power_timer rnd ltac:(ghost_free) _ _ _ Ha).
      apply release_ghosts_keeps; [ghost_free | reflexivity | reflexivity]. }
    intro n. rewrite Hpm, Hpt.
    destruct (update_ghosts_each rnd _ g1 Ha n) as [bl Hup].
    exact (fright_ghost_update _ _ _ _ _ _ _ (Hinv_s n) Hup). }
  assert (Hr : fright_inv (fst r)).
  { intro n.
    rewrite (check_collisions_free Game.power_mode _ ltac:(collision_free) _ _ _ Ha0).
    rewrite (check_collisions_free Game.power_timer _ ltac:(collision_free) _ _ _ Ha0).
    destruct (check_collisions_ghost _ n _ _ _ Ha0) as [-> | [-> _]];
      [apply H1 | intro Hf; discriminate Hf]. }
  destruct (snd r); [injection H as <-; exact Hr|].
  unfold Game.check_level_completion in H.
  destruct (_ >=? _); [|injection H as <-; exact Hr].
  unfold Game.reset_level in H. inv_bind H. inv_bind Ha1. inv_bind Ha1.
  injection Ha1 as <-. injection H as <-.
  intros [] Hf; discriminate Hf.
Qed.

Lemma fright_inv_same (g g' : Game.t) :
  Game.power_mode g' = Game.power_mode g ->
  Game.power_timer g' = Game.power_timer g ->
  (forall n, Game.get_ghost g' n = Game.get_ghost g n) ->
  fright_inv g -> fright_inv g'.
Proof.
  intros Hpm Hpt Hg Hinv n. rewrite Hpm, Hpt, Hg. apply Hinv.
Qed.

Lemma fright_inv_calm (g : Game.t) :
  (forall n, Ghost.frightened (Game.get_ghost g n) = false) -> fright_inv g.
Proof. intros H n Hf. rewrite H in Hf. discriminate. Qed.

Lemma fright_reset_level (g g' : Game.t) :
  Game.reset_level g = Ok g' -> fright_inv g'.
Proof.
  intro H. unfold Game.reset_level in H. inv_bind H. inv_bind H. injection H as <-.
  apply fright_inv_calm. intros []; reflexivity.
Qed.

Lemma fright_update (rnd : Name -> nat) (g g' : Game.t) :
  (forall n, Ghost.mode (Game.get_ghost g n) <> Chase) ->
  fright_inv g -> Game.update rnd g = Ok g' -> fright_inv g'.
Proof.
  intros Hc Hinv H. unfold Game.update in H.
  destruct (Game.state g).
  - destruct (_ <=? 0); injection H as <-; exact Hinv.
  - now apply (fright_update_game rnd g g').
  - destruct (_ <=? 0); [|injection H as <-; exact Hinv].
    destruct (_ <=? 0).
    + destruct (_ >? _); injection H as <-; exact Hinv.
    + injection H as <-.
      match goal with
      | |- fright_inv (Game.with_state_timer
                         (Game.with_state (Game.reset_positions ?x) _) _) =>
          pose proof (reset_positions_get x) as Hx;
          revert Hx; generalize (Game.reset_positions x)
      end.
      intros g1 Hx. apply fright_inv_calm. intro n.
      replace (Game.get_ghost (Game.with_state_timer (Game.with_state g1 READY) READY_TIME) n)
        with (Game.get_ghost g1 n) by (destruct n; reflexivity).
      rewrite Hx. reflexivity.
  - injection H as <-. exact Hinv.
Qed.

Lemma fright_reachable (g : Game.t) : reachable g -> fright_inv g.
Proof.
  induction 1 as [g Hinit | g g' r keys rnd Hr IH Hf].
  - exact (fright_reset_level Game.blank g Hinit).
  - destruct (safe_reachable g Hr) as [_ [Hc _]].
    unfold Game.frame in Hf. inv_bind Hf. rename a into g0.
    assert (H0 : fright_inv g0 /\ forall n, Ghost.mode (Game.get_ghost g0 n) <> Chase).
    { destruct r; [|injection Ha as <-; now split].
      unfold Game.restart in Ha.
      destruct (phase_eqb _ GAME_OVER); [|injection Ha as <-; now split].
      inv_bind Ha. injection Ha as <-.
      pose proof (fright_reset_level _ _ Ha0) as Hfr.
      unfold Game.reset_level in Ha0. inv_bind Ha0. inv_bind Ha0.
      injection Ha0 as Ha0. revert Hfr. rewrite <- Ha0. intro Hfr. split.
      - apply fright_inv_calm. intros []; reflexivity.
      - intros []; discriminate. }
    destruct H0 as [Hf0 Hc0].
    apply (fright_update rnd (Game.handle_input keys g0) g'); [| |exact Hf].
    + intro n.
      replace (Game.get_ghost (Game.handle_input keys g0) n)
        with (Game.get_ghost g0 n); [apply Hc0|].
      symmetry. apply (handle_input_keeps (fun g => Game.get_ghost g n)).
      intros ? ?. destruct n; reflexivity.
    + apply (fright_inv_same g0); [| | |exact Hf0].
      * apply (handle_input_keeps Game.power_mode). reflexivity.
      * apply (handle_input_keeps Game.power_timer). reflexivity.
      * intro n. apply (handle_input_keeps (fun g => Game.get_ghost g n)).
        intros ? ?. destruct n; reflexivity.
Qed.

(** X16.  A frightened adversary is always in step with the power mode.
    In every reachable state, if an adversary is frightened then power mode
    is on, the adversary's own frightened countdown equals the global power
    countdown, that countdown has not run out, and the adversary is in
    scatter mode at the frightened speed 0.8.  (So the global countdown
    always ends the fright first, and a frightened adversary is never in
    the pen, leaving, dead or entering.) *)
Theorem frightened_in_step_with_power
    (g : Game.t) (n : Name)
    (Hreach : reachable g)
    (Hfright : Ghost.frightened (Game.get_ghost g n) = true) :
  Game.power_mode g = true
  /\ Ghost.frightened_timer (Game.get_ghost g n) = Game.power_timer g
  /\ 0 < Game.power_timer g
  /\ Ghost.mode (Game.get_ghost g n) = Scatter
  /\ Ghost.speed (Game.get_ghost g n) = 8.
Proof.
  destruct (fright_reachable g Hreach n Hfright) as (H1 & H2 & H3 & H4 & H5).
  rewrite Z.add_0_r in H2. repeat split; assumption.
Qed.

Lemma frightened_in_step_with_power_witness :
  frames pellet_walk game0 = Ok powered
  /\ Ghost.frightened (Game.get_ghost powered Pinky) = true
  /\ Ghost.frightened_timer (Game.get_ghost powered Pinky) = Game.power_timer powered
  /\ Game.power_timer powered = 345.
Proof.
  assert (H : frames pellet_walk game0 = Ok powered) by (vm_compute; reflexivity).
  assert (Hf : Ghost.frightened (Game.get_ghost powered Pinky) = true)
    by (vm_compute; reflexivity).
  pose proof (frames_reachable _ _ _ (reachable_init game0 init_ok) H) as Hr.
  destruct (frightened_in_step_with_power powered Pinky Hr Hf) as (_ & Ht & _).
  split; [exact H|]. split; [exact Hf|]. split; [exact Ht|].
  vm_compute. reflexivity.
Defined.
